(** * SpiderWeb SDK: a shallow embedding of the asset pipeline

    The repository ships four variants of one client-side pipeline:

    - [V11]       : [src/new.js], SpiderWebSDK v1.1 (single-chain permit flow);
    - [Multichain]: [src/payment-sdk-multichain.js], first script
                    (SpiderWebSDK with the price cache);
    - [Split30]   : same file, second script (SpiderWeb7702SDK v3.0);
    - [Split31]   : same file, third script (SpiderWeb7702SDK v3.1).

    JavaScript values are embedded as follows.  Plain objects used as
    string-keyed dictionaries are insertion-ordered association lists
    ([jsobj]); the [Map] behind [_priceCache] is a [gmap]; [BigNumber] and
    [BigInt] are [Z].  The flows carry fiat values as exact rationals ([Qc]),
    where [parseFloat(formatUnits(b, d)) * p] is [b / 10^d * p]; the ranking
    and the selection loop, whose result depends on how doubles round, are
    also embedded in binary64 arithmetic ([Float64], [Ieee]).  Everything the SDK awaits on (indexing RPC, contracts,
    price oracle, wallet, relayer, clock) is an explicit environment record;
    the functions whose properties speak about network or wallet traffic
    return, next to their value, the list of external interactions they
    performed.  A promise that rejects / a [throw] is the [Throws] outcome.
    [Promise.all] fan-outs are sequentialised in list order. *)

From Stdlib Require Import ZArith QArith Qcanon Ascii HexString SpecFloat.
From stdpp Require Import base option list strings gmap fin_maps numbers sorting pretty.

#[local] Set Warnings "-clear-no-such-hyp".

Local Open Scope string_scope.
Local Open Scope list_scope.
Local Open Scope Z_scope.

(** ** JavaScript helpers *)

Module Js.

(** [String.prototype.toLowerCase], on the ASCII range (addresses and
    oracle ids are ASCII). *)
Definition lower_ascii (c : ascii) : ascii :=
  let n := N_of_ascii c in
  if ((65 <=? n) && (n <=? 90))%N then ascii_of_N (n + 32) else c.

Fixpoint toLowerCase (s : string) : string :=
  match s with
  | EmptyString => EmptyString
  | String c s' => String (lower_ascii c) (toLowerCase s')
  end.

(** [s.startsWith(p)] *)
Definition startsWith (p s : string) : bool := String.prefix p s.

(** [Array.prototype.join(sep)] *)
Fixpoint join (sep : string) (l : list string) : string :=
  match l with
  | [] => ""
  | [x] => x
  | x :: l' => x +:+ sep +:+ join sep l'
  end.

(** Outcome of an awaited computation: it resolves or it rejects. *)
Inductive outcome (A : Type) : Type :=
| Returns (a : A)
| Throws (msg : string).
Arguments Returns {A} a.
Arguments Throws {A} msg.

#[global] Instance outcome_eq_dec {A} `{EqDecision A} : EqDecision (outcome A).
Proof. solve_decision. Defined.

Definition bind {A B} (x : outcome A) (f : A -> outcome B) : outcome B :=
  match x with
  | Returns a => f a
  | Throws m => Throws m
  end.

(** [await Promise.all(ps)]: resolves with all values, rejects as soon as
    one promise rejects. *)
Fixpoint promiseAll {A} (ps : list (outcome A)) : outcome (list A) :=
  match ps with
  | [] => Returns []
  | p :: ps' =>
      match p with
      | Throws m => Throws m
      | Returns a =>
          match promiseAll ps' with
          | Throws m => Throws m
          | Returns l => Returns (a :: l)
          end
      end
  end.

(** *** Plain objects as insertion-ordered dictionaries *)

Definition jsobj (V : Type) : Type := list (string * V).

(** [o[k]] ([None] is [undefined]) *)
Fixpoint get {V} (k : string) (o : jsobj V) : option V :=
  match o with
  | [] => None
  | (k', v) :: o' => if decide (k' = k) then Some v else get k o'
  end.

(** [o[k] = v]: an existing key keeps its position, a new key is appended. *)
Fixpoint set {V} (k : string) (v : V) (o : jsobj V) : jsobj V :=
  match o with
  | [] => [(k, v)]
  | (k', v') :: o' =>
      if decide (k' = k) then (k, v) :: o' else (k', v') :: set k v o'
  end.

(** [Object.assign(target, src)] *)
Definition assign {V} (target src : jsobj V) : jsobj V :=
  foldl (fun acc kv => set kv.1 kv.2 acc) target src.

(** [{...a, ...b}] *)
Definition spread2 {V} (a b : jsobj V) : jsobj V := assign (assign [] a) b.

(** [Object.keys(o)] *)
Definition keys {V} (o : jsobj V) : list string := o.*1.

End Js.

Import Js.

(** ** Shared data *)

(** A price object [{usd: n}] of the oracle; [usd] may be missing. *)
Record PriceData := mkPriceData { usd : option Qc }.

(** The literal [{ usd: 0 }]. *)
Definition zeroPrice : PriceData := mkPriceData (Some 0%Qc).

(** Truthiness of a number-valued property ([undefined] and [0] are falsy). *)
Definition truthyNumber (x : option Qc) : bool :=
  match x with
  | Some q => negb (bool_decide (q = 0%Qc))
  | None => false
  end.

(** The two oracle endpoints, with the parameter the SDK puts in the URL. *)
Inductive Query :=
| TokenPriceQuery (assetPlatform contract_addresses : string)
| SimplePriceQuery (ids : string).

#[global] Instance Query_eq_dec : EqDecision Query.
Proof. solve_decision. Defined.

(** What [fetch(apiUrl)] followed by [response.json()] can do. *)
Inductive FetchOutcome :=
| NetworkError                      (* the promise rejects *)
| HttpError (status : Z)            (* [response.ok] is false *)
| Body (data : jsobj PriceData).    (* parsed JSON body *)

Definition Oracle : Type := Query -> FetchOutcome.


(** ** The environment of one pipeline run *)

Module Rpc.
(** One entry of [data.result.tokenBalances]. *)
Record TokenBalance := mkTokenBalance {
  contractAddress : string;
  tokenBalance : string      (* hex string, as sent by the indexing RPC *)
}.

(** [data.result] of [alchemy_getTokenBalances]. *)
Inductive BalancesResponse :=
| NoResult
| TokenBalances (l : list TokenBalance).

(** [metadata.result] of [alchemy_getTokenMetadata]; [decimals] may be
    [null]. *)
Record Metadata := mkMetadata { decimals : option Z; symbol : string }.
End Rpc.

(** Answers of one token contract to the view calls the SDK makes for the
    connected owner; [None] is a revert (or any other exception of the call). *)
Record Contract := mkContract {
  call_nonces : option Z;
  call_name : option string;
  call_symbol : option string;
  call_balanceOf : option Z;
  call_decimals : option Z;
  call_version : option string
}.

(** [provider.getFeeData()]; either field may be [null]. *)
Record FeeData := mkFeeData { maxFeePerGas : option Z; gasPrice : option Z }.

(** EIP-712 domain and message of the permit. *)
Record Domain := mkDomain {
  domain_name : string;
  domain_version : string;
  domain_chainId : Z;
  verifyingContract : string
}.

Record PermitMessage := mkPermitMessage {
  owner : string;
  spender : string;
  value : Z;
  nonce : Z;
  deadline : Z
}.

(** [signer._signTypedData] followed by [ethers.utils.splitSignature]. *)
Inductive SignOutcome :=
| SignRejected (msg : string)
| Signed (v : Z) (r s : string).

(** Body of the POST to the relayer. *)
Record Payload := mkPayload {
  payload_owner : string;
  payload_recipient : string;
  payload_contractAddress : string;
  payload_value : Z;
  payload_deadline : Z;
  payload_v : Z;
  payload_r : string;
  payload_s : string;
  payload_chainId : Z;
  payload_totalUsdValue : option Qc
}.

(** [response.ok], [result.success], [result.message]. *)
Record RelayResponse := mkRelayResponse {
  relay_ok : bool;
  relay_success : bool;
  relay_message : option string
}.

Record Env := mkEnv {
  dateNow : Z;                                      (* [Date.now()], ms *)
  getTokenBalances : Rpc.BalancesResponse;
  getTokenMetadata : string -> option Rpc.Metadata;
  contractAt : string -> Contract;
  getAddress : string -> option string;             (* [ethers.utils.getAddress]; [None] = throws *)
  oracle : Oracle;
  getBalance : Z;                                   (* native balance, wei *)
  getFeeData : FeeData;
  signTypedData : Domain -> PermitMessage -> SignOutcome;
  relay : Payload -> RelayResponse
}.

(** The part of [this] the permit flow reads. *)
Record Session := mkSession {
  _currentUserAddress : string;
  chainId : Z;                 (* [_currentUserChainId], resp. [_config.chainId] *)
  relayerAddress : string;
  recipientAddress : string
}.

(** External interactions, in the order the SDK performs them. *)
Inductive Event :=
| EvIndexer (method : string)
| EvContractCall (address method : string)
| EvPriceFetcher (tokenAddresses : list string)    (* a call of [_fetchTokenPrices] *)
| EvOracle (q : Query)                             (* HTTP GET to the price oracle *)
| EvClock
| EvSign (d : Domain) (m : PermitMessage)
| EvRelay (p : Payload).

#[global] Instance Domain_eq_dec : EqDecision Domain.
Proof. solve_decision. Defined.

#[global] Instance PermitMessage_eq_dec : EqDecision PermitMessage.
Proof. solve_decision. Defined.

#[global] Instance Payload_eq_dec : EqDecision Payload.
Proof. solve_decision. Defined.

#[global] Instance Event_eq_dec : EqDecision Event.
Proof. solve_decision. Defined.

(** A token that passed the scan: [{ contractAddress, name, symbol, balance,
    decimals }]. *)
Record TokenData := mkTokenData {
  contractAddress : string;
  name : string;
  symbol : string;
  balance : Z;
  decimals : Z
}.

(** A token together with a fiat value ([{ tokenData, usdValue }], resp. a
    token object carrying a [usdValue] property). *)
Record Valued := mkValued { tokenData : TokenData; usdValue : Qc }.

(** [parseFloat(ethers.utils.formatUnits(balance, decimals))], as the exact
    value of the decimal string; [Float64.formatUnits] is the double it is
    read as. *)
Definition formatUnits (balance decimals : Z) : Qc :=
  (Qc_of_Z balance / Qc_of_Z (10 ^ decimals))%Qc.

(** Value of a hex quantity string ([None]: not a hex quantity). *)
Definition hexDigit (c : ascii) : option Z :=
  let n := Z.of_N (N_of_ascii c) in
  if decide (48 <= n <= 57) then Some (n - 48)
  else if decide (97 <= n <= 102) then Some (n - 87)
  else if decide (65 <= n <= 70) then Some (n - 55)
  else None.

Fixpoint hexDigits (s : string) (acc : Z) : option Z :=
  match s with
  | EmptyString => Some acc
  | String c s' =>
      match hexDigit c with
      | Some d => hexDigits s' (16 * acc + d)
      | None => None
      end
  end.

Definition hexValue (s : string) : option Z :=
  match s with
  | String "0" (String "x" (String c rest)) => hexDigits (String c rest) 0
  | _ => None
  end.

(** ** The scan shared by the permit variants

    [nonZeroBalances], [checkPromises] and [compatibleTokens] are the same
    text in [_findHighestValueToken] (both files) and in
    [_getRankedCompatibleTokens]; only [_checkPermitSupport] differs. *)

Module Scan.

(** [tokenBalances.filter(t => t.tokenBalance !== '0x0')] *)
Definition nonZeroBalances (tokenBalances : list Rpc.TokenBalance)
  : list Rpc.TokenBalance :=
  filter (fun t => Rpc.tokenBalance t ≠ "0x0") tokenBalances.

Section WithProbe.
Variable _checkPermitSupport : Env -> string -> outcome bool * list Event.

(** The async arrow function mapped over [nonZeroBalances]. *)
Definition checkToken (env : Env) (token : Rpc.TokenBalance)
  : outcome (option TokenData) * list Event :=
  let address := Rpc.contractAddress token in
  let '(supported, probed) := _checkPermitSupport env address in
  match supported with
  | Throws m => (Throws m, probed)
  | Returns false => (Returns None, probed)
  | Returns true =>
      let c := contractAt env address in
      let calls := EvContractCall address <$> ["name"; "symbol"; "balanceOf"; "decimals"] in
      (match call_name c, call_symbol c, call_balanceOf c, call_decimals c with
       | Some n, Some s, Some b, Some d => Returns (Some (mkTokenData address n s b d))
       | _, _, _, _ => Throws "call revert exception"
       end, probed ++ calls)
  end.

(** [(await Promise.all(checkPromises)).filter(Boolean)] *)
Definition compatibleTokens (env : Env) (nonZero : list Rpc.TokenBalance)
  : outcome (list TokenData) * list Event :=
  let started := checkToken env <$> nonZero in
  (bind (promiseAll (fst <$> started)) (fun l => Returns (omap id l)),
   concat (snd <$> started)).
End WithProbe.

End Scan.

(** ** The permit signature shared by the permit variants
    (lines 412-454 of new.js, 526-567 of payment-sdk-multichain.js) *)

Module Permit.

Record Built := mkBuilt {
  built_message : PermitMessage;
  built_v : Z;
  built_r : string;
  built_s : string
}.

Definition sign (sdk : Session) (env : Env) (tokenData : TokenData)
  : outcome Built * list Event :=
  let address := contractAddress tokenData in
  let tokenContract := contractAt env address in
  match call_nonces tokenContract with
  | None => (Throws "call revert exception", [EvContractCall address "nonces"])
  | Some nonce =>
      let deadline := dateNow env `div` 1000 + 1800 in
      let domainVersion := default "1" (call_version tokenContract) in
      let domain :=
        mkDomain (name tokenData) domainVersion (chainId sdk) address in
      let permitMessage :=
        mkPermitMessage (_currentUserAddress sdk) (relayerAddress sdk)
          (balance tokenData) nonce deadline in
      let events :=
        [EvContractCall address "nonces"; EvClock;
         EvContractCall address "version"; EvSign domain permitMessage] in
      match signTypedData env domain permitMessage with
      | SignRejected m => (Throws m, events)
      | Signed v r s => (Returns (mkBuilt permitMessage v r s), events)
      end
  end.

(** The rest of [_signAndSendWithStandardPermit]: relay the signature. *)
Definition signAndSend (sdk : Session) (env : Env) (tokenData : TokenData)
    (totalUsdValue : option Qc) : outcome unit * list Event :=
  match sign sdk env tokenData with
  | (Throws m, events) => (Throws m, events)
  | (Returns b, events) =>
      let payload :=
        mkPayload (_currentUserAddress sdk) (recipientAddress sdk)
          (contractAddress tokenData) (balance tokenData)
          (deadline (built_message b)) (built_v b) (built_r b) (built_s b)
          (chainId sdk) totalUsdValue in
      let response := relay env payload in
      if relay_ok response && relay_success response
      then (Returns tt, events ++ [EvRelay payload])
      else (Throws (default "Relayer service failed." (relay_message response)),
            events ++ [EvRelay payload])
  end.

End Permit.

(** ** Valuation loop shared by both [_findHighestValueToken] *)

Module Valuation.

(** The [for (const token of compatibleTokens)] loop of
    [_findHighestValueToken], with its two loop variables, on exact values;
    [IeeeSelect.valueLoop] is the loop on doubles. *)
Fixpoint valueLoop (prices : jsobj PriceData) (tokens : list TokenData)
    (highestValueToken : option TokenData) (maxUsdValue : Qc)
  : option TokenData * Qc :=
  match tokens with
  | [] => (highestValueToken, maxUsdValue)
  | token :: rest =>
      match get (toLowerCase (contractAddress token)) prices with
      | Some priceData =>
          if truthyNumber (usd priceData) then
            let usdValue :=
              (formatUnits (balance token) (decimals token)
               * default 0 (usd priceData))%Qc in
            if decide (maxUsdValue < usdValue)%Qc
            then valueLoop prices rest (Some token) usdValue
            else valueLoop prices rest highestValueToken maxUsdValue
          else valueLoop prices rest highestValueToken maxUsdValue
      | None => valueLoop prices rest highestValueToken maxUsdValue
      end
  end.

End Valuation.

(** ** [Multichain]: SpiderWebSDK of payment-sdk-multichain.js *)

Module Multichain.

Record CacheEntry := mkCacheEntry { price : PriceData; timestamp : Z }.

Definition _CACHE_DURATION_MS : Z := 5 * 60 * 1000.

Definition _CHAIN_ID_TO_COINGECKO_ASSET_PLATFORM (chainId : Z) : option string :=
  if decide (chainId = 1) then Some "ethereum"
  else if decide (chainId = 137) then Some "polygon-pos"
  else if decide (chainId = 10) then Some "optimistic-ethereum"
  else if decide (chainId = 42161) then Some "arbitrum-one"
  else if decide (chainId = 56) then Some "binance-smart-chain"
  else if decide (chainId = 43114) then Some "avalanche"
  else if decide (chainId = 8453) then Some "base"
  else if decide (chainId = 14) then Some "flare-network"
  else None.

(** The first loop of [_fetchTokenPrices]: split the requested addresses
    into prices served from the cache and addresses to fetch. *)
Fixpoint partitionByCache (cache : gmap string CacheEntry) (now : Z)
    (tokenAddresses : list string)
    (pricesFromCache : jsobj PriceData) (addressesToFetch : list string)
  : jsobj PriceData * list string :=
  match tokenAddresses with
  | [] => (pricesFromCache, addressesToFetch)
  | address :: rest =>
      let lowerCaseAddress := toLowerCase address in
      match cache !! lowerCaseAddress with
      | Some cached =>
          if decide (now - timestamp cached < _CACHE_DURATION_MS)
          then partitionByCache cache now rest
                 (set lowerCaseAddress (price cached) pricesFromCache)
                 addressesToFetch
          else partitionByCache cache now rest pricesFromCache
                 (addressesToFetch ++ [address])
      | None =>
          partitionByCache cache now rest pricesFromCache
            (addressesToFetch ++ [address])
      end
  end.

(** One element of [results]. *)
Inductive FetchResult :=
| Rejected (address : string)            (* [{ status: 'rejected', address }] *)
| Prices (o : jsobj PriceData).

(** One element of [fetchPromises]. *)
Definition fetchOne (oracle : Oracle) (assetPlatform address : string)
  : outcome FetchResult :=
  match oracle (TokenPriceQuery assetPlatform address) with
  | NetworkError => Throws "fetch failed"
  | HttpError _ => Returns (Rejected address)
  | Body data =>
      let k := toLowerCase address in
      Returns (Prices (set k (default zeroPrice (get k data)) (assign [] data)))
  end.

(** [results.reduce((acc, current) => ..., {})] *)
Definition reduceStep (acc : jsobj PriceData) (current : FetchResult)
  : jsobj PriceData :=
  match current with
  | Prices o => spread2 acc o
  | Rejected _ => acc
  end.

Definition reducePrices (results : list FetchResult) : jsobj PriceData :=
  foldl reduceStep [] results.

(** [for (const address in newPrices) this._priceCache.set(...)] *)
Definition storePrices (now : Z) (newPrices : jsobj PriceData)
    (cache : gmap string CacheEntry) : gmap string CacheEntry :=
  foldl (fun c kv => <[toLowerCase kv.1 := mkCacheEntry kv.2 now]> c)
    cache newPrices.

Record PriceFetch := mkPriceFetch {
  prices : jsobj PriceData;             (* the returned mapping *)
  cacheAfter : gmap string CacheEntry;  (* [this._priceCache] afterwards *)
  requests : list Query                 (* oracle requests issued, in order *)
}.

Definition _fetchTokenPrices (chainId now : Z) (oracle : Oracle)
    (cache : gmap string CacheEntry) (tokenAddresses : list string)
  : PriceFetch :=
  match _CHAIN_ID_TO_COINGECKO_ASSET_PLATFORM chainId with
  | None => mkPriceFetch [] cache []
  | Some assetPlatform =>
      let '(pricesFromCache, addressesToFetch) :=
        partitionByCache cache now tokenAddresses [] [] in
      match addressesToFetch with
      | [] => mkPriceFetch pricesFromCache cache []
      | _ =>
          let issued := TokenPriceQuery assetPlatform <$> addressesToFetch in
          match promiseAll (fetchOne oracle assetPlatform <$> addressesToFetch) with
          | Returns results =>
              let newPrices := reducePrices results in
              mkPriceFetch (spread2 pricesFromCache newPrices)
                (storePrices now newPrices cache) issued
          | Throws _ => mkPriceFetch pricesFromCache cache issued
          end
      end
  end.

(** [_checkPermitSupport]: the whole body is one [try]/[catch]. *)
Definition _checkPermitSupport (env : Env) (tokenAddress : string)
  : outcome bool * list Event :=
  match call_nonces (contractAt env tokenAddress) with
  | Some _ => (Returns true, [EvContractCall tokenAddress "nonces"])
  | None => (Returns false, [EvContractCall tokenAddress "nonces"])
  end.

Definition _CHAIN_ID_TO_ALCHEMY_SUBDOMAIN (chainId : Z) : option string :=
  if decide (chainId = 1) then Some "eth-mainnet"
  else if decide (chainId = 137) then Some "polygon-mainnet"
  else if decide (chainId = 10) then Some "opt-mainnet"
  else if decide (chainId = 42161) then Some "arb-mainnet"
  else if decide (chainId = 56) then Some "bsc-mainnet"
  else if decide (chainId = 8453) then Some "base-mainnet"
  else if decide (chainId = 43114) then Some "avax-mainnet"
  else None.

Definition _CHAIN_ID_TO_PUBLIC_RPC (chainId : Z) : option string :=
  if decide (chainId = 14) then Some "https://flare-api.flare.network/ext/C/rpc"
  else None.

Definition _getAlchemyUrl (alchemyApiKey : string) (chainId : Z) : outcome string :=
  match _CHAIN_ID_TO_ALCHEMY_SUBDOMAIN chainId with
  | Some subdomain =>
      Returns ("https://" +:+ subdomain +:+ ".g.alchemy.com/v2/" +:+ alchemyApiKey)
  | None =>
      match _CHAIN_ID_TO_PUBLIC_RPC chainId with
      | Some publicRpc => Returns publicRpc
      | None => Throws "Unsupported chainId: No RPC or Alchemy subdomain configured."
      end
  end.

Record Run (A : Type) := mkRun {
  result : outcome A;
  cacheOut : gmap string CacheEntry;    (* [this._priceCache] afterwards *)
  events : list Event
}.
Arguments mkRun {A} _ _ _.
Arguments result {A} _.
Arguments cacheOut {A} _.
Arguments events {A} _.

(** Lines 420-440: the valuation loop and the result object. *)
Definition pickHighest (prices : jsobj PriceData) (compatibleTokens : list TokenData)
  : option Valued :=
  let '(highestValueToken, maxUsdValue) :=
    Valuation.valueLoop prices compatibleTokens None (-1)%Qc in
  let resultToken :=
    match highestValueToken with
    | Some t => Some t
    | None => head compatibleTokens
    end in
  let resultUsdValue := if decide (-1 < maxUsdValue)%Qc then maxUsdValue else 0%Qc in
  (fun t => mkValued t resultUsdValue) <$> resultToken.

(** Lines 400-441: what [_findHighestValueToken] does with
    [compatibleTokens]. *)
Definition selectFrom (env : Env) (_currentUserChainId : Z)
    (cache : gmap string CacheEntry) (compatibleTokens : list TokenData)
  : Run (option Valued) :=
  match compatibleTokens with
  | [] => mkRun (Returns None) cache []
  | [only] => mkRun (Returns (Some (mkValued only 0%Qc))) cache []
  | _ =>
      let addresses := contractAddress <$> compatibleTokens in
      let fetched :=
        _fetchTokenPrices _currentUserChainId (dateNow env) (oracle env) cache addresses in
      (* [if (!prices)] is never taken: the fetcher always returns an object *)
      mkRun (Returns (pickHighest (prices fetched) compatibleTokens))
        (cacheAfter fetched)
        (EvPriceFetcher addresses :: (EvOracle <$> requests fetched))
  end.

(** [_findHighestValueToken]; [None] is the [null] result. *)
Definition _findHighestValueToken (alchemyApiKey : string) (env : Env)
    (_currentUserChainId : Z) (cache : gmap string CacheEntry)
  : Run (option Valued) :=
  match _getAlchemyUrl alchemyApiKey _currentUserChainId with
  | Throws m => mkRun (Throws m) cache []
  | Returns _ =>
      let rpc := [EvIndexer "alchemy_getTokenBalances"] in
      match getTokenBalances env with
      | Rpc.NoResult =>
          mkRun (Throws "Could not fetch token balances from Alchemy.") cache rpc
      | Rpc.TokenBalances tokenBalances =>
          match Scan.nonZeroBalances tokenBalances with
          | [] => mkRun (Returns None) cache rpc
          | nonZeroBalances =>
              let '(scanned, calls) :=
                Scan.compatibleTokens _checkPermitSupport env nonZeroBalances in
              match scanned with
              | Throws m => mkRun (Throws m) cache (rpc ++ calls)
              | Returns compatibleTokens =>
                  let selected :=
                    selectFrom env _currentUserChainId cache compatibleTokens in
                  mkRun (result selected) (cacheOut selected)
                    (rpc ++ calls ++ events selected)
              end
          end
      end
  end.

(** [_signAndSendWithStandardPermit(tokenData, usdValue)] *)
Definition _signAndSendWithStandardPermit (sdk : Session) (env : Env)
    (tokenData : TokenData) (usdValue : Qc) : outcome unit * list Event :=
  Permit.signAndSend sdk env tokenData (Some usdValue).

End Multichain.

(** ** [V11]: SpiderWebSDK v1.1 of new.js *)

Module V11.

Definition _CHAIN_ID_TO_COINGECKO_ASSET_PLATFORM (chainId : Z) : option string :=
  if decide (chainId = 1) then Some "ethereum"
  else if decide (chainId = 137) then Some "polygon-pos"
  else if decide (chainId = 10) then Some "optimistic-ethereum"
  else if decide (chainId = 42161) then Some "arbitrum-one"
  else if decide (chainId = 56) then Some "binance-smart-chain"
  else if decide (chainId = 43114) then Some "avalanche"
  else None.

(** Batched fetch; [None] is the [null] result. *)
Definition _fetchTokenPrices (chainId : Z) (oracle : Oracle)
    (tokenAddresses : list string) : option (jsobj PriceData) * list Query :=
  match _CHAIN_ID_TO_COINGECKO_ASSET_PLATFORM chainId with
  | None => (None, [])
  | Some assetPlatform =>
      let q := TokenPriceQuery assetPlatform (join "," tokenAddresses) in
      match oracle q with
      | Body data => (Some data, [q])
      | HttpError _ => (None, [q])
      | NetworkError => (None, [q])
      end
  end.

Definition KNOWN_PERMIT_TOKENS : list string :=
  [ "0xC02aaA39b223FE8D0A0e5C4F27eAD9083C756Cc2";   (* WETH *)
    "0x1f9840a85d5aF5aa607c37bD30F48cddE3A430bF";   (* UNI *)
    "0x514910771AF9Ca656af840dff83E8264dCef8037";   (* LINK *)
    "0xdAC17F958D2ee523a2206206994597C13D831ec7" ]. (* USDT *)

(** [_checkPermitSupport]: [getAddress] sits outside every [try]; the
    [symbol()] lookup for the log lines has its own [try]/[catch]. *)
Definition _checkPermitSupport (env : Env) (tokenAddress : string)
  : outcome bool * list Event :=
  match getAddress env tokenAddress with
  | None => (Throws "invalid address", [])
  | Some checksumAddress =>
      let logged := [EvContractCall checksumAddress "symbol"] in
      if bool_decide (checksumAddress ∈ KNOWN_PERMIT_TOKENS)
      then (Returns true, logged)
      else
        match call_nonces (contractAt env checksumAddress) with
        | Some _ => (Returns true, logged ++ [EvContractCall checksumAddress "nonces"])
        | None => (Returns false, logged ++ [EvContractCall checksumAddress "nonces"])
        end
  end.

(** Step 4 of [_getRankedCompatibleTokens], for one token. *)
Definition valuate (prices : option (jsobj PriceData)) (token : Valued) : Valued :=
  match prices with
  | None => token
  | Some ps =>
      match get (toLowerCase (contractAddress (tokenData token))) ps with
      | Some priceData =>
          if truthyNumber (usd priceData)
          then mkValued (tokenData token)
                 (formatUnits (balance (tokenData token)) (decimals (tokenData token))
                  * default 0 (usd priceData))%Qc
          else token
      | None => token
      end
  end.

(** [compatibleTokens.sort((a, b) => b.usdValue - a.usdValue)].
    [Array.prototype.sort] is stable; with this comparator every stable
    sort returns the same array, here computed by insertion.  The values
    are exact here; [Ieee.rank] is the ranking on doubles. *)
Fixpoint insertByUsdValue (a : Valued) (sorted : list Valued) : list Valued :=
  match sorted with
  | [] => [a]
  | b :: rest =>
      if decide (usdValue a < usdValue b)%Qc
      then b :: insertByUsdValue a rest
      else a :: b :: rest
  end.

Definition sortByUsdValue (l : list Valued) : list Valued :=
  foldr insertByUsdValue [] l.

(** Steps 3-5 of [_getRankedCompatibleTokens]. *)
Definition rank (prices : option (jsobj PriceData)) (compatibleTokens : list TokenData)
  : list Valued :=
  sortByUsdValue (valuate prices <$> ((fun t => mkValued t 0%Qc) <$> compatibleTokens)).

Definition _getRankedCompatibleTokens (env : Env) (chainId : Z)
  : outcome (list Valued) * list Event :=
  let rpc := [EvIndexer "alchemy_getTokenBalances"] in
  match getTokenBalances env with
  | Rpc.NoResult => (Returns [], rpc)
  | Rpc.TokenBalances tokenBalances =>
      match Scan.nonZeroBalances tokenBalances with
      | [] => (Returns [], rpc)
      | nonZeroBalances =>
          let '(scanned, calls) :=
            Scan.compatibleTokens _checkPermitSupport env nonZeroBalances in
          match scanned with
          | Throws m => (Throws m, rpc ++ calls)
          | Returns [] => (Returns [], rpc ++ calls)
          | Returns compatibleTokens =>
              let addresses := (toLowerCase ∘ contractAddress) <$> compatibleTokens in
              let '(prices, requests) := _fetchTokenPrices chainId (oracle env) addresses in
              (Returns (rank prices compatibleTokens),
               rpc ++ calls ++ [EvPriceFetcher addresses] ++ (EvOracle <$> requests))
          end
      end
  end.

(** Lines 268-305: what [_findHighestValueToken] does with
    [compatibleTokens]. *)
Definition selectFrom (env : Env) (chainId : Z) (compatibleTokens : list TokenData)
  : option TokenData * list Event :=
  match compatibleTokens with
  | [] => (None, [])
  | [only] => (Some only, [])
  | _ =>
      let addresses := (toLowerCase ∘ contractAddress) <$> compatibleTokens in
      let '(fetched, requests) := _fetchTokenPrices chainId (oracle env) addresses in
      let trace := EvPriceFetcher addresses :: (EvOracle <$> requests) in
      match fetched with
      | None => (head compatibleTokens, trace)
      | Some prices =>
          match Valuation.valueLoop prices compatibleTokens None (-1)%Qc with
          | (Some highestValueToken, _) => (Some highestValueToken, trace)
          | (None, _) => (head compatibleTokens, trace)
          end
      end
  end.

(** [_findHighestValueToken]; [None] is the [null] result. *)
Definition _findHighestValueToken (env : Env) (chainId : Z)
  : outcome (option TokenData) * list Event :=
  let rpc := [EvIndexer "alchemy_getTokenBalances"] in
  match getTokenBalances env with
  | Rpc.NoResult => (Throws "Could not fetch token balances from Alchemy.", rpc)
  | Rpc.TokenBalances tokenBalances =>
      match Scan.nonZeroBalances tokenBalances with
      | [] => (Returns None, rpc)
      | nonZeroBalances =>
          let '(scanned, calls) :=
            Scan.compatibleTokens _checkPermitSupport env nonZeroBalances in
          match scanned with
          | Throws m => (Throws m, rpc ++ calls)
          | Returns compatibleTokens =>
              let '(selected, trace) := selectFrom env chainId compatibleTokens in
              (Returns selected, rpc ++ calls ++ trace)
          end
      end
  end.

(** [_signAndSendWithStandardPermit(tokenData)] *)
Definition _signAndSendWithStandardPermit (sdk : Session) (env : Env)
    (tokenData : TokenData) : outcome unit * list Event :=
  Permit.signAndSend sdk env tokenData None.

End V11.

(** ** The two SpiderWeb7702SDK scripts of payment-sdk-multichain.js *)

Module Split.

Inductive AssetType := ETH | ERC20.

(** One element of [assets]; [decimals] is only set by v3.1. *)
Record Asset := mkAsset {
  type : AssetType;
  balance : Z;
  address : option string;
  symbol : string;
  usdValue : Qc;
  decimals : option Z
}.

Definition _CHAIN_ID_TO_COINGECKO_ASSET_PLATFORM (chainId : Z) : option string :=
  if decide (chainId = 1) then Some "ethereum"
  else if decide (chainId = 137) then Some "polygon-pos"
  else if decide (chainId = 10) then Some "optimistic-ethereum"
  else if decide (chainId = 42161) then Some "arbitrum-one"
  else if decide (chainId = 56) then Some "binance-smart-chain"
  else if decide (chainId = 43114) then Some "avalanche"
  else None.

(** One of the two guarded requests of [_fetchTokenPrices]:
    [if (xs.length > 0) { ...; if (response.ok) Object.assign(allPrices, json) }].
    [None] means the surrounding [try] was left through [catch]. *)
Definition request (oracle : Oracle) (xs : list string) (q : Query)
    (allPrices : jsobj PriceData) : option (jsobj PriceData) * list Query :=
  match xs with
  | [] => (Some allPrices, [])
  | _ =>
      match oracle q with
      | NetworkError => (None, [q])
      | HttpError _ => (Some allPrices, [q])
      | Body data => (Some (assign allPrices data), [q])
      end
  end.

(** [_fetchTokenPrices] (the same in v3.0 and v3.1 up to the optional API
    key appended to the URL); [None] is the [null] result. *)
Definition _fetchTokenPrices (chainId : Z) (oracle : Oracle)
    (tokenIdentifiers : list string) : option (jsobj PriceData) * list Query :=
  match _CHAIN_ID_TO_COINGECKO_ASSET_PLATFORM chainId with
  | None => (None, [])
  | Some assetPlatform =>
      let contractAddresses := List.filter (startsWith "0x") tokenIdentifiers in
      let nativeIds := List.filter (fun id => negb (startsWith "0x" id)) tokenIdentifiers in
      let '(first, q1) :=
        request oracle contractAddresses
          (TokenPriceQuery assetPlatform (join "," contractAddresses)) [] in
      match first with
      | None => (None, q1)
      | Some allPrices =>
          let '(second, q2) :=
            request oracle nativeIds (SimplePriceQuery (join "," nativeIds)) allPrices in
          match second with
          | None => (None, q1 ++ q2)
          | Some allPrices' =>
              match keys allPrices' with
              | [] => (None, q1 ++ q2)
              | _ => (Some allPrices', q1 ++ q2)
              end
          end
      end
  end.

(** [prices?.[id]?.usd || 0] *)
Definition usdOrZero (prices : jsobj PriceData) (id : string) : Qc :=
  match get id prices with
  | Some priceData =>
      if truthyNumber (usd priceData) then default 0%Qc (usd priceData) else 0%Qc
  | None => 0%Qc
  end.

(** [(feeData.maxFeePerGas || feeData.gasPrice) * gas]; multiplying [null]
    by a BigInt throws. *)
Definition estimatedFee (gas : Z) (feeData : FeeData) : outcome Z :=
  let perGas :=
    match maxFeePerGas feeData with
    | Some n => if decide (n = 0) then gasPrice feeData else Some n
    | None => gasPrice feeData
    end in
  match perGas with
  | Some g => Returns (g * gas)
  | None => Throws "TypeError: Cannot mix BigInt and other types"
  end.

(** The "Process ETH" block of [_findAllAssets]. *)
Definition processEth (gas : Z) (decimalsField : option Z) (env : Env)
    (prices : jsobj PriceData) : outcome (list Asset) :=
  let ethBalance := getBalance env in
  let ethPrice := usdOrZero prices "ethereum" in
  let ethValue := (formatUnits ethBalance 18 * ethPrice)%Qc in
  if decide (1 < ethValue)%Qc then
    bind (estimatedFee gas (getFeeData env)) (fun fee =>
      if decide (fee < ethBalance)
      then Returns [mkAsset ETH (ethBalance - fee) None "ETH" ethValue decimalsField]
      else Returns [])
  else Returns [].

(** The body of the "Process ERC20s" loop for one token; the two scripts
    test price and metadata in opposite orders, with the same outcome. *)
Definition processToken (withDecimals : bool) (env : Env) (prices : jsobj PriceData)
    (token : Rpc.TokenBalance) : outcome (list Asset) :=
  let addr := Rpc.contractAddress token in
  match get (toLowerCase addr) prices, getTokenMetadata env addr with
  | Some priceData, Some metadata =>
      match truthyNumber (usd priceData), Rpc.decimals metadata with
      | true, Some decimals =>
          match hexValue (Rpc.tokenBalance token) with
          | None => Throws "invalid BigNumber string"
          | Some raw =>
              let usdValue := (formatUnits raw decimals * default 0 (usd priceData))%Qc in
              if decide (1 < usdValue)%Qc
              then Returns [mkAsset ERC20 raw (Some addr) (Rpc.symbol metadata) usdValue
                              (if withDecimals then Some decimals else None)]
              else Returns []
          end
      | _, _ => Returns []
      end
  | _, _ => Returns []
  end.

Fixpoint processTokens (withDecimals : bool) (env : Env) (prices : jsobj PriceData)
    (tokens : list Rpc.TokenBalance) (assets : list Asset) : outcome (list Asset) :=
  match tokens with
  | [] => Returns assets
  | token :: rest =>
      bind (processToken withDecimals env prices token) (fun pushed =>
        processTokens withDecimals env prices rest (assets ++ pushed))
  end.

End Split.

(** *** SpiderWeb7702SDK v3.0 *)

Module Split30.
Import Split.

(** The [for (let i = 0; i < tokenAddresses.length; i += chunkSize)] loop.
    [fuel] bounds the number of iterations; [None] is reached only when
    the loop does not terminate ([chunkSize = 0]). *)
Fixpoint chunkLoop (fuel : nat) (chainId : Z) (oracle : Oracle)
    (tokenAddresses : list string) (chunkSize i : nat)
    (allPrices : jsobj PriceData) (issued : list Query)
  : option (jsobj PriceData * list Query) :=
  if (i <? length tokenAddresses)%nat then
    match fuel with
    | O => None
    | S fuel' =>
        let chunk := take chunkSize (drop i tokenAddresses) in
        let '(prices, qs) := _fetchTokenPrices chainId oracle chunk in
        let allPrices' :=
          match prices with
          | Some p => assign allPrices p
          | None => allPrices
          end in
        chunkLoop fuel' chainId oracle tokenAddresses chunkSize (i + chunkSize)
          allPrices' (issued ++ qs)
    end
  else Some (allPrices, issued).

Definition _fetchTokenPricesInChunks (chainId : Z) (oracle : Oracle)
    (tokenAddresses : list string) (chunkSize : nat)
  : option (jsobj PriceData * list Query) :=
  chunkLoop (length tokenAddresses) chainId oracle tokenAddresses chunkSize 0 [] [].

(** [_findAllAssets]; [None]: the price loop does not terminate (never
    with the default [chunkSize = 1] used here). *)
Definition _findAllAssets (chainId : Z) (env : Env) : option (outcome (list Asset)) :=
  match getTokenBalances env with
  | Rpc.NoResult => Some (Returns [])
  | Rpc.TokenBalances tokenBalances =>
      let tokensWithBalance := Scan.nonZeroBalances tokenBalances in
      let tokenAddresses := Rpc.contractAddress <$> tokensWithBalance in
      match _fetchTokenPricesInChunks chainId (oracle env)
              (tokenAddresses ++ ["ethereum"]) 1 with
      | None => None
      | Some (prices, _) =>
          Some (bind (processEth 200000 None env prices) (fun assets =>
                  processTokens false env prices tokensWithBalance assets))
      end
  end.

End Split30.

(** *** SpiderWeb7702SDK v3.1 *)

Module Split31.
Import Split.

(** [identifier.startsWith('0x') ? identifier.toLowerCase() : identifier] *)
Definition fallbackKey (identifier : string) : string :=
  if startsWith "0x" identifier then toLowerCase identifier else identifier.

(** The body of the [for (const identifier of tokenIdentifiers)] loop:
    one identifier, with its [try]/[catch]. *)
Definition chunkStep (chainId : Z) (oracle : Oracle) (identifier : string)
    (allPrices : jsobj PriceData) : jsobj PriceData * list Query :=
  let '(priceData, qs) := _fetchTokenPrices chainId oracle [identifier] in
  (match priceData with
   | Some pd =>
       match keys pd with
       | [] => set (fallbackKey identifier) zeroPrice allPrices
       | _ => assign allPrices pd
       end
   | None => set (fallbackKey identifier) zeroPrice allPrices
   end, qs).

Fixpoint chunkLoop (chainId : Z) (oracle : Oracle) (tokenIdentifiers : list string)
    (allPrices : jsobj PriceData) (issued : list Query)
  : jsobj PriceData * list Query :=
  match tokenIdentifiers with
  | [] => (allPrices, issued)
  | identifier :: rest =>
      let '(allPrices', qs) := chunkStep chainId oracle identifier allPrices in
      chunkLoop chainId oracle rest allPrices' (issued ++ qs)
  end.

Definition _fetchTokenPricesInChunks (chainId : Z) (oracle : Oracle)
    (tokenIdentifiers : list string) : jsobj PriceData * list Query :=
  chunkLoop chainId oracle tokenIdentifiers [] [].

Definition _findAllAssets (chainId : Z) (env : Env) : outcome (list Asset) :=
  match getTokenBalances env with
  | Rpc.NoResult => Returns []
  | Rpc.TokenBalances tokenBalances =>
      let tokensWithBalance := Scan.nonZeroBalances tokenBalances in
      let tokenAddresses := Rpc.contractAddress <$> tokensWithBalance in
      let '(prices, _) :=
        _fetchTokenPricesInChunks chainId (oracle env) (tokenAddresses ++ ["ethereum"]) in
      bind (processEth 300000 (Some 18) env prices) (fun assets =>
        processTokens true env prices tokensWithBalance assets)
  end.

End Split31.

(** * Specification vocabulary

    The predicates in which the properties below are stated.  They follow
    the wording of the specification, not the code. *)

Module CacheSpec.
Import Multichain.

(** A cache entry for the lowercase id exists and is younger than the TTL. *)
Definition isFresh (cache : gmap string CacheEntry) (now : Z) (address : string) : bool :=
  match cache !! toLowerCase address with
  | Some cached => bool_decide (now - timestamp cached < _CACHE_DURATION_MS)
  | None => false
  end.

(** The oracle answers a single-address query with at most the entry of
    that address, keyed in lowercase (section 6 of the specification). *)
Definition singleEntryOracle (oracle : Oracle) (assetPlatform : string)
    (addresses : list string) : bool :=
  forallb (fun a =>
    match oracle (TokenPriceQuery assetPlatform a) with
    | Body data => forallb (fun k => bool_decide (k = toLowerCase a)) (keys data)
    | _ => true
    end) addresses.

(** The price-cache property for one requested id: a fresh entry is served
    and nothing is requested for the id; a stale or missing entry is
    requested and, when the fetch succeeds, the entry of the lowercase id is
    rewritten with the new price and the current time. *)
Definition price_cache_claim (chainId now : Z) (oracle : Oracle)
    (cache : gmap string CacheEntry) (tokenAddresses : list string) (id : string)
  : Prop :=
  let run := _fetchTokenPrices chainId now oracle cache tokenAddresses in
  let k := toLowerCase id in
  (∀ cached, cache !! k = Some cached →
     now - timestamp cached < _CACHE_DURATION_MS →
     get k (prices run) = Some (price cached)
     ∧ ∀ p a, toLowerCase a = k → TokenPriceQuery p a ∉ requests run)
  ∧ ((cache !! k = None
      ∨ ∃ cached, cache !! k = Some cached
          ∧ _CACHE_DURATION_MS ≤ now - timestamp cached) →
     ∃ p, TokenPriceQuery p id ∈ requests run
       ∧ ((∀ q, q ∈ requests run → oracle q ≠ NetworkError) →
          ∀ data, oracle (TokenPriceQuery p id) = Body data →
          ∃ newPrice,
            get k (prices run) = Some newPrice
            ∧ cacheAfter run !! k = Some (mkCacheEntry newPrice now)
            ∧ ∃ a d, a ∈ tokenAddresses ∧ toLowerCase a = k
                ∧ oracle (TokenPriceQuery p a) = Body d
                ∧ newPrice = default zeroPrice (get k d))).

(** The entry the reduction holds for key [k] after one more result. *)
Definition pick (k : string) (cur : option PriceData) (r : FetchResult)
  : option PriceData :=
  match r with
  | Prices o => match get k o with Some v => Some v | None => cur end
  | Rejected _ => cur
  end.

Definition wfResult (r : FetchResult) : Prop :=
  match r with Prices o => NoDup (keys o) | Rejected _ => True end.

End CacheSpec.

Module PermitSpec.

(** The messages handed to the wallet for signing, in order. *)
Definition signedMessages (trace : list Event) : list PermitMessage :=
  omap (fun e => match e with EvSign _ m => Some m | _ => None end) trace.

(** The [nonces(owner)] reads issued to [address], in order. *)
Definition nonceReads (address : string) (trace : list Event) : list Event :=
  filter (fun e => e = EvContractCall address "nonces") trace.

(** What one authorization build looks like from outside: the nonce is read
    from the contract first, then the clock, and only then the wallet is
    asked to sign a message carrying that nonce and a deadline 1800 s after
    the clock reading; a failed nonce read ends the build unsigned. *)
Definition freshBuild (sdk : Session) (env : Env) (tokenData : TokenData)
    (trace : list Event) : Prop :=
  let address := contractAddress tokenData in
  match call_nonces (contractAt env address) with
  | Some onChainNonce =>
      ∃ d rest,
        trace = EvContractCall address "nonces" :: EvClock
                  :: EvContractCall address "version"
                  :: EvSign d (mkPermitMessage (_currentUserAddress sdk)
                                 (relayerAddress sdk) (balance tokenData)
                                 onChainNonce (dateNow env `div` 1000 + 1800))
                  :: rest
        ∧ signedMessages rest = [] ∧ nonceReads address rest = []
  | None => trace = [EvContractCall address "nonces"]
  end.

End PermitSpec.

Module RankSpec.

(** The price known for a token, if any. *)
Definition knownPrice (prices : option (jsobj PriceData)) (t : TokenData) : option Qc :=
  match prices with
  | Some ps =>
      match get (toLowerCase (contractAddress t)) ps with
      | Some priceData => usd priceData
      | None => None
      end
  | None => None
  end.

(** Fiat value in the words of the specification:
    (raw balance / 10^decimals) x price, and 0 when the price is unknown. *)
Definition fiatValue (prices : option (jsobj PriceData)) (t : TokenData) : Qc :=
  match knownPrice prices t with
  | Some price => (Qc_of_Z (balance t) / Qc_of_Z (10 ^ decimals t) * price)%Qc
  | None => 0%Qc
  end.

Definition valued (prices : option (jsobj PriceData)) (t : TokenData) : Valued :=
  mkValued t (fiatValue prices t).

(** [b] may follow [a] in a descending ranking. *)
Definition descending (a b : Valued) : Prop := (usdValue b <= usdValue a)%Qc.

(** The tokens of value [v], in the order they occur in [l]. *)
Definition tied (v : Qc) (l : list Valued) : list Valued :=
  filter (fun x => usdValue x = v) l.

(** [out] is a stable descending ranking of [inp]: nothing is lost, values
    descend, and tokens of equal value keep their order of discovery. *)
Definition stableRanking (inp out : list Valued) : Prop :=
  out ≡ₚ inp ∧ StronglySorted descending out ∧ ∀ v, tied v out = tied v inp.

End RankSpec.

Module SelectionSpec.
Import Multichain CacheSpec.

(** Calls of the price fetcher and requests to the oracle recorded in a
    trace. *)
Definition priceFetcherCalls (trace : list Event) : nat :=
  length (List.filter
            (fun e => match e with EvPriceFetcher _ => true | _ => false end) trace).

Definition oracleRequests (trace : list Event) : nat :=
  length (List.filter
            (fun e => match e with EvOracle _ => true | _ => false end) trace).

Definition isContractCall (e : Event) : Prop :=
  match e with EvContractCall _ _ => True | _ => False end.

(** All four metadata calls of a contract answer. *)
Definition metadataComplete (c : Contract) : bool :=
  match call_name c, call_symbol c, call_balanceOf c, call_decimals c with
  | Some _, Some _, Some _, Some _ => true
  | _, _, _, _ => false
  end.

(** No compatible token has a positive price in [prices]. *)
Definition noPositivePrice (prices : jsobj PriceData) (tokens : list TokenData) : Prop :=
  ∀ t priceData q, t ∈ tokens →
    get (toLowerCase (contractAddress t)) prices = Some priceData →
    usd priceData = Some q → (q <= 0)%Qc.

(** Oracle prices are never negative. *)
Definition nonNegativePrices (prices : jsobj PriceData) : Prop :=
  ∀ k priceData q, get k prices = Some priceData → usd priceData = Some q → (0 <= q)%Qc.

(** The valuation loop skips the token. *)
Definition unpriced (prices : jsobj PriceData) (t : TokenData) : Prop :=
  match get (toLowerCase (contractAddress t)) prices with
  | Some priceData => truthyNumber (usd priceData) = false
  | None => True
  end.

(** The price fetch fails wholesale: nothing fresh in the cache and no
    request answered with a body. *)
Definition wholesaleFailure (env : Env) (cache : gmap string CacheEntry)
    (addresses : list string) : Prop :=
  (∀ a, a ∈ addresses → isFresh cache (dateNow env) a = false)
  ∧ (∀ p a data, a ∈ addresses → oracle env (TokenPriceQuery p a) ≠ Body data).

End SelectionSpec.

Module ProbeSpec.

(** The address is on the static allow-list of new.js. *)
Definition allowListed (env : Env) (tokenAddress : string) : bool :=
  match getAddress env tokenAddress with
  | Some checksumAddress => bool_decide (checksumAddress ∈ V11.KNOWN_PERMIT_TOKENS)
  | None => false
  end.

(** The [nonces(owner)] read of the probe succeeds. *)
Definition noncesReadable (env : Env) (tokenAddress : string) : Prop :=
  match getAddress env tokenAddress with
  | Some checksumAddress => is_Some (call_nonces (contractAt env checksumAddress))
  | None => False
  end.

(** The probe property for the probe of new.js: a boolean for every
    address, [true] without any contract interaction on the allow-list, and
    otherwise [true] exactly when [nonces] answers. *)
Definition probe_claim (env : Env) (tokenAddress : string) : Prop :=
  ∃ b : bool,
    (V11._checkPermitSupport env tokenAddress).1 = Returns b
    ∧ (allowListed env tokenAddress = true →
         b = true ∧ (V11._checkPermitSupport env tokenAddress).2 = [])
    ∧ (allowListed env tokenAddress = false →
         (b = true ↔ noncesReadable env tokenAddress)).

End ProbeSpec.

Module ChunkSpec.
Import Split.

(** The request the 7702 fetcher issues for a single identifier. *)
Definition queryFor (assetPlatform identifier : string) : Query :=
  if startsWith "0x" identifier
  then TokenPriceQuery assetPlatform identifier
  else SimplePriceQuery identifier.


(** The oracle answers a single-identifier query with at most the entry of
    that identifier, under its normalized key. *)
Definition singleEntryOracle (oracle : Oracle) (chainId : Z) (ids : list string) : bool :=
  match _CHAIN_ID_TO_COINGECKO_ASSET_PLATFORM chainId with
  | None => true
  | Some assetPlatform =>
      forallb (fun id =>
        match oracle (queryFor assetPlatform id) with
        | Body data =>
            forallb (fun k => bool_decide (k = Split31.fallbackKey id)) (keys data)
        | _ => true
        end) ids
  end.



End ChunkSpec.

Module NativeSpec.
Import Split.

(** The native-asset property of a scan result: an ETH entry only exists
    when the balance exceeds the reserve (fee per gas x [gas]), and then
    carries the balance reduced by it; there is no ETH entry when the
    reserve reaches the balance. *)
Definition native_reserve_claim (gas : Z) (env : Env) (assets : list Asset) : Prop :=
  (∀ a, a ∈ assets → type a = ETH →
     ∃ feePerGas,
       (maxFeePerGas (getFeeData env) = Some feePerGas
        ∨ gasPrice (getFeeData env) = Some feePerGas)
       ∧ feePerGas * gas < getBalance env
       ∧ balance a = getBalance env - feePerGas * gas)
  ∧ (∀ reserve, estimatedFee gas (getFeeData env) = Returns reserve →
       getBalance env ≤ reserve → ∀ a, a ∈ assets → type a ≠ ETH).

End NativeSpec.

(** * Concrete wallets, contracts and oracles used in the examples *)

Module Demo.

Definition usdPrice (n : Z) : PriceData := mkPriceData (Some (Qc_of_Z n)).

Definition gwei : Z := 1000000000.
Definition ether : Z := 1000000000000000000.

(** A token contract implementing EIP-2612. *)
Definition permitToken (name symbol : string) (balance decimals nonce : Z) : Contract :=
  mkContract (Some nonce) (Some name) (Some symbol) (Some balance) (Some decimals) (Some "2").

(** A token with [nonces] whose [name()] call fails. *)
Definition unnamedToken (symbol : string) (balance decimals nonce : Z) : Contract :=
  mkContract (Some nonce) None (Some symbol) (Some balance) (Some decimals) None.

(** A plain ERC-20 contract: [nonces] reverts. *)
Definition plainToken (name symbol : string) (balance decimals : Z) : Contract :=
  mkContract None (Some name) (Some symbol) (Some balance) (Some decimals) None.

Definition env (now : Z) (balances : list Rpc.TokenBalance)
    (contracts : string → Contract) (oracle : Oracle) : Env :=
  mkEnv now (Rpc.TokenBalances balances) (fun _ => None) contracts Some oracle
    0 (mkFeeData None None)
    (fun _ _ => Signed 27 "0xr" "0xs")
    (fun _ => mkRelayResponse true true None).

Definition session : Session := mkSession "0xowner" 1 "0xrelayer" "0xrecipient".

Definition zero64 : string :=
  "0x0000000000000000000000000000000000000000000000000000000000000000".

Definition WETH : string := "0xC02aaA39b223FE8D0A0e5C4F27eAD9083C756Cc2".

Definition twoTokens : list Rpc.TokenBalance :=
  [Rpc.mkTokenBalance "0xa1" "0x64"; Rpc.mkTokenBalance "0xb2" "0x0de0b6b3a7640000"].

Definition tokenA1 : TokenData := mkTokenData "0xa1" "Alpha" "ALP" 100 6.
Definition tokenB2 : TokenData := mkTokenData "0xb2" "Beta" "BET" 1000000000000000000 18.

(** Both tokens implement permit; the nonce of 0xa1 is [nonceA1]. *)
Definition healthyAt (nonceA1 : Z) (a : string) : Contract :=
  if decide (a = "0xa1") then permitToken "Alpha" "ALP" 100 6 nonceA1
  else permitToken "Beta" "BET" 1000000000000000000 18 5.

Definition healthy : string → Contract := healthyAt 3.

(** As [healthy], but [name()] of 0xa1 reverts. *)
Definition nameReverts (a : string) : Contract :=
  if decide (a = "0xa1") then unnamedToken "ALP" 100 6 3
  else permitToken "Beta" "BET" 1000000000000000000 18 5.

(** As [healthy], but 0xa1 has no [nonces]. *)
Definition probeFails (a : string) : Contract :=
  if decide (a = "0xa1") then plainToken "Alpha" "ALP" 100 6
  else permitToken "Beta" "BET" 1000000000000000000 18 5.

Definition noOracle : Oracle := fun _ => NetworkError.

(** Prices 0xdef at 3 USD, refuses 0xbad, knows nothing else. *)
Definition demoOracle : Oracle := fun q =>
  match q with
  | TokenPriceQuery _ a =>
      if decide (toLowerCase a = "0xdef") then Body [("0xdef", usdPrice 3)]
      else if decide (toLowerCase a = "0xbad") then HttpError 429
      else Body []
  | SimplePriceQuery i => Body [(i, usdPrice 3000)]
  end.

Definition demoCache : gmap string Multichain.CacheEntry :=
  {[ "0xabc" := Multichain.mkCacheEntry (usdPrice 2) 200000 ]}.

(** Prices ETH at 3000 USD and 0xb2 at 2 USD, answers 404 for other
    contracts. *)
Definition ethOracle : Oracle := fun q =>
  match q with
  | SimplePriceQuery "ethereum" => Body [("ethereum", usdPrice 3000)]
  | TokenPriceQuery _ a =>
      if decide (a = "0xb2") then Body [("0xb2", usdPrice 2)]
      else HttpError 404
  | _ => Body []
  end.

(** A wallet holding [wei] of native currency and no tokens. *)
Definition wallet (wei : Z) (feePerGas : Z) : Env :=
  mkEnv 1700000000123 (Rpc.TokenBalances []) (fun _ => None) healthy Some ethOracle
    wei (mkFeeData (Some feePerGas) (Some feePerGas))
    (fun _ _ => Signed 27 "0xr" "0xs")
    (fun _ => mkRelayResponse true true None).

(** The ranking scenario of the specification: 100 units of a 6-decimals
    token at 2 USD, 5 units of an 18-decimals token at 1000 USD. *)
Definition tokenA := mkTokenData "0xAAAA" "Token A" "TKA" 100000000 6.
Definition tokenB := mkTokenData "0xBBBB" "Token B" "TKB" 5000000000000000000 18.
Definition scenarioPrices : jsobj PriceData :=
  [("0xaaaa", usdPrice 2); ("0xbbbb", usdPrice 1000)].

End Demo.

(** * The remaining flows of the four scripts *)

(** ** Wallet discovery (EIP-6963)

    [_setupEip6963Listeners] is the same text in the four scripts. *)

Module Eip6963.

Record ProviderInfo := mkProviderInfo {
  rdns : string;
  info_name : string;
  icon : string
}.

(** [event.detail] of an [eip6963:announceProvider] event; [provider] names
    the EIP-1193 object. *)
Record ProviderDetail := mkProviderDetail {
  info : ProviderInfo;
  provider : string
}.

(** The listener installed by [_setupEip6963Listeners], on
    [_discoveredProviders] (a [Map], which iterates in insertion order).
    The flag tells whether [_renderWalletList] was called. *)
Definition announceProvider (_discoveredProviders : jsobj ProviderDetail)
    (providerDetail : ProviderDetail) : jsobj ProviderDetail * bool :=
  let key := rdns (info providerDetail) in
  match get key _discoveredProviders with
  | Some _ => (_discoveredProviders, false)
  | None => (set key providerDetail _discoveredProviders, true)
  end.

(** The registry after a sequence of announcements, with the number of
    times the wallet list was rendered. *)
Definition announceAll (start : jsobj ProviderDetail * nat)
    (announcements : list ProviderDetail) : jsobj ProviderDetail * nat :=
  foldl (fun st providerDetail =>
           let '(providers, rendered) := announceProvider st.1 providerDetail in
           (providers, if rendered then S st.2 else st.2))
    start announcements.

(** [this._discoveredProviders.get(rdns)] in [_handleProviderSelection]. *)
Definition providerFor (_discoveredProviders : jsobj ProviderDetail) (key : string)
  : option ProviderDetail :=
  get key _discoveredProviders.

(** The [forEach] of [_renderWalletList]: one button per provider, in the
    order of the [Map]; the button carries [data-rdns]. *)
Definition walletButtons (_discoveredProviders : jsobj ProviderDetail) : list string :=
  (rdns ∘ info) <$> _discoveredProviders.*2.

End Eip6963.

(** ** Configuration and [init] *)

Module Sdk.

(** The [config] object handed to [init]; a missing property is [None]. *)
Record Config := mkConfig {
  buttonId : option string;
  apiKey : option string;
  alchemyApiKey : option string;
  recipientAddress : option string;
  chainId : option Z;
  coingeckoApiKey : option string;
  relayerAddress : option string
}.

(** Truthiness of a string-valued and of a number-valued property. *)
Definition truthy (s : option string) : bool :=
  match s with
  | Some s => negb (bool_decide (s = ""))
  | None => false
  end.

Definition truthyId (n : option Z) : bool :=
  match n with
  | Some n => negb (bool_decide (n = 0))
  | None => false
  end.

(** Answer of the relayer to [POST /get-config]. *)
Inductive RemoteConfig :=
| ConfigRejects                       (* [fetch] or [response.json()] rejects *)
| ConfigStatus (status : Z)           (* [response.ok] is false *)
| ConfigJson (success : bool) (relayerAddress message : option string).

(** What [init] sees of the page. *)
Record Page := mkPage {
  ethersLoaded : bool;                       (* [typeof ethers !== 'undefined'] *)
  getElementById : string -> bool;           (* the element exists *)
  getConfig : option string -> RemoteConfig  (* by api key *)
}.

(** The fields of [this] that [init] writes, and what it does to the page. *)
Record State := mkState {
  _config : option Config;           (* [None] is the initial [{}] *)
  _isInitialized : bool;
  clickListeners : list string;      (* buttons given a click listener, by id *)
  disabled : list string;            (* buttons disabled and relabelled 'SDK Init Failed' *)
  modalInjected : nat;               (* calls of [_injectModalHtml] *)
  listening : nat                    (* calls of [_setupEip6963Listeners] *)
}.

Definition initial : State := mkState None false [] [] 0 0.

Definition withRelayer (config : Config) (relayer : option string) : Config :=
  mkConfig (buttonId config) (apiKey config) (alchemyApiKey config)
    (recipientAddress config) (chainId config) (coingeckoApiKey config) relayer.

(** The tail of every [init]: look the button up and wire the SDK. *)
Definition wire (page : Page) (st : State) (config : Config) : State :=
  let id := default "" (buttonId config) in
  if getElementById page id
  then mkState (_config st) true (clickListeners st ++ [id]) (disabled st)
         (S (modalInjected st)) (S (listening st))
  else st.

(** [this._config = config] *)
Definition assignConfig (st : State) (config : Config) : State :=
  mkState (Some config) (_isInitialized st) (clickListeners st) (disabled st)
    (modalInjected st) (listening st).

(** [this._config.relayerAddress = remoteConfig.relayerAddress]: the write
    goes to the object [this._config] refers to when it is executed. *)
Definition mergeRelayer (st : State) (relayerAddress : option string) : State :=
  mkState ((fun config => withRelayer config relayerAddress) <$> _config st)
    (_isInitialized st) (clickListeners st) (disabled st) (modalInjected st)
    (listening st).

(** The two SpiderWebSDK [init]s from the point where the awaited answer
    of the relayer arrives: the rest of the [try] block, its [catch], and
    the wiring.  [config] is the argument of the call that resumes; its
    request carried the api key of that argument.  (Nothing of [this] is
    read or written between [await fetch] and [await response.json()], so
    the two suspensions are one.) *)
Definition initResume (page : Page) (st : State) (config : Config) : State :=
  let failed :=
    let id := default "" (buttonId config) in
    if getElementById page id
    then mkState (_config st) (_isInitialized st) (clickListeners st)
           (disabled st ++ [id]) (modalInjected st) (listening st)
    else st in
  match getConfig page (apiKey config) with
  | ConfigJson true relayerAddress _ =>
      if truthy relayerAddress
      then wire page (mergeRelayer st relayerAddress) config
      else failed
  | _ => failed
  end.

End Sdk.

(** ** Connection logging of the two SpiderWebSDK scripts *)

Module ConnectionLog.

(** One element of [detailedTokens]. *)
Record Detailed := mkDetailed { detailed_symbol : string; detailed_balance : string }.

(** What [_logConnectionEvent] sends out. *)
Inductive LogEvent :=
| LogIndexer (method : string) (params : list string)
| LogPost (walletAddress : string) (tokens : list Detailed).

Section WithFormat.
(** [parseFloat(ethers.utils.formatUnits(tokenBalance, decimals)).toFixed(4)];
    it throws on a balance that is no number. *)
Variable formatBalance : string -> option Z -> outcome string.

(** The [for (const token of tokensWithBalance)] loop. *)
Fixpoint detailLoop (env : Env) (tokensWithBalance : list Rpc.TokenBalance)
    (detailedTokens : list Detailed) (sent : list LogEvent)
  : outcome (list Detailed) * list LogEvent :=
  match tokensWithBalance with
  | [] => (Returns detailedTokens, sent)
  | token :: rest =>
      let address := Rpc.contractAddress token in
      let sent' := sent ++ [LogIndexer "alchemy_getTokenMetadata" [address]] in
      match getTokenMetadata env address with
      | None => detailLoop env rest detailedTokens sent'
      | Some metadata =>
          match formatBalance (Rpc.tokenBalance token) (Rpc.decimals metadata) with
          | Throws m => (Throws m, sent')
          | Returns formattedBalance =>
              detailLoop env rest
                (detailedTokens ++ [mkDetailed (Rpc.symbol metadata) formattedBalance])
                sent'
          end
      end
  end.

(** The body of the [try] block, after [alchemyUrl] has been computed. *)
Definition logBody (_currentUserAddress : string) (env : Env)
  : outcome unit * list LogEvent :=
  let rpc := [LogIndexer "alchemy_getTokenBalances" [_currentUserAddress; "erc20"]] in
  match getTokenBalances env with
  | Rpc.NoResult => (Returns tt, rpc)
  | Rpc.TokenBalances tokenBalances =>
      match Scan.nonZeroBalances tokenBalances with
      | [] => (Returns tt, rpc)
      | tokensWithBalance =>
          match detailLoop env tokensWithBalance [] rpc with
          | (Throws m, sent) => (Throws m, sent)
          | (Returns [], sent) => (Returns tt, sent)
          | (Returns detailedTokens, sent) =>
              (Returns tt, sent ++ [LogPost _currentUserAddress detailedTokens])
          end
      end
  end.

(** The [catch] block only warns. *)
Definition caught (run : outcome unit * list LogEvent) : outcome unit * list LogEvent :=
  match run with
  | (Throws _, sent) => (Returns tt, sent)
  | (Returns _, sent) => (Returns tt, sent)
  end.
End WithFormat.

End ConnectionLog.

(** ** The rest of SpiderWebSDK v1.1 (new.js) *)

Module V11Flow.

(** [init] up to its first [await]: the guard, the two checks,
    [this._config = config] and the request for the remote configuration.
    [true]: the call is suspended on that request. *)
Definition initBegin (page : Sdk.Page) (st : Sdk.State) (config : Sdk.Config)
  : Sdk.State * bool :=
  if Sdk._isInitialized st then (st, false)
  else if negb (Sdk.truthy (Sdk.buttonId config) && Sdk.truthy (Sdk.apiKey config)
                && Sdk.truthy (Sdk.alchemyApiKey config)
                && Sdk.truthy (Sdk.recipientAddress config)
                && Sdk.truthyId (Sdk.chainId config)) then (st, false)
  else if negb (Sdk.ethersLoaded page) then (st, false)
  else (Sdk.assignConfig st config, true).

(** [await init(config)]: a call during whose suspension nothing else
    touches the SDK. *)
Definition init (page : Sdk.Page) (st : Sdk.State) (config : Sdk.Config) : Sdk.State :=
  let '(st', suspended) := initBegin page st config in
  if suspended then Sdk.initResume page st' config else st'.

(** [_executeSend] *)
Definition _executeSend (sdk : Session) (env : Env) : outcome unit * list Event :=
  let '(found, scan) := V11._findHighestValueToken env (chainId sdk) in
  match found with
  | Throws m => (Throws m, scan)
  | Returns None =>
      (Throws "No permit-compatible tokens with a balance were found.", scan)
  | Returns (Some tokenData) =>
      let '(sent, trace) := V11._signAndSendWithStandardPermit sdk env tokenData in
      (sent, scan ++ trace)
  end.

(** [_logConnectionEvent]: the whole body is one [try]/[catch]. *)
Definition _logConnectionEvent (formatBalance : string -> option Z -> outcome string)
    (sdk : Session) (env : Env) : outcome unit * list ConnectionLog.LogEvent :=
  ConnectionLog.caught (ConnectionLog.logBody formatBalance (_currentUserAddress sdk) env).

End V11Flow.

(** ** The rest of SpiderWebSDK of payment-sdk-multichain.js *)

Module MultichainFlow.

Record NativeCurrency := mkNativeCurrency {
  currency_name : string;
  currency_symbol : string;
  currency_decimals : Z
}.

Record ChainData := mkChainData {
  chainName : string;
  rpcUrls : list string;
  nativeCurrency : NativeCurrency;
  blockExplorerUrls : list string
}.

Definition _CHAIN_DETAILS (chainId : Z) : option ChainData :=
  if decide (chainId = 1) then
    Some (mkChainData "Ethereum Mainnet"
            ["https://mainnet.infura.io/v3/83b66a4e0b62442b943684de55ec76f8"]
            (mkNativeCurrency "Ether" "ETH" 18) ["https://etherscan.io"])
  else if decide (chainId = 137) then
    Some (mkChainData "Polygon Mainnet" ["https://polygon-rpc.com"]
            (mkNativeCurrency "Matic" "MATIC" 18) ["https://polygonscan.com"])
  else if decide (chainId = 56) then
    Some (mkChainData "BNB Smart Chain" ["https://bsc-dataseed.bnbchain.org"]
            (mkNativeCurrency "BNB" "BNB" 18) ["https://bscscan.com"])
  else if decide (chainId = 42161) then
    Some (mkChainData "Arbitrum One" ["https://arb1.arbitrum.io/rpc"]
            (mkNativeCurrency "Ether" "ETH" 18) ["https://arbiscan.io"])
  else if decide (chainId = 8453) then
    Some (mkChainData "Base Mainnet" ["https://mainnet.base.org"]
            (mkNativeCurrency "Ether" "ETH" 18) ["https://basescan.org"])
  else if decide (chainId = 14) then
    Some (mkChainData "Flare Network" ["https://flare-api.flare.network/ext/C/rpc"]
            (mkNativeCurrency "Flare" "FLR" 18) ["https://flare-explorer.flare.network"])
  else if decide (chainId = 10) then
    Some (mkChainData "Optimism" ["https://mainnet.optimism.io"]
            (mkNativeCurrency "Ether" "ETH" 18) ["https://optimistic.etherscan.io"])
  else None.

(** The two requests [_switchChain] sends through [this._provider.send]. *)
Inductive WalletRequest :=
| wallet_switchEthereumChain (chainId : string)
| wallet_addEthereumChain (chainId : string) (chainData : ChainData).

(** A request resolves, or rejects with an error that may carry a [code]. *)
Inductive SendResult :=
| Resolved
| Rejected (code : option Z) (message : string).

(** The wallet: its answer to a request, given the requests it was sent
    before during the same call. *)
Definition Provider : Type := list WalletRequest -> WalletRequest -> SendResult.

(** What [_switchChain] does, in order. *)
Inductive Step :=
| Sent (request : WalletRequest)
| Status (message type : string).       (* [_updateStatus(message, type)] *)

(** [_switchChain]; [hexValue] is [ethers.utils.hexValue], which throws on
    a value it cannot convert. *)
Definition _switchChain (hexValue : Z -> option string) (send : Provider)
    (targetChainId : Z) : outcome unit * list Step :=
  match hexValue targetChainId with
  | None => (Throws "invalid hexlify value", [])
  | Some hexChainId =>
      match _CHAIN_DETAILS targetChainId with
      | None =>
          (Throws ("Chain ID " +:+ pretty targetChainId
                   +:+ " is not configured in the SDK."), [])
      | Some chainData =>
          let switch := wallet_switchEthereumChain hexChainId in
          let add := wallet_addEthereumChain hexChainId chainData in
          let switched :=
            Status ("Switched to " +:+ chainName chainData +:+ " successfully.")
              "success" in
          let notFound :=
            Status ("Network " +:+ chainName chainData
                    +:+ " not found. Attempting to add it to your wallet...")
              "pending" in
          let addFailed (code : option Z) (done : list Step) :=
            let message :=
              if decide (code = Some 4001)
              then "Wallet switch/add was rejected by the user."
              else "Could not add or switch to " +:+ chainName chainData
                   +:+ ". Please do so manually." in
            (Throws message, done ++ [Status message "error"]) in
          match send [] switch with
          | Resolved => (Returns tt, [Sent switch; switched])
          | Rejected code switchMessage =>
              if decide (code = Some 4902) then
                match send [switch] add with
                | Rejected addCode _ => addFailed addCode [Sent switch; notFound; Sent add]
                | Resolved =>
                    match send [switch; add] switch with
                    | Rejected addCode _ =>
                        addFailed addCode [Sent switch; notFound; Sent add; Sent switch]
                    | Resolved =>
                        (Returns tt,
                         [Sent switch; notFound; Sent add; Sent switch; switched])
                    end
                end
              else if decide (code = Some 4001) then
                let message := "Wallet network switch was rejected by the user." in
                (Throws message, [Sent switch; Status message "error"])
              else
                let message := "Failed to switch network: " +:+ switchMessage in
                (Throws message, [Sent switch; Status message "error"])
          end
      end
  end.

(** [init] up to its first [await]; [true]: the call is suspended on the
    request for the remote configuration. *)
Definition initBegin (page : Sdk.Page) (st : Sdk.State) (config : Sdk.Config)
  : Sdk.State * bool :=
  if Sdk._isInitialized st then (st, false)
  else if negb (Sdk.truthy (Sdk.buttonId config) && Sdk.truthy (Sdk.apiKey config)
                && Sdk.truthy (Sdk.alchemyApiKey config)) then (st, false)
  else if negb (Sdk.ethersLoaded page) then (st, false)
  else (Sdk.assignConfig st config, true).

(** [await init(config)]: a call during whose suspension nothing else
    touches the SDK. *)
Definition init (page : Sdk.Page) (st : Sdk.State) (config : Sdk.Config) : Sdk.State :=
  let '(st', suspended) := initBegin page st config in
  if suspended then Sdk.initResume page st' config else st'.

(** [_executeSend] *)
Definition _executeSend (alchemyApiKey : string) (sdk : Session) (env : Env)
    (cache : gmap string Multichain.CacheEntry) : Multichain.Run unit :=
  let found := Multichain._findHighestValueToken alchemyApiKey env (chainId sdk) cache in
  match Multichain.result found with
  | Throws m =>
      Multichain.mkRun (Throws m) (Multichain.cacheOut found) (Multichain.events found)
  | Returns None =>
      Multichain.mkRun
        (Throws "No permit-compatible tokens with a balance were found.")
        (Multichain.cacheOut found) (Multichain.events found)
  | Returns (Some selected) =>
      let '(sent, trace) :=
        Multichain._signAndSendWithStandardPermit sdk env (tokenData selected)
          (usdValue selected) in
      Multichain.mkRun sent (Multichain.cacheOut found) (Multichain.events found ++ trace)
  end.

(** [_logConnectionEvent]: [_getAlchemyUrl] is called inside the [try]. *)
Definition _logConnectionEvent (formatBalance : string -> option Z -> outcome string)
    (alchemyApiKey : string) (sdk : Session) (env : Env)
  : outcome unit * list ConnectionLog.LogEvent :=
  ConnectionLog.caught
    match Multichain._getAlchemyUrl alchemyApiKey (chainId sdk) with
    | Throws m => (Throws m, [])
    | Returns _ => ConnectionLog.logBody formatBalance (_currentUserAddress sdk) env
    end.

End MultichainFlow.

(** ** The rest of the two SpiderWeb7702SDK scripts *)

Module SplitFlow.

(** One element of [assets] in the body of [POST /initiate-eip7702-split];
    [amount] and [decimals] are only sent by v3.1. *)
Record AssetSummary := mkAssetSummary {
  summary_token : option string;
  summary_type : Split.AssetType;
  summary_symbol : string;
  summary_usdValue : Qc;
  summary_amount : option Z;
  summary_decimals : option Z
}.

Record InitiateRequest := mkInitiateRequest {
  body_owner : string;
  body_chainId : Z;
  body_assets : list AssetSummary
}.

(** The relayer's answer: the request rejects, or a JSON body
    [{ success, message, contractAddress }]. *)
Inductive InitiateResponse :=
| InitiateRejects (message : string)
| InitiateJson (success : bool) (message : option string) (contractAddress : string).

(** [tokenInterface.encodeFunctionData(name, args)] *)
Inductive Calldata :=
| transfer (to : string) (amount : Z)
| approve (spender : string) (amount : Z).

(** One element of [calls]; [value] is the quantity behind the hex string. *)
Record Call := mkCall {
  call_to : option string;
  call_value : Z;
  call_data : option Calldata
}.

Record TxPayload := mkTxPayload {
  tx_version : string;
  tx_chainId : string;
  tx_from : string;
  tx_atomicRequired : bool;
  tx_calls : list Call
}.

(** [wallet_sendCalls] resolves with a hash or rejects with an error;
    [text] is the error converted to a string. *)
Inductive SendCallsResult :=
| CallsSent (txHash : string)
| CallsRejected (code : option Z) (message text : string).

Inductive SplitEvent :=
| EvInitiate (body : InitiateRequest)
| EvSendCalls (txPayload : TxPayload).

(** [BigInt(n).toString(16)] *)
Definition toString16 (n : Z) : string :=
  match n with
  | 0 => "0"
  | Z.pos p => HexString.Raw.of_pos p ""
  | Z.neg p => "-" +:+ HexString.Raw.of_pos p ""
  end.

(** [`0x${BigInt(this._config.chainId).toString(16)}`] *)
Definition hexChainId (chainId : Z) : string := "0x" +:+ toString16 chainId.

(** The [try]/[catch] around the call of the relayer: the depository
    address, or the error that is thrown on. *)
Definition initiate (relayer : InitiateRequest -> InitiateResponse)
    (body : InitiateRequest) : outcome string :=
  match relayer body with
  | InitiateRejects message =>
      Throws ("Failed to initialize transaction: " +:+ message)
  | InitiateJson success message contractAddress =>
      if success then Returns contractAddress
      else Throws ("Failed to initialize transaction: " +:+ default "" message)
  end.

End SplitFlow.

Module Split30Flow.
Import SplitFlow.

(** [init]; it awaits nothing, so a call runs to its end in one piece. *)
Definition init (page : Sdk.Page) (st : Sdk.State) (config : Sdk.Config) : Sdk.State :=
  if Sdk._isInitialized st then st
  else if negb (Sdk.truthy (Sdk.buttonId config) && Sdk.truthy (Sdk.apiKey config)
                && Sdk.truthy (Sdk.alchemyApiKey config)
                && Sdk.truthyId (Sdk.chainId config)
                && Sdk.truthy (Sdk.coingeckoApiKey config)) then st
  else Sdk.wire page (Sdk.assignConfig st config) config.

(** The [for (const asset of assets)] loop that fills [calls]. *)
Fixpoint buildCalls (depositoryContractAddress : string) (assets : list Split.Asset)
    (calls : list Call) : list Call :=
  match assets with
  | [] => calls
  | asset :: rest =>
      if decide (0 < Split.balance asset) then
        match Split.type asset with
        | Split.ETH =>
            buildCalls depositoryContractAddress rest
              (calls ++ [mkCall (Some depositoryContractAddress) (Split.balance asset) None])
        | Split.ERC20 =>
            buildCalls depositoryContractAddress rest
              (calls ++ [mkCall (Split.address asset) 0
                           (Some (transfer depositoryContractAddress (Split.balance asset)))])
        end
      else buildCalls depositoryContractAddress rest calls
  end.

(** [_executeSplit]; [None]: the price loop of [_findAllAssets] does not
    terminate. *)
Definition _executeSplit (sdk : Session) (env : Env)
    (relayer : InitiateRequest -> InitiateResponse)
    (request : TxPayload -> SendCallsResult)
  : option (outcome unit * list SplitEvent) :=
  match Split30._findAllAssets (chainId sdk) env with
  | None => None
  | Some (Throws m) => Some (Throws m, [])
  | Some (Returns []) => Some (Returns tt, [])
  | Some (Returns found) =>
      let body :=
        mkInitiateRequest (_currentUserAddress sdk) (chainId sdk)
          ((fun a => mkAssetSummary (Split.address a) (Split.type a) (Split.symbol a)
                       (Split.usdValue a) None None) <$> found) in
      match initiate relayer body with
      | Throws m => Some (Throws m, [EvInitiate body])
      | Returns depositoryContractAddress =>
          let txPayload :=
            mkTxPayload "2.0.0" (hexChainId (chainId sdk))
              (_currentUserAddress sdk) true
              (buildCalls depositoryContractAddress found []) in
          match request txPayload with
          | CallsSent _ => Some (Returns tt, [EvInitiate body; EvSendCalls txPayload])
          | CallsRejected code message _ =>
              Some (Throws (if decide (code = Some 4001)
                            then "Transaction rejected by user." else message),
                    [EvInitiate body; EvSendCalls txPayload])
          end
      end
  end.

End Split30Flow.

Module Split31Flow.
Import SplitFlow.

(** [init]; it awaits nothing, so a call runs to its end in one piece. *)
Definition init (page : Sdk.Page) (st : Sdk.State) (config : Sdk.Config) : Sdk.State :=
  if Sdk._isInitialized st then st
  else if negb (Sdk.truthy (Sdk.buttonId config) && Sdk.truthy (Sdk.apiKey config)
                && Sdk.truthy (Sdk.alchemyApiKey config)
                && Sdk.truthyId (Sdk.chainId config)) then st
  else Sdk.wire page (Sdk.assignConfig st config) config.

Definition TOKEN_TO_APPROVE_ADDRESS : string :=
  "0xC02aaA39b223FE8D0A0e5C4F27eAD9083C756Cc2".
Definition TOKEN_TO_APPROVE_SYMBOL : string := "WETH".
(** [ethers.parseEther('1')] *)
Definition TOKEN_TO_APPROVE_AMOUNT : Z := 10 ^ 18.

(** [_executeSplit] *)
Definition _executeSplit (sdk : Session)
    (relayer : InitiateRequest -> InitiateResponse)
    (send : TxPayload -> SendCallsResult)
  : outcome unit * list SplitEvent :=
  let body :=
    mkInitiateRequest (_currentUserAddress sdk) (chainId sdk)
      [mkAssetSummary (Some TOKEN_TO_APPROVE_ADDRESS) Split.ERC20 TOKEN_TO_APPROVE_SYMBOL
         0%Qc (Some TOKEN_TO_APPROVE_AMOUNT) (Some 18)] in
  match initiate relayer body with
  | Throws m => (Throws m, [EvInitiate body])
  | Returns depositoryContractAddress =>
      let approveData := approve depositoryContractAddress TOKEN_TO_APPROVE_AMOUNT in
      let finalCalls := [mkCall (Some TOKEN_TO_APPROVE_ADDRESS) 0 (Some approveData)] in
      let transactionPayload :=
        mkTxPayload "2.0.0" (hexChainId (chainId sdk))
          (_currentUserAddress sdk) true finalCalls in
      match send transactionPayload with
      | CallsSent _ => (Returns tt, [EvInitiate body; EvSendCalls transactionPayload])
      | CallsRejected code message text =>
          (Throws (if decide (code = Some 4001)
                   then "Transaction rejected by user."
                   else "Error sending transaction: "
                        +:+ (if decide (message = "") then text else message)),
           [EvInitiate body; EvSendCalls transactionPayload])
      end
  end.

(** One element of [balances] in the body of [POST /log-connection]. *)
Record BalanceRow := mkBalanceRow {
  row_symbol : string;
  row_amount : string;
  row_usdValue : string
}.

(** [_logConnectionToServer]; [toFixed digits x] is [x.toFixed(digits)].
    The result is the list of bodies posted to the relayer. *)
Definition _logConnectionToServer (toFixed : nat -> Qc -> string) (sdk : Session)
    (env : Env) : outcome unit * list (string * list BalanceRow) :=
  if decide (_currentUserAddress sdk = "") then (Returns tt, [])
  else
    match Split31._findAllAssets (chainId sdk) env with
    | Throws _ => (Returns tt, [])
    | Returns found =>
        let balances :=
          (fun asset =>
             let decimalsOr18 :=
               match Split.decimals asset with
               | Some d => if decide (d = 0) then 18 else d
               | None => 18
               end in
             mkBalanceRow (Split.symbol asset)
               (toFixed 4%nat (formatUnits (Split.balance asset) decimalsOr18))
               (toFixed 2%nat (Split.usdValue asset))) <$> found in
        (Returns tt, [(_currentUserAddress sdk, balances)])
    end.

End Split31Flow.

Module ValueSpec.
Import RankSpec.

(** The valuation loop values the token: its price is known and not zero. *)
Definition priced (prices : jsobj PriceData) (t : TokenData) : bool :=
  match get (toLowerCase (contractAddress t)) prices with
  | Some priceData => truthyNumber (usd priceData)
  | None => false
  end.

(** No token has a negative fiat value (prices and balances are not
    negative). *)
Definition nonNegativeValues (prices : option (jsobj PriceData))
    (tokens : list TokenData) : Prop :=
  ∀ t, t ∈ tokens → (0 <= fiatValue prices t)%Qc.

(** [selected] is a token of the highest fiat value among [tokens]; when
    that value is positive it is the first such token in discovery order. *)
Definition highestOf (prices : option (jsobj PriceData)) (tokens : list TokenData)
    (selected : TokenData) : Prop :=
  (∀ t, t ∈ tokens → (fiatValue prices t <= fiatValue prices selected)%Qc)
  ∧ ∃ earlier later,
      tokens = earlier ++ selected :: later
      ∧ ((0 < fiatValue prices selected)%Qc →
         ∀ t, t ∈ earlier → (fiatValue prices t < fiatValue prices selected)%Qc).

End ValueSpec.

Module Scenario.
Import Demo.

(** Answers the batched request for 0xa1 and 0xb2 with 3 USD and 2 USD. *)
Definition batchOracle : Oracle := fun q =>
  match q with
  | TokenPriceQuery _ "0xa1,0xb2" => Body [("0xa1", usdPrice 3); ("0xb2", usdPrice 2)]
  | _ => HttpError 404
  end.

End Scenario.

Module SendSpec.

(** The permit with domain [d] and message [m] is for a token of the wallet
    that passed the scan: an entry of the balance enumeration whose balance
    text is not ['0x0'] and whose probe succeeded.  It names the contract's
    [name()], authorises the relayer for the [balanceOf(owner)] the contract
    reported, and carries the nonce the contract reports. *)
Definition scannedPermit (probe : Env → string → outcome bool * list Event)
    (sdk : Session) (env : Env) (d : Domain) (m : PermitMessage) : Prop :=
  ∃ tokenBalances token,
    getTokenBalances env = Rpc.TokenBalances tokenBalances
    ∧ token ∈ tokenBalances
    ∧ Rpc.tokenBalance token ≠ "0x0"
    ∧ (probe env (Rpc.contractAddress token)).1 = Returns true
    ∧ verifyingContract d = Rpc.contractAddress token
    ∧ domain_chainId d = chainId sdk
    ∧ call_name (contractAt env (Rpc.contractAddress token)) = Some (domain_name d)
    ∧ call_balanceOf (contractAt env (Rpc.contractAddress token)) = Some (value m)
    ∧ call_nonces (contractAt env (Rpc.contractAddress token)) = Some (nonce m)
    ∧ owner m = _currentUserAddress sdk
    ∧ spender m = relayerAddress sdk.

(** The payload [p] relays the signature the wallet gave for [d] and [m],
    with the parameters that were signed. *)
Definition relaysSigned (sdk : Session) (env : Env) (d : Domain) (m : PermitMessage)
    (p : Payload) : Prop :=
  signTypedData env d m = Signed (payload_v p) (payload_r p) (payload_s p)
  ∧ payload_owner p = owner m
  ∧ payload_contractAddress p = verifyingContract d
  ∧ payload_value p = value m
  ∧ payload_deadline p = deadline m
  ∧ payload_chainId p = domain_chainId d
  ∧ payload_recipient p = recipientAddress sdk.

(** Events of the scan and of the valuation: no signature, no relay. *)
Definition readOnly (e : Event) : Prop :=
  match e with
  | EvSign _ _ | EvRelay _ => False
  | _ => True
  end.

(** What a run of [_executeSend] with trace [trace] and outcome [sent]
    guarantees. *)
Definition guardedSend (probe : Env → string → outcome bool * list Event)
    (sdk : Session) (env : Env) (sent : outcome unit) (trace : list Event) : Prop :=
  (∀ d m, EvSign d m ∈ trace → scannedPermit probe sdk env d m)
  ∧ (∀ p, EvRelay p ∈ trace →
       ∃ d m, EvSign d m ∈ trace ∧ relaysSigned sdk env d m p)
  ∧ (length (PermitSpec.signedMessages trace) ≤ 1)%nat
  ∧ (sent = Returns tt →
       ∃ p, EvRelay p ∈ trace
         ∧ relay_ok (relay env p) = true ∧ relay_success (relay env p) = true).

End SendSpec.

Module CacheInvariant.
Import Multichain.

(** Every key of the cache is lowercase-normalized and no entry is stamped
    later than [now]. *)
Definition wellStamped (cache : gmap string CacheEntry) (now : Z) : Prop :=
  ∀ k cached, cache !! k = Some cached → toLowerCase k = k ∧ timestamp cached ≤ now.

(** The price [v] is served from [cache] at time [now] for one of the
    requested [addresses] whose lowercase form is [k]. *)
Definition servedFromCache (cache : gmap string CacheEntry) (now : Z)
    (addresses : list string) (k : string) (v : PriceData) : Prop :=
  ∃ a cached, a ∈ addresses ∧ toLowerCase a = k ∧ cache !! k = Some cached
    ∧ now - timestamp cached < _CACHE_DURATION_MS ∧ v = price cached.

End CacheInvariant.

Module InitSpec.
Import Sdk.
















End InitSpec.

Module SwitchSpec.
Import MultichainFlow.

(** The requests sent to the wallet, in order. *)
Definition requestsOf (steps : list Step) : list WalletRequest :=
  omap (fun s => match s with Sent r => Some r | Status _ _ => None end) steps.

(** The wallet lets [_switchChain] through: the switch resolves at once,
    or it is refused with code 4902 and both the request to add the chain
    and the second switch resolve. *)
Definition accepts (send : Provider) (switch add : WalletRequest) : Prop :=
  send [] switch = Resolved
  ∨ ((∃ m, send [] switch = Rejected (Some 4902) m)
     ∧ send [switch] add = Resolved
     ∧ send [switch; add] switch = Resolved).

(** The protocol [_switchChain] follows with the wallet for a configured
    chain. *)
Definition switchProtocol (send : Provider) (switch add : WalletRequest)
    (run : outcome unit * list Step) : Prop :=
  let requests := requestsOf run.2 in
  (requests = [switch] ∨ requests = [switch; add] ∨ requests = [switch; add; switch])
  ∧ (add ∈ requests → ∃ m, send [] switch = Rejected (Some 4902) m)
  ∧ (run.1 = Returns tt ↔ accepts send switch add)
  ∧ (run.1 = Returns tt → ∃ m, last run.2 = Some (Status m "success"))
  ∧ (∀ m, run.1 = Throws m → last run.2 = Some (Status m "error")).

End SwitchSpec.

Module AssetSpec.
Import Split.

(** An asset worth putting into the transaction: valued above one fiat
    unit, with a positive amount. *)
Definition worthSending (a : Asset) : Prop := (1 < usdValue a)%Qc ∧ 0 < balance a.

(** [a] is the entry the scan makes for the balance entry [token]: it
    carries the token's address and the whole raw balance the indexer
    reported, valued at the price recorded for the lowercase address. *)
Definition tokenAsset (env : Env) (token : Rpc.TokenBalance) (a : Asset) : Prop :=
  type a = ERC20
  ∧ address a = Some (Rpc.contractAddress token)
  ∧ hexValue (Rpc.tokenBalance token) = Some (balance a)
  ∧ ∃ metadata d,
      getTokenMetadata env (Rpc.contractAddress token) = Some metadata
      ∧ Rpc.decimals metadata = Some d
      ∧ symbol a = Rpc.symbol metadata.

(** The shape of a scan result: at most one native entry, first, then
    entries of tokens in the order of the balance enumeration. *)
Definition scanResult (env : Env) (tokensWithBalance : list Rpc.TokenBalance)
    (assets : list Asset) : Prop :=
  Forall worthSending assets
  ∧ ∃ native tokens scanned,
      assets = native ++ tokens
      ∧ (length native ≤ 1)%nat
      ∧ Forall (fun a => type a = ETH ∧ address a = None) native
      ∧ scanned `sublist_of` tokensWithBalance
      ∧ Forall2 (tokenAsset env) scanned tokens.


End AssetSpec.

Module DepositSpec.
Import Split SplitFlow AssetSpec.



End DepositSpec.

Module LogSpec.
Import ConnectionLog.





End LogSpec.

Module OracleSpec.

(** The price [p] recorded under [k] was sent by the oracle, in the body
    that answered one of the requests [issued]. *)
Definition sentByOracle (oracle : Oracle) (issued : list Query) (k : string)
    (p : PriceData) : Prop :=
  ∃ q data, q ∈ issued ∧ oracle q = Body data ∧ (k, p) ∈ data.

End OracleSpec.

Module RowSpec.
Import Split Split31Flow.

(** [row] is the line of the connection log for [asset]: its symbol, its
    amount to four digits and its value to two.  The amount is scaled by
    the asset's decimals, or by 18 when they are zero. *)
Definition rowOf (toFixed : nat → Qc → string) (asset : Asset) (row : BalanceRow) : Prop :=
  row_symbol row = symbol asset
  ∧ row_usdValue row = toFixed 2%nat (usdValue asset)
  ∧ ∃ d, (decimals asset = Some d ∨ (decimals asset = None ∧ d = 18))
         ∧ row_amount row
           = toFixed 4%nat (formatUnits (balance asset) (if decide (d = 0) then 18 else d)).

End RowSpec.

Module Holdings.
Import Demo.

(** The indexer knows the metadata of 0xb2 only. *)
Definition metadataB2 (a : string) : option Rpc.Metadata :=
  if decide (a = "0xb2") then Some (Rpc.mkMetadata (Some 18) "BET") else None.

(** A wallet with one ether, 100 units of 0xa1 and 10^18 units of 0xb2. *)
Definition holder : Env :=
  mkEnv 1700000000123 (Rpc.TokenBalances twoTokens) metadataB2 healthy Some ethOracle
    ether (mkFeeData (Some (50 * gwei)) (Some (50 * gwei)))
    (fun _ _ => Signed 27 "0xr" "0xs")
    (fun _ => mkRelayResponse true true None).



End Holdings.

Module FetchSpec.
Import Multichain CacheSpec.

(** The refresh rule of the price cache in the words of the specification,
    for one requested id: when its entry is missing or at least TTL old, the
    id is requested and, when that request succeeds, the price it returned
    is served and the entry of the lowercase id is rewritten with the
    current time. *)
Definition refreshedOnSuccess (chainId now : Z) (oracle : Oracle)
    (cache : gmap string CacheEntry) (tokenAddresses : list string) (id : string)
  : Prop :=
  let run := _fetchTokenPrices chainId now oracle cache tokenAddresses in
  let k := toLowerCase id in
  isFresh cache now id = false →
  ∃ p, TokenPriceQuery p id ∈ requests run
    ∧ ∀ data, oracle (TokenPriceQuery p id) = Body data →
        ∃ newPrice,
          get k (prices run) = Some newPrice
          ∧ cacheAfter run !! k = Some (mkCacheEntry newPrice now).

(** Prices 0xdef at 3 USD; the request for 0xeee is rejected. *)
Definition flakyOracle : Oracle := fun q =>
  match q with
  | TokenPriceQuery _ a =>
      if decide (toLowerCase a = "0xdef") then Body [("0xdef", Demo.usdPrice 3)]
      else if decide (toLowerCase a = "0xeee") then NetworkError
      else Body []
  | SimplePriceQuery _ => Body []
  end.

End FetchSpec.

Module RegistrySpec.
Import Eip6963.

(** The details announced under an [rdns] that no earlier announcement
    (nor [seen]) used, in the order of announcement. *)
Fixpoint firstAnnounced (seen : list string) (announcements : list ProviderDetail)
  : list ProviderDetail :=
  match announcements with
  | [] => []
  | d :: rest =>
      if decide (rdns (info d) ∈ seen) then firstAnnounced seen rest
      else d :: firstAnnounced (seen ++ [rdns (info d)]) rest
  end.

(** The registry that holds [details], each under its [rdns]. *)
Definition registryOf (details : list ProviderDetail) : jsobj ProviderDetail :=
  (fun d => (rdns (info d), d)) <$> details.

End RegistrySpec.

(** ** Binary64 arithmetic of the fiat values *)

Module Float64.

(** An IEEE 754 binary64 value, a JavaScript Number. *)
Definition double : Type := spec_float.

Definition prec : Z := 53.
Definition emax : Z := 1024.

Definition ofZ (z : Z) : double :=
  match z with
  | Z0 => S754_zero false
  | Zpos p => S754_finite false p 0
  | Zneg p => S754_finite true p 0
  end.

(** The double nearest to [n / d], ties to even: what reading the decimal
    expansion of [n / d] as a Number gives. *)
Definition ofRatio (n d : Z) : double := SFdiv prec emax (ofZ n) (ofZ d).

(** The Number a JSON numeric literal of value [q] is parsed to. *)
Definition ofQc (q : Qc) : double := ofRatio (Qnum q) (Zpos (Qden q)).

(** [x * y] and [x - y] *)
Definition mul (x y : double) : double := SFmul prec emax x y.
Definition sub (x y : double) : double := SFsub prec emax x y.

(** The literal [0]. *)
Definition zero : double := S754_zero false.

(** Truthiness of a Number: [0], [-0] and [NaN] are falsy. *)
Definition truthy (x : double) : bool :=
  match x with
  | S754_zero _ | S754_nan => false
  | _ => true
  end.

(** [x > 0] *)
Definition positive (x : double) : bool :=
  match SFcompare x zero with
  | Some Gt => true
  | _ => false
  end.

(** [x > y] *)
Definition gt (x y : double) : bool := SFltb y x.

(** [parseFloat(ethers.utils.formatUnits(balance, decimals))]: the decimal
    string of [balance / 10^decimals] is exact, [parseFloat] rounds it to
    the nearest double. *)
Definition formatUnits (balance decimals : Z) : double :=
  ofRatio balance (10 ^ decimals).

(** The real value of a double in units of 2^-1074, the spacing of the
    smallest doubles: every finite double is a whole number of units.  The
    infinities are placed beyond every finite double. *)
Definition units (x : double) : Z :=
  match x with
  | S754_zero _ => 0
  | S754_nan => 0
  | S754_infinity s => cond_Zopp s (2 ^ 2098)
  | S754_finite s m e => cond_Zopp s (Zpos m * 2 ^ (e + 1074))
  end.

End Float64.

Module Float64Spec.
Import Float64.


End Float64Spec.

(** ** Valuation and ranking of new.js on doubles *)

Module Ieee.
Import Float64.

(** A token object with its [usdValue] property. *)
Record Valued := mkValued { tokenData : TokenData; usdValue : double }.

(** Step 4 of [_getRankedCompatibleTokens], for one token:
    [if (priceData && priceData.usd)
       token.usdValue = parseFloat(formatUnits(balance, decimals)) * priceData.usd]. *)
Definition valuate (prices : option (jsobj PriceData)) (token : Valued) : Valued :=
  match prices with
  | None => token
  | Some ps =>
      match get (toLowerCase (contractAddress (tokenData token))) ps with
      | Some priceData =>
          match usd priceData with
          | Some literal =>
              if truthy (ofQc literal)
              then mkValued (tokenData token)
                     (mul (formatUnits (balance (tokenData token))
                             (decimals (tokenData token)))
                        (ofQc literal))
              else token
          | None => token
          end
      | None => token
      end
  end.

(** The comparator [(a, b) => b.usdValue - a.usdValue]. *)
Definition comparefn (a b : Valued) : double := sub (usdValue b) (usdValue a).

(** [compatibleTokens.sort(comparefn)]: [Array.prototype.sort] is stable and
    puts [a] after [b] when [comparefn(a, b) > 0]; computed by insertion. *)
Fixpoint insert (a : Valued) (sorted : list Valued) : list Valued :=
  match sorted with
  | [] => [a]
  | b :: rest =>
      if positive (comparefn a b)
      then b :: insert a rest
      else a :: b :: rest
  end.

Definition sort (l : list Valued) : list Valued := foldr insert [] l.

(** Steps 4 and 5 of [_getRankedCompatibleTokens]; every token object is
    created with [usdValue: 0]. *)
Definition rank (prices : option (jsobj PriceData)) (compatibleTokens : list TokenData)
  : list Valued :=
  sort (valuate prices <$> ((fun t => mkValued t zero) <$> compatibleTokens)).

End Ieee.

Module IeeeRankSpec.
Import Float64 Ieee.

(** Fiat value in the words of the specification, on doubles:
    (raw balance / 10^decimals) x price, and 0 for a zero or unknown
    price. *)
Definition fiatValue (prices : option (jsobj PriceData)) (t : TokenData) : double :=
  match RankSpec.knownPrice prices t with
  | Some literal =>
      if truthy (ofQc literal)
      then mul (formatUnits (balance t) (decimals t)) (ofQc literal)
      else zero
  | None => zero
  end.

Definition valued (prices : option (jsobj PriceData)) (t : TokenData) : Valued :=
  mkValued t (fiatValue prices t).

(** [b] may follow [a] in a descending ranking: its value is not the
    greater number. *)
Definition descending (a b : Valued) : Prop :=
  units (usdValue b) ≤ units (usdValue a).

(** The tokens whose value is the number [v] (in units of 2^-1074), in
    the order they occur in [l]. *)
Definition tied (v : Z) (l : list Valued) : list Valued :=
  filter (fun x => units (usdValue x) = v) l.

(** [out] is a stable descending ranking of [inp]. *)
Definition stableRanking (inp out : list Valued) : Prop :=
  out ≡ₚ inp ∧ StronglySorted descending out ∧ ∀ v, tied v out = tied v inp.


End IeeeRankSpec.

Module Tie.

(** Two tokens whose balances differ by one unit in the eighteenth
    decimal, both priced at 1. *)
Definition tokenA1 : TokenData := mkTokenData "0xa1" "Alpha" "ALP" (10 ^ 18) 18.
Definition tokenB2 : TokenData := mkTokenData "0xb2" "Beta" "BET" (10 ^ 18 + 1) 18.
Definition prices : jsobj PriceData :=
  [("0xa1", Demo.usdPrice 1); ("0xb2", Demo.usdPrice 1)].

End Tie.

Module IeeeSelect.
Import Float64.

(** The literal [-1]. *)
Definition minusOne : double := S754_finite true 4503599627370496 (-52).

(** The [for (const token of compatibleTokens)] loop of
    [_findHighestValueToken] (the same in both SpiderWebSDK scripts), with its
    two loop variables. *)
Fixpoint valueLoop (prices : jsobj PriceData) (tokens : list TokenData)
    (highestValueToken : option TokenData) (maxUsdValue : double)
  : option TokenData * double :=
  match tokens with
  | [] => (highestValueToken, maxUsdValue)
  | token :: rest =>
      match get (toLowerCase (contractAddress token)) prices with
      | Some priceData =>
          match usd priceData with
          | Some literal =>
              if truthy (ofQc literal) then
                let usdValue :=
                  mul (formatUnits (balance token) (decimals token)) (ofQc literal) in
                if gt usdValue maxUsdValue
                then valueLoop prices rest (Some token) usdValue
                else valueLoop prices rest highestValueToken maxUsdValue
              else valueLoop prices rest highestValueToken maxUsdValue
          | None => valueLoop prices rest highestValueToken maxUsdValue
          end
      | None => valueLoop prices rest highestValueToken maxUsdValue
      end
  end.

(** [highestValueToken] and [maxUsdValue] when the loop ends. *)
Definition select (prices : jsobj PriceData) (compatibleTokens : list TokenData)
  : option TokenData * double :=
  valueLoop prices compatibleTokens None minusOne.

End IeeeSelect.

Module IeeeSelectSpec.
Import Float64 IeeeRankSpec.

(** The token has a price that is a non-zero number. *)
Definition priced (prices : jsobj PriceData) (t : TokenData) : Prop :=
  ∃ literal, RankSpec.knownPrice (Some prices) t = Some literal
    ∧ truthy (ofQc literal) = true.

(** The value of [t] under [prices]. *)
Definition valueOf (prices : jsobj PriceData) (t : TokenData) : double :=
  fiatValue (Some prices) t.

(** [t] is the first token of the greatest value among the priced tokens
    of [tokens]: no priced token has a greater value, and every priced token
    before [t] whose value is a number has a smaller one. *)
Definition firstHighest (prices : jsobj PriceData) (tokens : list TokenData)
    (t : TokenData) : Prop :=
  priced prices t
  ∧ gt (valueOf prices t) IeeeSelect.minusOne = true
  ∧ (∀ t', t' ∈ tokens → priced prices t' →
       gt (valueOf prices t') (valueOf prices t) = false)
  ∧ ∃ before after,
      tokens = before ++ t :: after
      ∧ ∀ t', t' ∈ before → priced prices t' → valueOf prices t' ≠ S754_nan →
          gt (valueOf prices t) (valueOf prices t') = true.

(** What the two loop variables hold after the tokens [seen]. *)
Definition loopInvariant (prices : jsobj PriceData) (seen : list TokenData)
    (highestValueToken : option TokenData) (maxUsdValue : double) : Prop :=
  (∀ t', t' ∈ seen → priced prices t' → gt (valueOf prices t') maxUsdValue = false)
  ∧ match highestValueToken with
    | Some t =>
        priced prices t ∧ maxUsdValue = valueOf prices t
        ∧ gt maxUsdValue IeeeSelect.minusOne = true
        ∧ ∃ before after,
            seen = before ++ t :: after
            ∧ ∀ t', t' ∈ before → priced prices t' → valueOf prices t' ≠ S754_nan →
                gt maxUsdValue (valueOf prices t') = true
    | None => maxUsdValue = IeeeSelect.minusOne
    end.

End IeeeSelectSpec.

(** * Properties *)

(** ** Dictionaries *)

Section JsObjects.
Context {V : Type}.
Implicit Types (o t s : jsobj V) (k : string) (v : V).

Lemma get_None_keys k o : get k o = None ↔ k ∉ keys o.
Proof.
  unfold keys. induction o as [|[k' v'] o IH]; simpl.
  - split; [intros _; apply not_elem_of_nil | done].
  - case_decide as Hk; subst.
    + split; [done | intros H; exfalso; apply H; left].
    + rewrite IH, not_elem_of_cons. naive_solver.
Qed.

Lemma get_set k k' v o :
  get k (set k' v o) = if decide (k' = k) then Some v else get k o.
Proof.
  induction o as [|[k1 v1] o IH]; simpl.
  - done.
  - destruct (decide (k1 = k')) as [->|Hne]; simpl.
    + repeat case_decide; congruence.
    + rewrite IH. repeat case_decide; congruence.
Qed.

Lemma keys_set k k' v o : k ∈ keys (set k' v o) ↔ k = k' ∨ k ∈ keys o.
Proof.
  unfold keys. induction o as [|[k1 v1] o IH]; simpl.
  - rewrite list_elem_of_singleton. split; [auto | intros [|H]; [done | inversion H]].
  - case_decide; subst; simpl; rewrite !elem_of_cons; [naive_solver|].
    rewrite IH. naive_solver.
Qed.

Lemma NoDup_keys_set k v o : NoDup (keys o) → NoDup (keys (set k v o)).
Proof.
  unfold keys. induction o as [|[k1 v1] o IH]; simpl; intros Hnd.
  - apply NoDup_singleton.
  - apply NoDup_cons in Hnd as [Hin Hnd].
    case_decide; subst; simpl; apply NoDup_cons; split; auto.
    intros Hc. apply (keys_set k1 k v o) in Hc as [?|?]; [congruence | done].
Qed.

Lemma keys_assign k t s : k ∈ keys (assign t s) ↔ k ∈ keys t ∨ k ∈ keys s.
Proof.
  unfold assign. revert t. induction s as [|[k1 v1] s IH]; intros t; simpl.
  - split; [auto | intros [|H]; [done | inversion H]].
  - rewrite IH, keys_set. unfold keys; simpl. rewrite elem_of_cons. naive_solver.
Qed.

Lemma NoDup_keys_assign t s : NoDup (keys t) → NoDup (keys (assign t s)).
Proof.
  unfold assign. revert t. induction s as [|[k1 v1] s IH]; intros t Hnd; simpl.
  - done.
  - apply IH, NoDup_keys_set, Hnd.
Qed.

Lemma get_assign k t s :
  NoDup (keys s) →
  get k (assign t s) = match get k s with Some v => Some v | None => get k t end.
Proof.
  unfold assign. revert t. induction s as [|[k1 v1] s IH]; intros t Hnd; simpl.
  - done.
  - unfold keys in Hnd; simpl in Hnd. apply NoDup_cons in Hnd as [Hin Hnd].
    rewrite IH by done. rewrite get_set.
    case_decide; subst; [|done].
    apply (get_None_keys k s) in Hin. by rewrite Hin.
Qed.

(** Spreading an object whose keys are distinct copies it. *)
Lemma assign_nil_NoDup s : NoDup (keys s) → assign [] s = s.
Proof.
  intros Hnd.
  enough (∀ t, (∀ k, k ∈ keys s → k ∉ keys t) → assign t s = t ++ s) as H.
  { apply (H []). intros k _. apply not_elem_of_nil. }
  unfold assign. induction s as [|[k1 v1] s IH]; intros t Hdisj; simpl.
  - by rewrite app_nil_r.
  - unfold keys in Hnd; simpl in Hnd. apply NoDup_cons in Hnd as [Hin Hnd].
    assert (set k1 v1 t = t ++ [(k1, v1)]) as ->.
    { assert (k1 ∉ keys t) as Hk1 by (apply Hdisj; unfold keys; simpl; left).
      clear -Hk1. unfold keys in Hk1. induction t as [|[k2 v2] t IH]; simpl; [done|].
      simpl in Hk1. apply not_elem_of_cons in Hk1 as [Hne Hk1].
      case_decide; [congruence|]. by rewrite IH. }
    rewrite IH; [by rewrite <- app_assoc | done |].
    intros k Hk. unfold keys. rewrite fmap_app, elem_of_app. simpl.
    rewrite list_elem_of_singleton. intros [Hkt | ->]; [|done].
    eapply Hdisj; [|exact Hkt]. unfold keys; simpl. by right.
Qed.

Lemma get_spread2 k (a b : jsobj V) :
  NoDup (keys a) → NoDup (keys b) →
  get k (spread2 a b) = match get k b with Some v => Some v | None => get k a end.
Proof.
  intros Ha Hb. unfold spread2. rewrite (assign_nil_NoDup a Ha). by apply get_assign.
Qed.

Lemma NoDup_keys_spread2 (a b : jsobj V) : NoDup (keys (spread2 a b)).
Proof. unfold spread2. apply NoDup_keys_assign, NoDup_keys_assign, NoDup_nil_2. Qed.

Lemma get_all_None (o : jsobj V) : (∀ k, get k o = None) → o = [].
Proof.
  destruct o as [|[k v] o]; [done|]. intros H. specialize (H k). simpl in H.
  by rewrite decide_True in H.
Qed.

Lemma get_assign_elem k (t s : jsobj V) v :
  get k (assign t s) = Some v → get k t = Some v ∨ (k, v) ∈ s.
Proof.
  unfold assign. revert t. induction s as [|[k1 v1] s IH]; intros t; simpl; [by left|].
  intros Hg. destruct (IH _ Hg) as [Hset|Hin]; [|right; by right].
  rewrite get_set in Hset. case_decide as Hk; [|by left].
  injection Hset as ->. subst. right. left.
Qed.

Lemma elem_of_keys k v (o : jsobj V) : (k, v) ∈ o → k ∈ keys o.
Proof. intros Hin. unfold keys. apply list_elem_of_fmap. by exists (k, v). Qed.

Lemma get_of_elem k v (o : jsobj V) : NoDup (keys o) → (k, v) ∈ o → get k o = Some v.
Proof.
  induction o as [|[k' v'] o IH]; intros Hnd Hin; [by inversion Hin|].
  unfold keys in Hnd. simpl in *. apply NoDup_cons in Hnd as [Hk' Hnd].
  apply elem_of_cons in Hin as [[= -> ->]|Hin]; [by rewrite decide_True|].
  rewrite decide_False; [by apply IH|].
  intros ->. apply Hk'. by eapply elem_of_keys.
Qed.
End JsObjects.

Lemma lower_ascii_idemp c : lower_ascii (lower_ascii c) = lower_ascii c.
Proof. by destruct c as [[] [] [] [] [] [] [] []]. Qed.

Lemma toLowerCase_idemp s : toLowerCase (toLowerCase s) = toLowerCase s.
Proof. induction s as [|c s IH]; simpl; [done|]. by rewrite lower_ascii_idemp, IH. Qed.

Lemma elem_of_List_filter {A} (f : A → bool) l x :
  x ∈ List.filter f l ↔ x ∈ l ∧ f x = true.
Proof. rewrite !list_elem_of_In. apply filter_In. Qed.

(** ** Promises *)

Lemma promiseAll_Returns {A} (ps : list (outcome A)) (l : list A) :
  promiseAll ps = Returns l ↔ ps = Returns <$> l.
Proof.
  revert l. induction ps as [|p ps IH]; intros l; simpl.
  - split; [intros [= <-]; done | by destruct l].
  - destruct p as [a|m].
    + destruct (promiseAll ps) as [l'|m] eqn:Hps.
      * split.
        -- intros [= <-]. simpl. f_equal. by apply IH.
        -- destruct l as [|a' l'']; simpl; [done|]. intros [= -> Hl].
           apply IH in Hl. by injection Hl as ->.
      * split; [done|]. destruct l as [|a' l'']; simpl; [done|]. intros [= -> Hl].
        apply IH in Hl. done.
    + split; [done|]. by destruct l.
Qed.

Lemma promiseAll_Throws {A} (ps : list (outcome A)) m :
  promiseAll ps = Throws m → Throws m ∈ ps.
Proof.
  induction ps as [|p ps IH]; simpl; [done|].
  destruct p as [a|m'].
  - destruct (promiseAll ps) as [l'|m''] eqn:Hps; [done|].
    intros [= ->]. right. by apply IH.
  - intros [= ->]. left.
Qed.

(** ** The price cache *)

Section PriceCache.
Import Multichain CacheSpec.
Variables (cache : gmap string CacheEntry) (now : Z).

Lemma partition_fetch addrs pc tf :
  (partitionByCache cache now addrs pc tf).2
  = tf ++ List.filter (fun a => negb (isFresh cache now a)) addrs.
Proof.
  revert pc tf. induction addrs as [|a addrs IH]; intros pc tf; simpl.
  - by rewrite app_nil_r.
  - unfold isFresh at 1. destruct (cache !! toLowerCase a) as [e|] eqn:He.
    + case_decide as Hf.
      * rewrite bool_decide_eq_true_2 by done. simpl. apply IH.
      * rewrite bool_decide_eq_false_2 by done. simpl. rewrite IH.
        by rewrite <- app_assoc.
    + simpl. rewrite IH. by rewrite <- app_assoc.
Qed.

Lemma partition_get addrs pc tf k :
  get k (partitionByCache cache now addrs pc tf).1
  = if existsb (fun a => isFresh cache now a && bool_decide (toLowerCase a = k)) addrs
    then price <$> cache !! k
    else get k pc.
Proof.
  revert pc tf. induction addrs as [|a addrs IH]; intros pc tf; simpl.
  - done.
  - unfold isFresh at 1. destruct (cache !! toLowerCase a) as [e|] eqn:He.
    + case_decide as Hf.
      * rewrite bool_decide_eq_true_2 by done. rewrite IH, get_set. simpl.
        case_bool_decide as Hk; simpl.
        -- subst k. rewrite He. simpl. rewrite decide_True by done.
           by destruct (existsb _ addrs).
        -- by rewrite decide_False by done.
      * rewrite bool_decide_eq_false_2 by done. simpl. apply IH.
    + simpl. apply IH.
Qed.

Lemma partition_NoDup addrs pc tf :
  NoDup (keys pc) → NoDup (keys (partitionByCache cache now addrs pc tf).1).
Proof.
  revert pc tf. induction addrs as [|a addrs IH]; intros pc tf Hnd; simpl.
  - done.
  - destruct (cache !! toLowerCase a) as [e|]; [case_decide|]; apply IH; try done.
    by apply NoDup_keys_set.
Qed.

Lemma isFresh_lower a b :
  toLowerCase a = toLowerCase b → isFresh cache now a = isFresh cache now b.
Proof. unfold isFresh. by intros ->. Qed.
End PriceCache.

Section FetchPhase.
Import Multichain CacheSpec.
Variables (oracle : Oracle) (assetPlatform : string).

Lemma reduce_NoDup rs acc : NoDup (keys acc) → NoDup (keys (foldl reduceStep acc rs)).
Proof.
  revert acc. induction rs as [|r rs IH]; intros acc Hnd; simpl; [done|].
  apply IH. destruct r; simpl; [done|]. apply NoDup_keys_spread2.
Qed.

Lemma reduce_get k rs acc :
  NoDup (keys acc) → Forall wfResult rs →
  get k (foldl reduceStep acc rs) = foldl (pick k) (get k acc) rs.
Proof.
  revert acc. induction rs as [|r rs IH]; intros acc Hnd Hwf; simpl; [done|].
  apply Forall_cons in Hwf as [Hr Hwf].
  rewrite IH; [|destruct r; simpl; [done | apply NoDup_keys_spread2] | done].
  f_equal. destruct r as [a|o]; simpl; [done|]. by apply get_spread2.
Qed.

Lemma pick_fold k rs init :
  foldl (pick k) init rs = init
  ∨ ∃ o v, Prices o ∈ rs ∧ get k o = Some v ∧ foldl (pick k) init rs = Some v.
Proof.
  revert init. induction rs as [|r rs IH]; intros init; simpl; [by left|].
  destruct (IH (pick k init r)) as [Heq|(o & v & Hin & Hget & Heq)].
  - rewrite Heq. destruct r as [a|o]; simpl; [by left|].
    destruct (get k o) as [v|] eqn:Hget; [|by left].
    right. exists o, v. split_and!; [left | done | done].
  - right. exists o, v. split_and!; [by right | done | done].
Qed.

Lemma pick_fold_hit k rs init o v :
  Prices o ∈ rs → get k o = Some v →
  ∃ o' v', Prices o' ∈ rs ∧ get k o' = Some v' ∧ foldl (pick k) init rs = Some v'.
Proof.
  revert init. induction rs as [|r rs IH]; intros init Hin Hget; [by inversion Hin|].
  apply elem_of_cons in Hin as [<-|Hin]; simpl.
  - rewrite Hget.
    destruct (pick_fold k rs (Some v)) as [Heq|(o' & v' & Hin' & Hget' & Heq)].
    + exists o, v. split_and!; [left | done | done].
    + exists o', v'. split_and!; [by right | done | done].
  - destruct (IH (pick k init r) Hin Hget) as (o' & v' & Hin' & Hget' & Heq).
    exists o', v'. split_and!; [by right | done | done].
Qed.

(** What one successful request contributes, for a single-entry oracle. *)
Lemma fetchOne_Prices a o addrs :
  singleEntryOracle oracle assetPlatform addrs = true → a ∈ addrs →
  fetchOne oracle assetPlatform a = Returns (Prices o) →
  ∃ data, oracle (TokenPriceQuery assetPlatform a) = Body data
    ∧ NoDup (keys o)
    ∧ ∀ k, get k o = if decide (toLowerCase a = k)
                     then Some (default zeroPrice (get (toLowerCase a) data))
                     else None.
Proof.
  intros Hs Ha. unfold fetchOne.
  destruct (oracle (TokenPriceQuery assetPlatform a)) as [|st|data] eqn:Ho; try done.
  intros [= <-]. exists data. split_and!; [done | |].
  - apply NoDup_keys_set, NoDup_keys_assign, NoDup_nil_2.
  - intros k. rewrite get_set. case_decide as Hk; [done|].
    apply get_None_keys. rewrite keys_assign. intros [Hc|Hc]; [by inversion Hc|].
    unfold singleEntryOracle in Hs. rewrite forallb_forall in Hs.
    specialize (Hs a). rewrite <- list_elem_of_In in Hs. specialize (Hs Ha).
    rewrite Ho in Hs. rewrite forallb_forall in Hs. specialize (Hs k).
    rewrite <- list_elem_of_In in Hs. specialize (Hs Hc).
    apply bool_decide_eq_true in Hs. congruence.
Qed.

Lemma results_wf addrs rs :
  singleEntryOracle oracle assetPlatform addrs = true →
  fetchOne oracle assetPlatform <$> addrs = Returns <$> rs →
  Forall wfResult rs.
Proof.
  intros Hs Heq. apply Forall_forall. intros r Hr.
  destruct r as [a|o]; simpl; [done|].
  assert (Returns (Prices o) ∈ fetchOne oracle assetPlatform <$> addrs) as Hin.
  { rewrite Heq. by apply list_elem_of_fmap_2. }
  apply list_elem_of_fmap in Hin as (a & Hfa & Ha).
  symmetry in Hfa. by destruct (fetchOne_Prices a o addrs Hs Ha Hfa) as (? & ? & ? & ?).
Qed.

Lemma newPrices_get k addrs rs :
  singleEntryOracle oracle assetPlatform addrs = true →
  fetchOne oracle assetPlatform <$> addrs = Returns <$> rs →
  match get k (reducePrices rs) with
  | Some v =>
      ∃ a data, a ∈ addrs ∧ toLowerCase a = k
        ∧ oracle (TokenPriceQuery assetPlatform a) = Body data
        ∧ v = default zeroPrice (get k data)
  | None =>
      ∀ a data, a ∈ addrs → toLowerCase a = k →
        oracle (TokenPriceQuery assetPlatform a) ≠ Body data
  end.
Proof.
  intros Hs Heq. pose proof (results_wf addrs rs Hs Heq) as Hwf.
  unfold reducePrices. rewrite reduce_get by (done || apply NoDup_nil_2).
  simpl.
  assert (∀ o, Prices o ∈ rs →
            ∃ a, a ∈ addrs ∧ fetchOne oracle assetPlatform a = Returns (Prices o)) as Hback.
  { intros o Ho.
    assert (Returns (Prices o) ∈ fetchOne oracle assetPlatform <$> addrs) as Hin.
    { rewrite Heq. by apply list_elem_of_fmap_2. }
    apply list_elem_of_fmap in Hin as (a & Hfa & Ha). eauto. }
  destruct (foldl (pick k) None rs) as [v|] eqn:Hfold.
  - destruct (pick_fold k rs None) as [Hn|(o & v' & Hin & Hget & Heq')]; [congruence|].
    rewrite Hfold in Heq'. injection Heq' as <-.
    destruct (Hback o Hin) as (a & Ha & Hfa).
    destruct (fetchOne_Prices a o addrs Hs Ha Hfa) as (data & Ho & _ & Hgeto).
    rewrite Hgeto in Hget. case_decide as Hk; [|done]. injection Hget as <-.
    exists a, data. by subst k.
  - intros a data Ha Hk Ho.
    assert (Returns (Prices (set k (default zeroPrice (get k data)) (assign [] data)))
            ∈ fetchOne oracle assetPlatform <$> addrs) as Hin.
    { apply list_elem_of_fmap. exists a. split; [|done].
      unfold fetchOne. rewrite Ho. by rewrite Hk. }
    rewrite Heq in Hin. apply list_elem_of_fmap in Hin as (r & [= <-] & Hr).
    destruct (pick_fold_hit k rs None _ (default zeroPrice (get k data)) Hr)
      as (o' & v' & _ & _ & Hc); [|congruence].
    rewrite get_set. by rewrite decide_True.
Qed.

Lemma newPrices_keys_lower k addrs rs :
  singleEntryOracle oracle assetPlatform addrs = true →
  fetchOne oracle assetPlatform <$> addrs = Returns <$> rs →
  k ∈ keys (reducePrices rs) → toLowerCase k = k.
Proof.
  intros Hs Heq Hk.
  destruct (get k (reducePrices rs)) as [v|] eqn:Hget.
  - pose proof (newPrices_get k addrs rs Hs Heq) as H. rewrite Hget in H.
    destruct H as (a & data & _ & <- & _). apply toLowerCase_idemp.
  - apply get_None_keys in Hget. done.
Qed.

Lemma storePrices_lookup now np (cache : gmap string CacheEntry) k :
  NoDup (keys np) → (∀ k', k' ∈ keys np → toLowerCase k' = k') →
  storePrices now np cache !! k
  = match get k np with
    | Some v => Some (mkCacheEntry v now)
    | None => cache !! k
    end.
Proof.
  unfold storePrices. revert cache.
  induction np as [|[k1 v1] np IH]; intros cache Hnd Hlow; simpl; [done|].
  unfold keys in Hnd; simpl in Hnd. apply NoDup_cons in Hnd as [Hin Hnd].
  rewrite IH; [|done|intros k' Hk'; apply Hlow; unfold keys; simpl; by right].
  assert (toLowerCase k1 = k1) as -> by (apply Hlow; unfold keys; simpl; left).
  case_decide as Hk.
  - subst k1. apply (get_None_keys k np) in Hin. rewrite Hin.
    apply lookup_insert_eq.
  - destruct (get k np); [done|]. by apply lookup_insert_ne.
Qed.

Lemma reducePrices_rejected rs :
  Forall (fun r => match r with Rejected _ => True | Prices _ => False end) rs →
  reducePrices rs = [].
Proof.
  unfold reducePrices. induction 1 as [|r rs Hr _ IH]; simpl; [done|].
  by destruct r.
Qed.
End FetchPhase.

Section PriceCacheClaim.
Import Multichain CacheSpec Demo.

Lemma singleEntryOracle_sub oracle p l l' :
  (∀ a, a ∈ l' → a ∈ l) →
  singleEntryOracle oracle p l = true → singleEntryOracle oracle p l' = true.
Proof.
  unfold singleEntryOracle. rewrite !forallb_forall. intros Hsub H a Ha.
  apply H. rewrite <- list_elem_of_In in *. auto.
Qed.

(** On a chain without a price-feed platform the fetcher returns an empty
    mapping: the cache is neither read nor written and nothing is fetched. *)
Lemma fetch_unsupported_chain chainId now oracle cache tokenAddresses :
  _CHAIN_ID_TO_COINGECKO_ASSET_PLATFORM chainId = None →
  _fetchTokenPrices chainId now oracle cache tokenAddresses = mkPriceFetch [] cache [].
Proof. intros H. unfold _fetchTokenPrices. by rewrite H. Qed.

(** What holds of the TTL rule.  On a chain that has a price-feed platform
    configured, and against an oracle that answers a single-address query
    with at most that address's lowercase entry: a cache entry of the
    lowercase id that is younger than the five-minute TTL is returned and no
    request is issued for the id; a missing entry, or one at least TTL old,
    makes the fetcher issue a request for the id and, when no request of the
    call is rejected, the entry of the lowercase id is overwritten with the
    new price (the oracle's price, or [{usd: 0}] when the body lacks it) and
    the current timestamp. *)
Theorem price_cache_ttl chainId assetPlatform now oracle cache tokenAddresses id :
  _CHAIN_ID_TO_COINGECKO_ASSET_PLATFORM chainId = Some assetPlatform →
  singleEntryOracle oracle assetPlatform tokenAddresses = true →
  id ∈ tokenAddresses →
  price_cache_claim chainId now oracle cache tokenAddresses id.
Proof.
  intros Hplat Hs Hid. unfold price_cache_claim, _fetchTokenPrices. rewrite Hplat.
  destruct (partitionByCache cache now tokenAddresses [] []) as [pfc tf] eqn:Hpart.
  pose proof (partition_fetch cache now tokenAddresses [] []) as Htf.
  pose proof (fun k => partition_get cache now tokenAddresses [] [] k) as Hpfc.
  pose proof (partition_NoDup cache now tokenAddresses [] [] NoDup_nil_2) as Hnd.
  rewrite Hpart in Htf, Hpfc, Hnd. simpl in Htf, Hpfc, Hnd.
  assert (∀ a, a ∈ tf ↔ a ∈ tokenAddresses ∧ isFresh cache now a = false) as Hmem.
  { intros a. rewrite Htf, elem_of_List_filter, negb_true_iff. done. }
  assert (singleEntryOracle oracle assetPlatform tf = true) as Hs'.
  { eapply singleEntryOracle_sub; [|exact Hs]. intros a Ha. by apply Hmem in Ha as [? _]. }
  set (k := toLowerCase id).
  split.
  - (* a fresh entry *)
    intros cached Hc Hfresh.
    assert (isFresh cache now id = true) as Hf.
    { unfold isFresh. fold k. rewrite Hc. by apply bool_decide_eq_true_2. }
    assert (∀ a, toLowerCase a = k → a ∉ tf) as Hnot.
    { intros a Ha Hin. apply Hmem in Hin as [_ Hin].
      rewrite (isFresh_lower cache now a id Ha) in Hin. congruence. }
    assert (get k pfc = Some (price cached)) as Hget.
    { rewrite Hpfc. rewrite Hc. simpl.
      replace (existsb _ tokenAddresses) with true; [done|].
      symmetry. apply existsb_exists. exists id. rewrite <- list_elem_of_In.
      split; [done|]. rewrite Hf. simpl. by apply bool_decide_eq_true_2. }
    destruct tf as [|a0 tf']; [simpl; split; [done | intros ? ? _ H; inversion H]|].
    remember (a0 :: tf') as tf eqn:Heqtf.
    destruct (promiseAll (fetchOne oracle assetPlatform <$> tf)) as [rs|m] eqn:Hall;
      simpl.
    + apply promiseAll_Returns in Hall. split.
      * rewrite get_spread2; [|done|].
        2:{ apply (reduce_NoDup rs []), NoDup_nil_2. }
        pose proof (newPrices_get oracle assetPlatform k tf rs Hs' Hall) as Hnp.
        destruct (get k (reducePrices rs)) as [v|]; [|done].
        destruct Hnp as (a & data & Ha & Hk & _). by destruct (Hnot a Hk).
      * intros p a Ha Hin. apply list_elem_of_fmap in Hin as (a' & [= -> ->] & Hin).
        by destruct (Hnot a' Ha).
    + split; [done|].
      intros p a Ha Hin. apply list_elem_of_fmap in Hin as (a' & [= -> ->] & Hin).
      by destruct (Hnot a' Ha).
  - (* a stale or missing entry *)
    intros Hstale.
    assert (isFresh cache now id = false) as Hf.
    { unfold isFresh. fold k. destruct Hstale as [->|(cached & -> & Hold)]; [done|].
      apply bool_decide_eq_false_2. lia. }
    assert (id ∈ tf) as Hin by (by apply Hmem).
    destruct tf as [|a0 tf']; [by inversion Hin|].
    remember (a0 :: tf') as tf eqn:Heqtf.
    exists assetPlatform.
    destruct (promiseAll (fetchOne oracle assetPlatform <$> tf)) as [rs|m] eqn:Hall;
      simpl.
    + apply promiseAll_Returns in Hall. split; [by apply list_elem_of_fmap_2|].
      intros _ data Hdata.
      pose proof (newPrices_get oracle assetPlatform k tf rs Hs' Hall) as Hnp.
      destruct (get k (reducePrices rs)) as [v|] eqn:Hv.
      * exists v. split_and!.
        -- rewrite get_spread2; [by rewrite Hv | done |].
           apply (reduce_NoDup rs []), NoDup_nil_2.
        -- rewrite (storePrices_lookup now (reducePrices rs) cache k).
           ++ by rewrite Hv.
           ++ apply (reduce_NoDup rs []), NoDup_nil_2.
           ++ intros k' Hk'.
              by apply (newPrices_keys_lower oracle assetPlatform k' tf rs Hs' Hall).
        -- destruct Hnp as (a & d & Ha & Hk & Ho & Hvd). exists a, d.
           split_and!; try done. by apply Hmem in Ha as [? _].
      * by destruct (Hnp id data Hin eq_refl).
    + split; [by apply list_elem_of_fmap_2|].
      intros Hok. exfalso.
      apply promiseAll_Throws in Hall. apply list_elem_of_fmap in Hall as (a & Hfa & Ha).
      apply (Hok (TokenPriceQuery assetPlatform a)); [by apply list_elem_of_fmap_2|].
      unfold fetchOne in Hfa.
      by destruct (oracle (TokenPriceQuery assetPlatform a)).
Qed.

(** On chain 250, which has no price-feed platform, a fresh entry of 0xabc
    is not served. *)
Lemma price_cache_unsupported_chain :
  ¬ price_cache_claim 250 400000 demoOracle demoCache ["0xabc"] "0xabc".
Proof.
  intros [Hfresh _].
  destruct (Hfresh (mkCacheEntry (usdPrice 2) 200000)) as [Hget _].
  - reflexivity.
  - reflexivity.
  - discriminate Hget.
Qed.

Lemma price_cache_ttl_witness :
  _CHAIN_ID_TO_COINGECKO_ASSET_PLATFORM 1 = Some "ethereum"
  ∧ singleEntryOracle demoOracle "ethereum" ["0xabc"; "0xDEF"] = true
  ∧ "0xDEF" ∈ ["0xabc"; "0xDEF"]
  ∧ price_cache_claim 1 400000 demoOracle demoCache ["0xabc"; "0xDEF"] "0xDEF".
Proof.
  assert ("0xDEF" ∈ ["0xabc"; "0xDEF"]) as Hin by (right; left).
  split_and!; [reflexivity | reflexivity | exact Hin |].
  apply (price_cache_ttl 1 "ethereum"); [reflexivity | reflexivity | exact Hin].
Defined.

(** A price fetched at T = 400000 is served from the cache at T + 299999
    and fetched again at T + 300000. *)
Example price_cache_ttl_window :
  let first := _fetchTokenPrices 1 400000 demoOracle ∅ ["0xDEF"] in
  let within := _fetchTokenPrices 1 699999 demoOracle (cacheAfter first) ["0xDEF"] in
  let after := _fetchTokenPrices 1 700000 demoOracle (cacheAfter first) ["0xDEF"] in
  requests first = [TokenPriceQuery "ethereum" "0xDEF"]
  ∧ requests within = [] ∧ prices within = [("0xdef", usdPrice 3)]
  ∧ requests after = [TokenPriceQuery "ethereum" "0xDEF"]
  ∧ cacheAfter after !! "0xdef" = Some (mkCacheEntry (usdPrice 3) 700000).
Proof. split_and!; reflexivity. Qed.

Example price_cache_mixed_batch :
  let run :=
    _fetchTokenPrices 1 400000 demoOracle demoCache ["0xabc"; "0xDEF"; "0xbad"] in
  prices run = [("0xabc", usdPrice 2); ("0xdef", usdPrice 3)]
  ∧ requests run = [TokenPriceQuery "ethereum" "0xDEF"; TokenPriceQuery "ethereum" "0xbad"]
  ∧ cacheAfter run !! "0xdef" = Some (mkCacheEntry (usdPrice 3) 400000)
  ∧ cacheAfter run !! "0xbad" = None.
Proof. split_and!; reflexivity. Qed.
End PriceCacheClaim.

Section PriceCacheIsolation.
Import Multichain CacheSpec FetchSpec Demo.

(** C1.  The refresh rule fails when another request of the same call is
    rejected.  With an empty cache, 0xDEF and 0xeee are both requested; the
    oracle answers the request for 0xDEF with 3 USD and the request for
    0xeee is rejected: the call returns no price at all and writes nothing
    to the cache, so the price fetched successfully for 0xDEF is neither
    served nor cached. *)
Lemma rejected_request_loses_fetched_price :
  let run := _fetchTokenPrices 1 400000 flakyOracle ∅ ["0xDEF"; "0xeee"] in
  flakyOracle (TokenPriceQuery "ethereum" "0xDEF") = Body [("0xdef", usdPrice 3)]
  ∧ requests run
    = [TokenPriceQuery "ethereum" "0xDEF"; TokenPriceQuery "ethereum" "0xeee"]
  ∧ prices run = []
  ∧ cacheAfter run = ∅
  ∧ ¬ refreshedOnSuccess 1 400000 flakyOracle ∅ ["0xDEF"; "0xeee"] "0xDEF".
Proof.
  split_and!; try reflexivity.
  intros H. destruct (H eq_refl) as (p & Hin & Hdata).
  assert (p = "ethereum") as ->.
  { apply elem_of_cons in Hin as [[= ->]|Hin]; [done|].
    apply list_elem_of_singleton in Hin. discriminate Hin. }
  destruct (Hdata _ eq_refl) as (newPrice & Hget & _). discriminate Hget.
Qed.

End PriceCacheIsolation.

(** ** The permit signature *)

Section PermitProofs.
Import PermitSpec Demo.

Lemma sign_trace sdk env tokenData :
  let address := contractAddress tokenData in
  match call_nonces (contractAt env address) with
  | Some n =>
      ∃ d, (Permit.sign sdk env tokenData).2
           = [EvContractCall address "nonces"; EvClock;
              EvContractCall address "version";
              EvSign d (mkPermitMessage (_currentUserAddress sdk) (relayerAddress sdk)
                          (balance tokenData) n (dateNow env `div` 1000 + 1800))]
  | None => Permit.sign sdk env tokenData
            = (Throws "call revert exception", [EvContractCall address "nonces"])
  end.
Proof.
  simpl. unfold Permit.sign.
  destruct (call_nonces _) as [n|]; [|done].
  eexists. by destruct (signTypedData _ _ _).
Qed.

Lemma signAndSend_freshBuild sdk env tokenData total :
  freshBuild sdk env tokenData (Permit.signAndSend sdk env tokenData total).2.
Proof.
  unfold freshBuild, Permit.signAndSend.
  pose proof (sign_trace sdk env tokenData) as Hs. simpl in Hs.
  destruct (call_nonces _) as [n|].
  - destruct Hs as [d Hs].
    destruct (Permit.sign sdk env tokenData) as [[b|m] ev]; simpl in Hs; subst ev.
    + exists d. case_match; simpl; eexists; (split_and!; [reflexivity | done |]).
      all: unfold nonceReads; rewrite filter_cons_False by done; done.
    + exists d, []. done.
  - rewrite Hs. done.
Qed.

Lemma freshBuild_reads sdk env tokenData trace n :
  freshBuild sdk env tokenData trace →
  call_nonces (contractAt env (contractAddress tokenData)) = Some n →
  nonce <$> signedMessages trace = [n]
  ∧ nonceReads (contractAddress tokenData) trace
    = [EvContractCall (contractAddress tokenData) "nonces"].
Proof.
  unfold freshBuild. intros Hf Hn. rewrite Hn in Hf.
  destruct Hf as (d & rest & -> & Hsig & Hreads). simpl. rewrite Hsig. split; [done|].
  unfold nonceReads in *.
  rewrite filter_cons_True by done.
  rewrite filter_cons_False by done.
  rewrite filter_cons_False by (by intros [=]).
  rewrite filter_cons_False by done.
  by rewrite Hreads.
Qed.

Lemma two_builds sdk env env' tokenData trace trace' n :
  freshBuild sdk env tokenData trace →
  freshBuild sdk env' tokenData trace' →
  call_nonces (contractAt env (contractAddress tokenData)) = Some n →
  call_nonces (contractAt env' (contractAddress tokenData)) = Some (n + 1) →
  nonce <$> signedMessages (trace ++ trace') = [n; n + 1]
  ∧ length (nonceReads (contractAddress tokenData) (trace ++ trace')) = 2%nat.
Proof.
  intros Hf Hf' Hn Hn'.
  destruct (freshBuild_reads _ _ _ _ _ Hf Hn) as [Hs Hr].
  destruct (freshBuild_reads _ _ _ _ _ Hf' Hn') as [Hs' Hr'].
  unfold signedMessages, nonceReads in *.
  rewrite omap_app, fmap_app, filter_app, Hs, Hs', Hr, Hr'. done.
Qed.

(** C2.  In both permit variants every authorization build reads
    [nonces(owner)] from the token contract first, then the clock, then asks
    the wallet to sign exactly one message, whose nonce is the value just
    read and whose deadline is the clock reading in seconds plus 1800; a
    failed nonce read ends the build before anything is signed.  The build
    keeps no state: of two builds in sequence, the second performs its own
    read, and signs the incremented nonce when the first permit was consumed
    on-chain in between. *)
Theorem permit_fresh_nonce_and_deadline sdk env env' tokenData usdValue :
  let multichain e :=
    (Multichain._signAndSendWithStandardPermit sdk e tokenData usdValue).2 in
  let v11 e := (V11._signAndSendWithStandardPermit sdk e tokenData).2 in
  let address := contractAddress tokenData in
  freshBuild sdk env tokenData (multichain env)
  ∧ freshBuild sdk env tokenData (v11 env)
  ∧ ∀ n, call_nonces (contractAt env address) = Some n →
         call_nonces (contractAt env' address) = Some (n + 1) →
         (nonce <$> signedMessages (multichain env ++ multichain env') = [n; n + 1]
          ∧ length (nonceReads address (multichain env ++ multichain env')) = 2%nat)
         ∧ (nonce <$> signedMessages (v11 env ++ v11 env') = [n; n + 1]
            ∧ length (nonceReads address (v11 env ++ v11 env')) = 2%nat).
Proof.
  simpl. split_and!; try apply signAndSend_freshBuild.
  intros n Hn Hn'. split; eapply two_builds; try done; apply signAndSend_freshBuild.
Qed.

Lemma permit_fresh_nonce_and_deadline_witness :
  let first := env 1700000000123 twoTokens (healthyAt 3) noOracle in
  let second := env 1700000600000 twoTokens (healthyAt 4) noOracle in
  let build e := (Multichain._signAndSendWithStandardPermit session e tokenA1 0%Qc).2 in
  call_nonces (contractAt first "0xa1") = Some 3
  ∧ call_nonces (contractAt second "0xa1") = Some (3 + 1)
  ∧ nonce <$> signedMessages (build first ++ build second) = [3; 3 + 1]
  ∧ length (nonceReads "0xa1" (build first ++ build second)) = 2%nat.
Proof.
  intros first second build.
  destruct (permit_fresh_nonce_and_deadline session first second tokenA1 0%Qc)
    as (_ & _ & Htwo).
  destruct (Htwo 3 eq_refl eq_refl) as [[Hnonces Hreads] _].
  split_and!; [reflexivity | reflexivity | exact Hnonces | exact Hreads].
Defined.

Example permit_message_example :
  signedMessages
    (Multichain._signAndSendWithStandardPermit session
       (env 1700000000123 twoTokens healthy noOracle) tokenA1 0%Qc).2
  = [mkPermitMessage "0xowner" "0xrelayer" 100 3 1700001800].
Proof. reflexivity. Qed.
End PermitProofs.

(** ** Ranking *)

Section Ranking.
Import V11 RankSpec Demo.


Lemma insert_perm a l : insertByUsdValue a l ≡ₚ a :: l.
Proof.
  induction l as [|b l IH]; simpl; [done|].
  case_decide; [|done]. rewrite IH. apply Permutation_swap.
Qed.

Lemma sort_perm l : sortByUsdValue l ≡ₚ l.
Proof.
  induction l as [|a l IH]; simpl; [done|].
  rewrite insert_perm. by f_equiv.
Qed.

Lemma insert_sorted a l :
  StronglySorted descending l → StronglySorted descending (insertByUsdValue a l).
Proof.
  induction 1 as [|b l Hs IH Hb]; simpl.
  - repeat constructor.
  - case_decide as Hlt.
    + constructor; [done|]. rewrite insert_perm. constructor; [|done].
      unfold descending. by apply Qclt_le_weak.
    + apply Qcnot_lt_le in Hlt. constructor; [by constructor|].
      constructor; [done|].
      eapply Forall_impl; [exact Hb|]. unfold descending. intros c Hc.
      by eapply Qcle_trans.
Qed.

Lemma sort_sorted l : StronglySorted descending (sortByUsdValue l).
Proof. induction l; simpl; [constructor | by apply insert_sorted]. Qed.

Lemma insert_tied v a l : tied v (insertByUsdValue a l) = tied v (a :: l).
Proof.
  unfold tied. induction l as [|b l IH]; simpl; [done|].
  case_decide as Hlt; [|done].
  rewrite (filter_cons _ b), IH, !(filter_cons _ a), (filter_cons _ b).
  repeat case_decide; try done.
  exfalso. apply (Qclt_not_eq (usdValue a) (usdValue b)); congruence.
Qed.

Lemma sort_tied v l : tied v (sortByUsdValue l) = tied v l.
Proof.
  induction l as [|a l IH]; simpl; [done|].
  rewrite insert_tied. unfold tied in *. by rewrite !(filter_cons _ a), IH.
Qed.

Lemma sort_stableRanking l : stableRanking l (sortByUsdValue l).
Proof. split_and!; [apply sort_perm | apply sort_sorted | intros; apply sort_tied]. Qed.

Lemma tied_nil_inv l : (∀ v, tied v l = []) → l = [].
Proof.
  destruct l as [|a l]; [done|]. intros H. specialize (H (usdValue a)).
  unfold tied in H. by rewrite filter_cons_True in H.
Qed.

(** A stable descending ranking is unique: whichever stable algorithm the
    engine uses for [Array.prototype.sort], the result is the same. *)
Lemma stableRanking_unique l1 l2 :
  StronglySorted descending l1 → StronglySorted descending l2 →
  (∀ v, tied v l1 = tied v l2) → l1 = l2.
Proof.
  intros H1. revert l2. induction H1 as [|a l1 Hs1 IH Ha]; intros l2 H2 Ht.
  - symmetry. apply tied_nil_inv. intros v. by rewrite <- Ht.
  - destruct H2 as [|b l2 Hs2 Hb].
    { apply tied_nil_inv. intros v. by rewrite Ht. }
    assert (usdValue a = usdValue b) as Hab.
    { apply Qcle_antisym.
      - pose proof (Ht (usdValue a)) as Hta. unfold tied in Hta.
        rewrite filter_cons_True in Hta by done.
        assert (a ∈ filter (λ x, usdValue x = usdValue a) (b :: l2)) as Hin
          by (rewrite <- Hta; left).
        apply list_elem_of_filter in Hin as [_ Hin].
        apply elem_of_cons in Hin as [->|Hin]; [apply Qcle_refl|].
        rewrite Forall_forall in Hb. by apply Hb.
      - pose proof (Ht (usdValue b)) as Htb. unfold tied in Htb.
        rewrite (filter_cons_True _ b) in Htb by done.
        assert (b ∈ filter (λ x, usdValue x = usdValue b) (a :: l1)) as Hin
          by (rewrite Htb; left).
        apply list_elem_of_filter in Hin as [_ Hin].
        apply elem_of_cons in Hin as [->|Hin]; [apply Qcle_refl|].
        rewrite Forall_forall in Ha. by apply Ha. }
    assert (a = b) as <-.
    { pose proof (Ht (usdValue a)) as Hta. unfold tied in Hta.
      rewrite filter_cons_True in Hta by done.
      rewrite filter_cons_True in Hta by done. congruence. }
    f_equal. apply IH; [done|]. intros v. specialize (Ht v). unfold tied in *.
    rewrite !(filter_cons _ a) in Ht. case_decide; congruence.
Qed.

(** Fiat values [200; 5000] give the order [Token B; Token A]. *)
Example ranking_scenario :
  let ranked := rank (Some scenarioPrices) [tokenA; tokenB] in
  tokenData <$> ranked = [tokenB; tokenA]
  ∧ (this ∘ usdValue) <$> ranked = [5000 # 1; 200 # 1]%Q.
Proof. split; vm_compute; reflexivity. Qed.

(** A failed price for Token A values it at 0 and still ranks it. *)
Example ranking_with_missing_price :
  let ranked := rank (Some [("0xbbbb", usdPrice 1000)]) [tokenA; tokenB] in
  tokenData <$> ranked = [tokenB; tokenA]
  ∧ (this ∘ usdValue) <$> ranked = [5000 # 1; 0 # 1]%Q.
Proof. split; vm_compute; reflexivity. Qed.
End Ranking.

(** ** Ranking on doubles *)

Section Binary64.
Import Float64 Float64Spec.

Lemma digits2_bounds m :
  2 ^ (Zpos (digits2_pos m) - 1) ≤ Zpos m < 2 ^ Zpos (digits2_pos m).
Proof.
  induction m as [m IH|m IH|]; simpl digits2_pos.
  - rewrite Pos2Z.inj_succ. replace (Z.succ (Zpos (digits2_pos m)) - 1)
      with (Z.succ (Zpos (digits2_pos m) - 1)) by lia.
    rewrite !Z.pow_succ_r by lia. lia.
  - rewrite Pos2Z.inj_succ. replace (Z.succ (Zpos (digits2_pos m)) - 1)
      with (Z.succ (Zpos (digits2_pos m) - 1)) by lia.
    rewrite !Z.pow_succ_r by lia. lia.
  - simpl. lia.
Qed.

Lemma Zdigits2_bounds m :
  0 < m → 1 ≤ Zdigits2 m ∧ 2 ^ (Zdigits2 m - 1) ≤ m < 2 ^ Zdigits2 m.
Proof.
  destruct m as [|p|p]; [lia | | lia]. intros _. simpl Zdigits2.
  split; [lia | apply digits2_bounds].
Qed.

Lemma shr_1_div mrs : 0 ≤ shr_m mrs → shr_m (shr_1 mrs) = shr_m mrs / 2.
Proof.
  destruct mrs as [m r s]. simpl. intros Hm. rewrite <- Z.div2_div.
  destruct m as [|[p|p|]|p]; simpl; try done; lia.
Qed.

Lemma iter_shr_div p mrs :
  0 ≤ shr_m mrs → shr_m (SpecFloat.iter_pos shr_1 p mrs) = shr_m mrs / 2 ^ Zpos p.
Proof.
  revert mrs. induction p as [p IH|p IH|]; intros mrs Hm; cbn [SpecFloat.iter_pos];
    try assert (0 < 2 ^ Zpos p) as Hpow by (apply Z.pow_pos_nonneg; lia).
  - assert (0 ≤ shr_m (shr_1 mrs)) as H1.
    { rewrite shr_1_div by done. apply Z.div_pos; lia. }
    assert (0 ≤ shr_m (SpecFloat.iter_pos shr_1 p (shr_1 mrs))) as H2.
    { rewrite IH by done. apply Z.div_pos; [done | lia]. }
    rewrite IH, IH, shr_1_div by done.
    rewrite (Z.div_div _ 2 (2 ^ Zpos p)) by lia.
    rewrite (Z.div_div _ (2 * 2 ^ Zpos p) (2 ^ Zpos p)) by lia.
    f_equal. rewrite (Pos2Z.inj_xI p).
    replace (2 * Zpos p + 1) with (1 + Zpos p + Zpos p) by lia.
    rewrite !Z.pow_add_r by lia. done.
  - assert (0 ≤ shr_m (SpecFloat.iter_pos shr_1 p mrs)) as H2.
    { rewrite IH by done. apply Z.div_pos; [done | lia]. }
    rewrite IH, IH by done.
    rewrite (Z.div_div _ (2 ^ Zpos p) (2 ^ Zpos p)) by lia.
    f_equal. rewrite (Pos2Z.inj_xO p).
    replace (2 * Zpos p) with (Zpos p + Zpos p) by lia.
    rewrite Z.pow_add_r by lia. done.
  - rewrite shr_1_div by done. done.
Qed.

(** What [shr_fexp] does to a mantissa that is not negative. *)
Lemma shr_fexp_spec m e l :
  0 ≤ m →
  let n := fexp prec emax (Zdigits2 m + e) - e in
  let out := shr_fexp prec emax m e l in
  (n ≤ 0 → shr_m out.1 = m ∧ out.2 = e)
  ∧ (0 < n → shr_m out.1 = m / 2 ^ n ∧ out.2 = e + n).
Proof.
  intros Hm. cbv zeta. unfold shr_fexp.
  set (n := fexp prec emax (Zdigits2 m + e) - e).
  assert (shr_m (shr_record_of_loc m l) = m) as Hrec by (by destruct l as [|[]]).
  unfold shr. destruct n as [|p|p] eqn:Hn; simpl.
  - split; [done | lia].
  - split; [lia|]. intros _. rewrite iter_shr_div by lia. by rewrite Hrec.
  - split; [done | lia].
Qed.

Lemma round_nearest_even_bounds m l :
  m ≤ round_nearest_even m l ≤ m + 1.
Proof. destruct l as [|[]]; simpl; try lia. destruct (Z.even m); lia. Qed.

Lemma fexp_bounds x :
  x - 53 ≤ fexp prec emax x ∧ -1074 ≤ fexp prec emax x
  ∧ (fexp prec emax x = x - 53 ∨ fexp prec emax x = -1074).
Proof. unfold fexp, SpecFloat.emin, prec, emax. lia. Qed.

(** The result of rounding: never [NaN], of the given sign, in range when
    finite, and not zero when the rounded mantissa is positive at an
    exponent of the binary64 range. *)
Lemma binary_round_aux_spec s mx ex lx :
  0 ≤ mx →
  match binary_round_aux prec emax s mx ex lx with
  | S754_nan => False
  | S754_zero s' => s' = s ∧ ¬ (0 < mx ∧ -1074 ≤ ex)
  | S754_infinity s' => s' = s
  | S754_finite s' m e => s' = s ∧ -1074 ≤ e ≤ 971 ∧ Zpos m < 2 ^ 53
  end.
Proof.
  intros Hmx. unfold binary_round_aux.
  pose proof (shr_fexp_spec mx ex lx Hmx) as H1. cbv zeta in H1.
  destruct (shr_fexp prec emax mx ex lx) as [mrs1 e1]. simpl in H1.
  pose proof (fexp_bounds (Zdigits2 mx + ex)) as Hf1.
  assert (0 ≤ shr_m mrs1
          ∧ (0 < mx → -1074 ≤ ex → 1 ≤ shr_m mrs1 ∧ -1074 ≤ e1)) as [Hm1 Hpos1].
  { destruct (Z_le_gt_dec (fexp prec emax (Zdigits2 mx + ex) - ex) 0) as [Hn|Hn].
    - destruct H1 as [H1 _]. destruct (H1 Hn) as [E1 E2]. rewrite E1, E2. lia.
    - destruct H1 as [_ H1]. destruct H1 as [E1 E2]; [lia|]. rewrite E1, E2.
      assert (0 < 2 ^ (fexp prec emax (Zdigits2 mx + ex) - ex)) as Hpow
        by (apply Z.pow_pos_nonneg; lia).
      split; [apply Z.div_pos; [done | lia]|].
      intros Hp He. split; [|lia].
      destruct (Zdigits2_bounds mx Hp) as [Hd [Hlo _]].
      apply Z.div_le_lower_bound; [lia|].
      rewrite Z.mul_1_r. etrans; [|exact Hlo].
      apply Z.pow_le_mono_r; lia. }
  pose proof (round_nearest_even_bounds (shr_m mrs1) (loc_of_shr_record mrs1)) as Hm2.
  destruct (round_nearest_even (shr_m mrs1) (loc_of_shr_record mrs1)) as [|m2|m2] eqn:Em2;
    [| |lia].
  { (* the mantissa was rounded to zero *)
    assert (shr_m (shr_fexp prec emax 0 e1 loc_Exact).1 = 0) as Hz.
    { destruct (shr_fexp_spec 0 e1 loc_Exact ltac:(lia)) as [Ha Hb].
      destruct (Z_le_gt_dec (fexp prec emax (Zdigits2 0 + e1) - e1) 0) as [Hn|Hn].
      - by destruct (Ha Hn).
      - destruct Hb as [-> _]; [lia|]. apply Z.div_0_l.
        apply Z.pow_nonzero; lia. }
    destruct (shr_fexp prec emax 0 e1 loc_Exact) as [mrs3 e3]. simpl in Hz.
    rewrite Hz. split; [done|]. intros [Hp He]. specialize (Hpos1 Hp He). lia. }
  assert (0 ≤ Zpos m2) as Hm2' by lia.
  pose proof (shr_fexp_spec (Zpos m2) e1 loc_Exact Hm2') as H2. cbv zeta in H2.
  destruct (shr_fexp prec emax (Zpos m2) e1 loc_Exact) as [mrs3 e3]. simpl in H2.
  pose proof (fexp_bounds (Zdigits2 (Zpos m2) + e1)) as Hf2.
  destruct (Zdigits2_bounds (Zpos m2) ltac:(lia)) as [Hd [Hlo Hhi]].
  cbn [Zdigits2] in *.
  assert (0 ≤ shr_m mrs3 ∧ -1074 ≤ e3 ∧ shr_m mrs3 < 2 ^ 53
          ∧ (0 < mx → -1074 ≤ ex → 1 ≤ shr_m mrs3)) as (Hm3 & He3 & Hup & Hpos3).
  { destruct (Z_le_gt_dec (fexp prec emax (Zpos (digits2_pos m2) + e1) - e1) 0) as [Hn|Hn].
    - destruct H2 as [H2 _]. destruct (H2 Hn) as [E1 E2]. rewrite E1, E2.
      split_and!.
      + lia.
      + lia.
      + eapply Z.lt_le_trans; [exact Hhi|]. apply Z.pow_le_mono_r; lia.
      + lia.
    - destruct H2 as [_ H2]. destruct H2 as [E1 E2]; [lia|]. rewrite E1, E2.
      assert (0 < 2 ^ (fexp prec emax (Zpos (digits2_pos m2) + e1) - e1)) as Hpow
        by (apply Z.pow_pos_nonneg; lia).
      split_and!.
      + apply Z.div_pos; [done | lia].
      + lia.
      + apply Z.div_lt_upper_bound; [lia|].
        rewrite <- Z.pow_add_r by lia.
        eapply Z.lt_le_trans; [exact Hhi|]. apply Z.pow_le_mono_r; lia.
      + intros Hp He. destruct (Hpos1 Hp He) as [Hone He1].
        apply Z.div_le_lower_bound; [lia|].
        rewrite Z.mul_1_r. etrans; [|exact Hlo].
        apply Z.pow_le_mono_r; lia. }
  destruct (shr_m mrs3) as [|p|p] eqn:Hm3e; [| |lia].
  - split; [done|]. intros [Hp He]. specialize (Hpos3 Hp He). lia.
  - destruct (e3 <=? emax - prec) eqn:Hle; [|done].
    apply Z.leb_le in Hle. unfold emax, prec in Hle. split_and!; [done | lia | lia | done].
Qed.






End Binary64.

Section IeeeRanking.
Import Float64 Float64Spec Ieee IeeeRankSpec.













Lemma SFdiv_core_nonneg b d :
  0 ≤ (SFdiv_core_binary prec emax (Zpos b) 0 (Zpos d) 0).1.1.
Proof.
  unfold SFdiv_core_binary. cbv zeta.
  set (s := 0 - 0 - _).
  set (m' := match s with 0 => Zpos b | Zpos _ => Z.shiftl (Zpos b) s | Zneg _ => 0 end).
  assert (0 ≤ m') as Hm'.
  { unfold m'. destruct s; [lia | apply Z.shiftl_nonneg; lia | lia]. }
  pose proof (Z.div_pos m' (Zpos d) Hm' ltac:(lia)) as Hq.
  unfold Z.div in Hq. by destruct (Z.div_eucl m' (Zpos d)).
Qed.

Lemma formatUnits_not_nan balance decimals :
  0 ≤ decimals → formatUnits balance decimals ≠ S754_nan.
Proof.
  intros Hd. assert (0 < 10 ^ decimals) as Hpow by (apply Z.pow_pos_nonneg; lia).
  unfold formatUnits, ofRatio.
  destruct (10 ^ decimals) as [|d|d]; [lia | | lia].
  destruct balance as [|b|b]; simpl; [done | |];
    pose proof (SFdiv_core_nonneg b d) as Hmz;
    destruct (SFdiv_core_binary prec emax (Zpos b) 0 (Zpos d) 0) as [[mz ez] lz];
    simpl in Hmz; intros Heq.
  - pose proof (binary_round_aux_spec false mz ez lz Hmz) as Hr. by rewrite Heq in Hr.
  - pose proof (binary_round_aux_spec true mz ez lz Hmz) as Hr. by rewrite Heq in Hr.
Qed.

(** Finite prices never produce [NaN]: with a non-negative number of
    decimals, a value is [NaN] only for a price beyond the largest double. *)
Lemma fiatValue_nan prices t :
  0 ≤ decimals t →
  fiatValue prices t = S754_nan →
  ∃ literal s, RankSpec.knownPrice prices t = Some literal
    ∧ ofQc literal = S754_infinity s.
Proof.
  intros Hd. unfold fiatValue.
  destruct (RankSpec.knownPrice prices t) as [q|]; [|done].
  destruct (truthy (ofQc q)) eqn:Htruthy; [|done].
  intros Hnan. pose proof (formatUnits_not_nan (balance t) (decimals t) Hd) as Hamount.
  destruct (ofQc q) as [s|s| |s m e] eqn:Hq; try done.
  - by exists q, s.
  - exfalso. destruct (formatUnits _ _) as [sa|sa| |sa ma ea]; try done.
    unfold mul in Hnan. simpl in Hnan.
    pose proof (binary_round_aux_spec (xorb sa s) (Zpos (ma * m)) (ea + e) loc_Exact
                  ltac:(lia)) as Hr.
    by rewrite Hnan in Hr.
Qed.


End IeeeRanking.

Section IeeeRankingWitness.
Import Float64 Ieee IeeeRankSpec Tie.


End IeeeRankingWitness.

Section IeeeRankingExamples.
Import Tie.

(** Balances 10^18 and 10^18 + 1 at 18 decimals both read as the double
    1: the tokens tie and keep their order of discovery, where exact
    arithmetic puts the second first. *)
Example ranking_rounds_to_a_tie :
  Ieee.usdValue <$> Ieee.rank (Some prices) [tokenA1; tokenB2]
  = [S754_finite false 4503599627370496 (-52); S754_finite false 4503599627370496 (-52)]
  ∧ tokenData <$> V11.rank (Some prices) [tokenA1; tokenB2] = [tokenB2; tokenA1].
Proof. split; vm_compute; reflexivity. Qed.

End IeeeRankingExamples.

(** ** The selection loop on doubles *)

Section IeeeSelection.
Import Float64 IeeeRankSpec IeeeSelect IeeeSelectSpec.

Ltac compare_cases :=
  repeat match goal with
  | H : context [Pos.compare_cont Eq ?a ?b] |- _ =>
      change (Pos.compare_cont Eq a b) with (Pos.compare a b) in H
  | |- context [Pos.compare_cont Eq ?a ?b] =>
      change (Pos.compare_cont Eq a b) with (Pos.compare a b)
  end;
  repeat match goal with
  | H : context [Z.compare ?a ?b] |- _ => destruct (Z.compare_spec a b); simpl in H
  | |- context [Z.compare ?a ?b] => destruct (Z.compare_spec a b); simpl
  | H : context [Pos.compare ?a ?b] |- _ => destruct (Pos.compare_spec a b); simpl in H
  | |- context [Pos.compare ?a ?b] => destruct (Pos.compare_spec a b); simpl
  end;
  try done; try lia.

(** [x <= m < v] gives [x <= v]. *)
Lemma gt_le_trans x m v :
  gt v m = true → gt x m = false → gt x v = false.
Proof.
  unfold gt, SFltb.
  destruct x as [sx|sx| |sx mx ex], m as [sm|sm| |sm mm em], v as [sv|sv| |sv mv ev];
    try done;
    try destruct sx; try destruct sm; try destruct sv; simpl; try done;
    intros H1 H2; compare_cases.
Qed.

(** [x <= m < v] gives [x < v] when [x] is a number. *)
Lemma gt_lt_trans x m v :
  gt v m = true → gt x m = false → x ≠ S754_nan → gt v x = true.
Proof.
  unfold gt, SFltb.
  destruct x as [sx|sx| |sx mx ex], m as [sm|sm| |sm mm em], v as [sv|sv| |sv mv ev];
    try done;
    try destruct sx; try destruct sm; try destruct sv; simpl; try done;
    intros H1 H2 _; compare_cases.
Qed.

Lemma gt_not_nan v m : gt v m = true → v ≠ S754_nan ∧ m ≠ S754_nan.
Proof. unfold gt, SFltb. by destruct v, m. Qed.

Lemma gt_asym a b : gt a b = true → gt b a = false.
Proof.
  unfold gt, SFltb.
  destruct a as [sa|sa| |sa ma ea], b as [sb|sb| |sb mb eb]; try done;
    try destruct sa; try destruct sb; simpl; try done; intros H1; compare_cases.
Qed.

Lemma priced_step prices t :
  match get (toLowerCase (contractAddress t)) prices with
  | Some priceData =>
      match usd priceData with
      | Some literal =>
          if truthy (ofQc literal)
          then priced prices t
               ∧ valueOf prices t
                 = mul (formatUnits (balance t) (decimals t)) (ofQc literal)
          else ¬ priced prices t
      | None => ¬ priced prices t
      end
  | None => ¬ priced prices t
  end.
Proof.
  unfold priced, valueOf, fiatValue, RankSpec.knownPrice.
  destruct (get _ prices) as [pd|]; [|by intros (? & ? & _)].
  destruct (usd pd) as [q|]; [|by intros (? & ? & _)].
  destruct (truthy (ofQc q)) eqn:Htruthy.
  - split; [by exists q | done].
  - intros (q' & [= <-] & Hq). congruence.
Qed.

Lemma valueLoop_invariant prices tokens seen highestValueToken maxUsdValue :
  loopInvariant prices seen highestValueToken maxUsdValue →
  loopInvariant prices (seen ++ tokens)
    (valueLoop prices tokens highestValueToken maxUsdValue).1
    (valueLoop prices tokens highestValueToken maxUsdValue).2.
Proof.
  revert seen highestValueToken maxUsdValue.
  induction tokens as [|t tokens IH]; intros seen sel m Hinv; simpl.
  { by rewrite app_nil_r. }
  replace (seen ++ t :: tokens) with ((seen ++ [t]) ++ tokens)
    by (by rewrite <- app_assoc).
  pose proof (priced_step prices t) as Hstep.
  assert (¬ priced prices t → loopInvariant prices (seen ++ [t]) sel m) as Hskip.
  { intros Hnot. destruct Hinv as [Hmax Hsel]. split.
    - intros t' Hin Hp. apply elem_of_app in Hin as [Hin|Hin]; [by apply Hmax|].
      apply list_elem_of_singleton in Hin. by subst.
    - destruct sel as [s|]; [|done].
      destruct Hsel as (Hp & Hm & Hgt & before & after & Hseen & Hbefore).
      split_and!; try done. exists before, (after ++ [t]).
      split; [|done]. rewrite Hseen, <- app_assoc. done. }
  destruct (get (toLowerCase (contractAddress t)) prices) as [pd|]; [|by apply IH, Hskip].
  destruct (usd pd) as [q|]; [|by apply IH, Hskip].
  destruct (truthy (ofQc q)); [|by apply IH, Hskip].
  destruct Hstep as [Hpriced Hvalue]. rewrite <- Hvalue.
  destruct Hinv as [Hmax Hsel].
  destruct (gt (valueOf prices t) m) eqn:Hgt; apply IH.
  - (* the token becomes the selection *)
    assert (gt (valueOf prices t) minusOne = true) as Hone.
    { destruct sel as [s|]; [|by subst].
      destruct Hsel as (_ & _ & Hm1 & _).
      apply (gt_lt_trans minusOne m); [done | by apply gt_asym | done]. }
    split.
    + intros t' Hin Hp. apply elem_of_app in Hin as [Hin|Hin].
      * apply (gt_le_trans _ m); [done | by apply Hmax].
      * apply list_elem_of_singleton in Hin. subst t'.
        destruct (gt (valueOf prices t) (valueOf prices t)) eqn:Hself; [|done].
        by rewrite (gt_asym _ _ Hself) in Hself.
    + split_and!; [done | done | done |]. exists seen, []. split; [done|].
      intros t' Hin Hp Hnan. apply (gt_lt_trans _ m); [done | by apply Hmax | done].
  - (* the selection stays *)
    split.
    + intros t' Hin Hp. apply elem_of_app in Hin as [Hin|Hin]; [by apply Hmax|].
      apply list_elem_of_singleton in Hin. by subst.
    + destruct sel as [s|]; [|done].
      destruct Hsel as (Hp & Hm & Hgt1 & before & after & Hseen & Hbefore).
      split_and!; try done. exists before, (after ++ [t]).
      split; [|done]. rewrite Hseen, <- app_assoc. done.
Qed.

(** X1.  The selection loop of [_findHighestValueToken], on doubles.  When
    it selects a token, that token is priced, its value exceeds -1, no
    priced token has a greater value, and it is the first such token: every
    priced token before it whose value is a number has a smaller value; the
    value kept next to it is its own.  When it selects none, no priced token
    has a value above -1 and [maxUsdValue] is still -1. *)
Theorem selection_loop_first_highest prices compatibleTokens :
  match (select prices compatibleTokens).1 with
  | Some selected =>
      firstHighest prices compatibleTokens selected
      ∧ (select prices compatibleTokens).2 = valueOf prices selected
  | None =>
      (select prices compatibleTokens).2 = minusOne
      ∧ ∀ t, t ∈ compatibleTokens → priced prices t →
          gt (valueOf prices t) minusOne = false
  end.
Proof.
  assert (loopInvariant prices [] None minusOne) as Hstart.
  { split; [|done]. intros t' Hin. inversion Hin. }
  pose proof (valueLoop_invariant prices compatibleTokens [] None minusOne Hstart) as Hinv.
  unfold select. simpl in Hinv. destruct Hinv as [Hmax Hsel].
  destruct (valueLoop prices compatibleTokens None minusOne) as [[selected|] m];
    simpl in *.
  - destruct Hsel as (Hp & -> & Hgt & before & after & Hseen & Hbefore).
    split; [|done]. split_and!; [done | done | done |]. by exists before, after.
  - subst m. by split.
Qed.

End IeeeSelection.

Section IeeeSelectionExamples.
Import Tie.

(** Balances 10^18 and 10^18 + 1 at 18 decimals and price 1 both have the
    value 1: the loop keeps the first token, where exact arithmetic selects
    the second. *)
Example selection_rounds_to_a_tie :
  IeeeSelect.select prices [tokenA1; tokenB2]
  = (Some tokenA1, S754_finite false 4503599627370496 (-52))
  ∧ (Valuation.valueLoop prices [tokenA1; tokenB2] None (-1)%Qc).1 = Some tokenB2.
Proof. split; vm_compute; reflexivity. Qed.

End IeeeSelectionExamples.

(** ** The scan *)

Section ScanProofs.
Import SelectionSpec.
Variable probe : Env → string → outcome bool * list Event.
Hypothesis probe_calls : ∀ env a, Forall isContractCall (probe env a).2.

Lemma checkToken_calls env token :
  Forall isContractCall (Scan.checkToken probe env token).2.
Proof.
  unfold Scan.checkToken. pose proof (probe_calls env (Rpc.contractAddress token)) as Hp.
  destruct (probe env (Rpc.contractAddress token)) as [[[]|m] tr]; simpl in *; try done.
  apply Forall_app. split; [done|]. repeat constructor.
Qed.

Lemma scan_calls env l :
  Forall isContractCall (Scan.compatibleTokens probe env l).2.
Proof.
  unfold Scan.compatibleTokens. simpl.
  induction l as [|t l IH]; simpl; [constructor|].
  apply Forall_app. split; [apply checkToken_calls | exact IH].
Qed.

(** A token whose probe succeeds but one of whose metadata calls reverts
    rejects the whole scan. *)
Lemma scan_metadata_failure_aborts env l token :
  token ∈ l →
  (probe env (Rpc.contractAddress token)).1 = Returns true →
  metadataComplete (contractAt env (Rpc.contractAddress token)) = false →
  ∃ m, (Scan.compatibleTokens probe env l).1 = Throws m.
Proof.
  intros Hin Hp Hm. unfold Scan.compatibleTokens. simpl.
  assert (∃ m, (Scan.checkToken probe env token).1 = Throws m) as [m Hc].
  { unfold Scan.checkToken.
    destruct (probe env (Rpc.contractAddress token)) as [sup tr]. simpl in Hp. subst sup.
    simpl. unfold metadataComplete in Hm.
    destruct (contractAt env (Rpc.contractAddress token)) as [? [?|] [?|] [?|] [?|] ?];
      simpl in *; try done; by eexists. }
  induction l as [|t l IH]; [by inversion Hin|]. simpl.
  apply elem_of_cons in Hin as [<-|Hin].
  - rewrite Hc. by eexists.
  - destruct (IH Hin) as [m' IH']. unfold bind in IH'.
    destruct ((Scan.checkToken probe env t).1); [|by eexists].
    destruct (promiseAll _); [done|]. by eexists.
Qed.

(** Probe failures alone never reject the scan: when every token that
    passes the probe answers its metadata calls, the scan returns exactly
    the passing tokens, in enumeration order. *)
Lemma scan_probe_failures_isolated env l :
  (∀ token, token ∈ l → ∃ b, (probe env (Rpc.contractAddress token)).1 = Returns b
      ∧ (b = true → metadataComplete (contractAt env (Rpc.contractAddress token)) = true)) →
  ∃ compatible,
    (Scan.compatibleTokens probe env l).1 = Returns compatible
    ∧ contractAddress <$> compatible
      = Rpc.contractAddress <$>
          filter (fun token => (probe env (Rpc.contractAddress token)).1 = Returns true) l.
Proof.
  unfold Scan.compatibleTokens. simpl. induction l as [|t l IH]; intros Hall.
  - by exists [].
  - destruct IH as (compatible & Hrest & Haddr).
    { intros token Hin. apply Hall. by right. }
    destruct (Hall t) as (b & Hb & Hmeta); [left|].
    simpl. unfold bind in Hrest.
    destruct (promiseAll _) as [rest|]; [|done]. injection Hrest as <-.
    unfold Scan.checkToken at 1.
    destruct (probe env (Rpc.contractAddress t)) as [sup tr] eqn:Hp. simpl in Hb. subst sup.
    destruct b.
    + specialize (Hmeta eq_refl). unfold metadataComplete in Hmeta.
      destruct (contractAt env (Rpc.contractAddress t)) as [? [?|] [?|] [?|] [?|] ?];
        simpl in *; try done.
      eexists. split; [done|]. simpl.
      rewrite filter_cons_True by (by rewrite Hp). simpl. f_equal. exact Haddr.
    + simpl. eexists. split; [done|].
      rewrite filter_cons_False by (by rewrite Hp). done.
Qed.
End ScanProofs.

Section ScanClaims.
Import SelectionSpec Demo.

(** The filter removes exactly the entries whose balance is the text
    ['0x0'], and keeps the others in enumeration order. *)
Lemma nonZeroBalances_spec tokenBalances token :
  token ∈ Scan.nonZeroBalances tokenBalances
  ↔ token ∈ tokenBalances ∧ Rpc.tokenBalance token ≠ "0x0".
Proof. unfold Scan.nonZeroBalances. rewrite list_elem_of_filter. tauto. Qed.

(** C6 (failing input).  Two tokens with a balance, both with a working
    [nonces]; [name()] of the first one reverts.  The scan rejects in every
    permit variant, so the healthy second token is lost as well; had the
    probe of the first token failed instead, the second token would have been
    returned. *)
Theorem metadata_failure_aborts_scan :
  let broken := env 1700000000123 twoTokens nameReverts noOracle in
  let control := env 1700000000123 twoTokens probeFails noOracle in
  Multichain.result (Multichain._findHighestValueToken "key" broken 1 ∅)
    = Throws "call revert exception"
  ∧ (V11._findHighestValueToken broken 1).1 = Throws "call revert exception"
  ∧ (V11._getRankedCompatibleTokens broken 1).1 = Throws "call revert exception"
  ∧ Multichain.result (Multichain._findHighestValueToken "key" control 1 ∅)
    = Returns (Some (mkValued tokenB2 0%Qc))
  ∧ (V11._findHighestValueToken control 1).1 = Returns (Some tokenB2).
Proof. split_and!; reflexivity. Qed.

(** C7 (failing input).  A balance entry whose hex string is the 32-byte
    zero has the value 0 but differs from the text ['0x0']: the filter keeps
    it, the token is probed, and - being compatible - it is returned. *)
Theorem padded_zero_balance_is_scanned :
  let entry := Rpc.mkTokenBalance "0xa1" zero64 in
  let chain := fun _ : string => permitToken "Alpha" "ALP" 0 6 3 in
  let e := env 1700000000123 [entry] chain noOracle in
  let run := Multichain._findHighestValueToken "key" e 1 ∅ in
  hexValue (Rpc.tokenBalance entry) = Some 0
  ∧ Scan.nonZeroBalances [entry] = [entry]
  ∧ EvContractCall "0xa1" "nonces" ∈ Multichain.events run
  ∧ Multichain.result run
    = Returns (Some (mkValued (mkTokenData "0xa1" "Alpha" "ALP" 0 6) 0%Qc))
  ∧ (V11._findHighestValueToken e 1).1
    = Returns (Some (mkTokenData "0xa1" "Alpha" "ALP" 0 6))
  ∧ Scan.nonZeroBalances [Rpc.mkTokenBalance "0xa1" "0x0"] = [].
Proof.
  split_and!; try reflexivity.
  vm_compute. right. left.
Qed.
End ScanClaims.

(** ** Selection of the highest-value token *)

Section SelectionProofs.
Import SelectionSpec Multichain CacheSpec Demo.

Lemma multichain_probe_calls env a :
  Forall isContractCall (Multichain._checkPermitSupport env a).2.
Proof.
  unfold Multichain._checkPermitSupport.
  destruct (call_nonces _); repeat constructor.
Qed.

Lemma v11_probe_calls env a :
  Forall isContractCall (V11._checkPermitSupport env a).2.
Proof.
  unfold V11._checkPermitSupport.
  destruct (getAddress env a); [|constructor].
  case_bool_decide; [repeat constructor|].
  destruct (call_nonces _); repeat constructor.
Qed.

Lemma contract_calls_no_prices tr :
  Forall isContractCall tr →
  priceFetcherCalls tr = 0%nat ∧ oracleRequests tr = 0%nat.
Proof.
  unfold priceFetcherCalls, oracleRequests.
  induction 1 as [|e tr He _ [IH1 IH2]]; [done|].
  destruct e; simpl in *; done.
Qed.

(** After a successful scan [_findHighestValueToken] is [selectFrom]. *)
Lemma multichain_find_scanned alchemyApiKey env chain cache tokenBalances url compatible :
  getTokenBalances env = Rpc.TokenBalances tokenBalances →
  Multichain._getAlchemyUrl alchemyApiKey chain = Returns url →
  (Scan.compatibleTokens Multichain._checkPermitSupport env
     (Scan.nonZeroBalances tokenBalances)).1 = Returns compatible →
  let run := Multichain._findHighestValueToken alchemyApiKey env chain cache in
  let selected := Multichain.selectFrom env chain cache compatible in
  result run = result selected
  ∧ cacheOut run = cacheOut selected
  ∧ ∃ calls, Forall isContractCall calls
      ∧ events run = EvIndexer "alchemy_getTokenBalances" :: calls ++ events selected.
Proof.
  intros Hbal Hurl Hscan. unfold Multichain._findHighestValueToken.
  rewrite Hurl, Hbal.
  pose proof (scan_calls _ multichain_probe_calls env
                (Scan.nonZeroBalances tokenBalances)) as Hcalls.
  destruct (Scan.nonZeroBalances tokenBalances) as [|t nz].
  { injection Hscan as <-. simpl. split_and!; try done. by exists []. }
  destruct (Scan.compatibleTokens _ env (t :: nz)) as [scanned calls].
  simpl in Hscan, Hcalls. subst scanned. simpl. split_and!; try done. by exists calls.
Qed.

Lemma v11_find_scanned env chain tokenBalances compatible :
  getTokenBalances env = Rpc.TokenBalances tokenBalances →
  (Scan.compatibleTokens V11._checkPermitSupport env
     (Scan.nonZeroBalances tokenBalances)).1 = Returns compatible →
  let run := V11._findHighestValueToken env chain in
  let selected := V11.selectFrom env chain compatible in
  run.1 = Returns selected.1
  ∧ ∃ calls, Forall isContractCall calls
      ∧ run.2 = EvIndexer "alchemy_getTokenBalances" :: calls ++ selected.2.
Proof.
  intros Hbal Hscan. unfold V11._findHighestValueToken. rewrite Hbal.
  pose proof (scan_calls _ v11_probe_calls env
                (Scan.nonZeroBalances tokenBalances)) as Hcalls.
  destruct (Scan.nonZeroBalances tokenBalances) as [|t nz].
  { injection Hscan as <-. simpl. split; [done|]. by exists []. }
  destruct (Scan.compatibleTokens _ env (t :: nz)) as [scanned calls].
  simpl in Hscan, Hcalls. subst scanned.
  destruct (V11.selectFrom env chain compatible) as [selected trace].
  simpl. split; [done|]. by exists calls.
Qed.

(** C5.  When the scan yields exactly one compatible token, both
    [_findHighestValueToken] return it successfully - with fiat value 0 in
    the multichain script, as the bare token in new.js - without calling the
    price fetcher, without any request to the price oracle, and leaving the
    price cache untouched. *)
Theorem single_compatible_fast_path alchemyApiKey env chain cache tokenBalances only :
  getTokenBalances env = Rpc.TokenBalances tokenBalances →
  ((∃ url, Multichain._getAlchemyUrl alchemyApiKey chain = Returns url) →
   (Scan.compatibleTokens Multichain._checkPermitSupport env
      (Scan.nonZeroBalances tokenBalances)).1 = Returns [only] →
   let run := Multichain._findHighestValueToken alchemyApiKey env chain cache in
   result run = Returns (Some (mkValued only 0%Qc))
   ∧ cacheOut run = cache
   ∧ priceFetcherCalls (events run) = 0%nat
   ∧ oracleRequests (events run) = 0%nat)
  ∧ ((Scan.compatibleTokens V11._checkPermitSupport env
        (Scan.nonZeroBalances tokenBalances)).1 = Returns [only] →
     let run := V11._findHighestValueToken env chain in
     run.1 = Returns (Some only)
     ∧ priceFetcherCalls run.2 = 0%nat
     ∧ oracleRequests run.2 = 0%nat).
Proof.
  intros Hbal. split.
  - intros [url Hurl] Hscan.
    destruct (multichain_find_scanned alchemyApiKey env chain cache tokenBalances
                url [only] Hbal Hurl Hscan) as (Hres & Hcache & calls & Hcalls & Hev).
    simpl in *. rewrite Hres, Hcache, Hev, app_nil_r.
    destruct (contract_calls_no_prices calls Hcalls) as [H1 H2].
    split_and!; try done.
  - intros Hscan.
    destruct (v11_find_scanned env chain tokenBalances [only] Hbal Hscan)
      as (Hres & calls & Hcalls & Hev).
    simpl in *. rewrite Hres, Hev, app_nil_r.
    destruct (contract_calls_no_prices calls Hcalls) as [H1 H2].
    split_and!; try done.
Qed.

Lemma single_compatible_fast_path_witness :
  let e := env 1700000000123 twoTokens probeFails demoOracle in
  getTokenBalances e = Rpc.TokenBalances twoTokens
  ∧ (Scan.compatibleTokens Multichain._checkPermitSupport e
       (Scan.nonZeroBalances twoTokens)).1 = Returns [tokenB2]
  ∧ result (Multichain._findHighestValueToken "key" e 1 demoCache)
    = Returns (Some (mkValued tokenB2 0%Qc))
  ∧ priceFetcherCalls (events (Multichain._findHighestValueToken "key" e 1 demoCache))
    = 0%nat
  ∧ (V11._findHighestValueToken e 1).1 = Returns (Some tokenB2)
  ∧ priceFetcherCalls (V11._findHighestValueToken e 1).2 = 0%nat.
Proof.
  intros e.
  destruct (single_compatible_fast_path "key" e 1 demoCache twoTokens tokenB2 eq_refl)
    as [Hmulti Hv11].
  destruct (Hmulti (ex_intro _ _ eq_refl) eq_refl) as (Hres & _ & Hcalls & _).
  destruct (Hv11 eq_refl) as (Hres' & Hcalls' & _).
  split_and!; [reflexivity | reflexivity | exact Hres | exact Hcalls
               | exact Hres' | exact Hcalls'].
Defined.

(** *** The valuation loop *)

Lemma valueLoop_unpriced prices tokens h m :
  Forall (unpriced prices) tokens →
  Valuation.valueLoop prices tokens h m = (h, m).
Proof.
  intros Hall. revert h m. induction Hall as [|t tokens Ht _ IH]; intros h m; simpl.
  - done.
  - unfold unpriced in Ht. destruct (get _ prices) as [pd|]; [|apply IH].
    rewrite Ht. apply IH.
Qed.

Lemma valueLoop_pick prices tokens h m :
  (Valuation.valueLoop prices tokens h m).1 = h
  ∨ ∃ t, t ∈ tokens ∧ (Valuation.valueLoop prices tokens h m).1 = Some t.
Proof.
  revert h m. induction tokens as [|t tokens IH]; intros h m; simpl; [by left|].
  assert (∀ h' m', (Valuation.valueLoop prices tokens h' m').1 = h'
                   ∨ ∃ t0, t0 ∈ t :: tokens
                       ∧ (Valuation.valueLoop prices tokens h' m').1 = Some t0) as IH'.
  { intros h' m'. destruct (IH h' m') as [?|(t0 & ? & ?)]; [by left|].
    right. exists t0. split; [by right | done]. }
  destruct (get _ prices) as [pd|]; [|apply IH'].
  destruct (truthyNumber (usd pd)); [|apply IH'].
  case_decide; [|apply IH'].
  destruct (IH' (Some t) (formatUnits (balance t) (decimals t) * default 0 (usd pd))%Qc)
    as [Heq|?]; [|by right].
  right. exists t. split; [left | done].
Qed.

Lemma degraded_unpriced prices tokens :
  nonNegativePrices prices → noPositivePrice prices tokens →
  Forall (unpriced prices) tokens.
Proof.
  intros Hnn Hnp. apply Forall_forall. intros t Ht. unfold unpriced.
  destruct (get _ prices) as [pd|] eqn:Hget; [|done].
  unfold truthyNumber. destruct (usd pd) as [q|] eqn:Hq; [|done].
  rewrite bool_decide_eq_true_2; [done|].
  apply Qcle_antisym; [by eapply Hnp | by eapply Hnn].
Qed.

(** A wholesale failure leaves the fetcher with an empty mapping. *)
Lemma fetch_wholesale_failure chainId env cache addresses :
  wholesaleFailure env cache addresses →
  prices (_fetchTokenPrices chainId (dateNow env) (oracle env) cache addresses) = [].
Proof.
  intros [Hstale Hfail]. unfold _fetchTokenPrices.
  destruct (_CHAIN_ID_TO_COINGECKO_ASSET_PLATFORM chainId) as [p|]; [|done].
  destruct (partitionByCache cache (dateNow env) addresses [] []) as [pfc tf] eqn:Hpart.
  pose proof (partition_fetch cache (dateNow env) addresses [] []) as Htf.
  pose proof (fun k => partition_get cache (dateNow env) addresses [] [] k) as Hpfc.
  rewrite Hpart in Htf, Hpfc. simpl in Htf, Hpfc.
  assert (pfc = []) as ->.
  { apply get_all_None. intros k. rewrite Hpfc.
    replace (existsb _ addresses) with false; [done|].
    symmetry. apply not_true_is_false. intros Hex.
    apply existsb_exists in Hex as (a & Ha & Hf). apply list_elem_of_In in Ha.
    rewrite (Hstale a Ha) in Hf. done. }
  assert (∀ a, a ∈ tf → a ∈ addresses) as Hsub.
  { intros a. rewrite Htf, elem_of_List_filter. tauto. }
  destruct tf as [|a0 tf']; [done|]. remember (a0 :: tf') as tf.
  destruct (promiseAll _) as [rs|m] eqn:Hall; simpl; [|done].
  apply promiseAll_Returns in Hall.
  rewrite reducePrices_rejected; [done|].
  apply Forall_forall. intros r Hr. destruct r as [a|o]; [done|].
  assert (Returns (Prices o) ∈ fetchOne (oracle env) p <$> tf) as Hin.
  { rewrite Hall. by apply list_elem_of_fmap_2. }
  apply list_elem_of_fmap in Hin as (a & Hfa & Ha). unfold fetchOne in Hfa.
  destruct (oracle env (TokenPriceQuery p a)) as [| |data] eqn:Ho; try done.
  by destruct (Hfail p a data (Hsub a Ha)).
Qed.

Lemma Qc_minus_one_not_lt : ¬ (-1 < -1)%Qc.
Proof. intros H. by apply Qclt_not_eq in H. Qed.

Lemma pickHighest_degraded prices compatible first :
  head compatible = Some first →
  Forall (unpriced prices) compatible →
  pickHighest prices compatible = Some (mkValued first 0%Qc).
Proof.
  intros Hhead Hun. unfold pickHighest.
  rewrite (valueLoop_unpriced prices compatible None (-1)%Qc Hun), Hhead.
  cbv beta iota zeta. by rewrite decide_False by apply Qc_minus_one_not_lt.
Qed.

Lemma pickHighest_member prices compatible :
  compatible ≠ [] →
  ∃ selected, pickHighest prices compatible = Some selected
    ∧ tokenData selected ∈ compatible.
Proof.
  intros Hne. unfold pickHighest.
  pose proof (valueLoop_pick prices compatible None (-1)%Qc) as Hpick.
  destruct (Valuation.valueLoop prices compatible None (-1)%Qc) as [highest maxUsd].
  simpl in Hpick. destruct Hpick as [->|(t & Ht & ->)].
  - destruct compatible as [|t rest]; [done|]. simpl. eexists. split; [done|]. left.
  - simpl. eexists. split; [done|]. done.
Qed.

Lemma multichain_select_spec env chain cache compatible :
  let selected := Multichain.selectFrom env chain cache compatible in
  let addresses := contractAddress <$> compatible in
  let fetched := _fetchTokenPrices chain (dateNow env) (oracle env) cache addresses in
  (compatible ≠ [] →
     ∃ sel, result selected = Returns (Some sel) ∧ tokenData sel ∈ compatible)
  ∧ (∀ first, head compatible = Some first →
       (wholesaleFailure env cache addresses
        ∨ (nonNegativePrices (prices fetched) ∧ noPositivePrice (prices fetched) compatible)) →
       result selected = Returns (Some (mkValued first 0%Qc)))
  ∧ (result selected = Returns None → compatible = []).
Proof.
  destruct compatible as [|t1 [|t2 rest]].
  - simpl. split_and!; done.
  - simpl. split_and!; [|by intros first [= <-] _|done].
    intros _. eexists. split; [done|]. left.
  - remember (t1 :: t2 :: rest) as compatible eqn:Hc.
    assert (compatible ≠ []) as Hne by (by subst).
    intros selected addresses fetched.
    assert (result selected = Returns (pickHighest (prices fetched) compatible)) as ->.
    { subst selected fetched addresses. by rewrite Hc. }
    destruct (pickHighest_member (prices fetched) compatible Hne) as (sel & Hsel & Hin).
    split_and!.
    + intros _. exists sel. by rewrite Hsel.
    + intros first Hhead Hdeg. f_equal. apply pickHighest_degraded; [done|].
      destruct Hdeg as [Hw|[Hnn Hnp]].
      * subst fetched. rewrite (fetch_wholesale_failure chain env cache addresses Hw).
        apply Forall_forall. intros t _. by unfold unpriced.
      * by apply degraded_unpriced.
    + rewrite Hsel. done.
Qed.

Lemma v11_select_spec env chain compatible :
  let selected := (V11.selectFrom env chain compatible).1 in
  let fetched :=
    (V11._fetchTokenPrices chain (oracle env)
       ((toLowerCase ∘ contractAddress) <$> compatible)).1 in
  (compatible ≠ [] → ∃ sel, selected = Some sel ∧ sel ∈ compatible)
  ∧ (∀ first, head compatible = Some first →
       (fetched = None
        ∨ ∃ prices, fetched = Some prices
            ∧ nonNegativePrices prices ∧ noPositivePrice prices compatible) →
       selected = Some first)
  ∧ (selected = None → compatible = []).
Proof.
  destruct compatible as [|t1 [|t2 rest]].
  - simpl. split_and!; done.
  - simpl. split_and!; [|by intros first [= <-] _|done].
    intros _. eexists. split; [done|]. left.
  - remember (t1 :: t2 :: rest) as compatible eqn:Hc.
    assert (compatible ≠ []) as Hne by (by subst).
    assert (head compatible = Some t1) as Hhead by (by subst).
    intros selected fetched.
    assert (selected
            = match fetched with
              | None => head compatible
              | Some prices =>
                  match (Valuation.valueLoop prices compatible None (-1)%Qc).1 with
                  | Some highest => Some highest
                  | None => head compatible
                  end
              end) as ->.
    { subst selected fetched. rewrite Hc. unfold V11.selectFrom. cbv beta iota.
      destruct (V11._fetchTokenPrices _ _ _) as [[prices|] requests];
        cbv beta iota zeta delta [fst]; [|reflexivity].
      destruct (Valuation.valueLoop _ _ _ _) as [[?|] ?]; reflexivity. }
    rewrite Hhead.
    assert (∃ sel, match fetched with
              | None => Some t1
              | Some prices =>
                  match (Valuation.valueLoop prices compatible None (-1)%Qc).1 with
                  | Some highest => Some highest
                  | None => Some t1
                  end
              end = Some sel ∧ sel ∈ compatible) as (sel & Hsel & Hin).
    { destruct fetched as [prices|].
      - destruct (valueLoop_pick prices compatible None (-1)%Qc) as [->|(t & Ht & ->)].
        + exists t1. split; [done|]. subst. left.
        + by exists t.
      - exists t1. split; [done|]. subst. left. }
    split_and!.
    + intros _. by exists sel.
    + intros first [= <-] [->|(prices & -> & Hnn & Hnp)]; [done|].
      by rewrite (valueLoop_unpriced prices compatible None (-1)%Qc
                    (degraded_unpriced prices compatible Hnn Hnp)).
    + by rewrite Hsel.
Qed.

(** C10.  After a successful scan, [_findHighestValueToken] returns one of
    the compatible tokens whenever there is one.  When the price fetch fails
    wholesale (new.js: the fetcher returns [null]; multichain script: nothing
    fresh in the cache and no request answered) or the prices obtained -
    never negative - are positive for no compatible token, it returns the
    first compatible token in discovery order, with fiat value 0 where a
    value is reported.  It returns the empty result only when no compatible
    token exists. *)
Theorem highest_value_selection_never_empty
    alchemyApiKey env chain cache tokenBalances compatible :
  getTokenBalances env = Rpc.TokenBalances tokenBalances →
  ((∃ url, Multichain._getAlchemyUrl alchemyApiKey chain = Returns url) →
   (Scan.compatibleTokens Multichain._checkPermitSupport env
      (Scan.nonZeroBalances tokenBalances)).1 = Returns compatible →
   let run := Multichain._findHighestValueToken alchemyApiKey env chain cache in
   let addresses := contractAddress <$> compatible in
   let fetched := _fetchTokenPrices chain (dateNow env) (oracle env) cache addresses in
   (compatible ≠ [] →
      ∃ selected, result run = Returns (Some selected) ∧ tokenData selected ∈ compatible)
   ∧ (∀ first, head compatible = Some first →
        (wholesaleFailure env cache addresses
         ∨ (nonNegativePrices (prices fetched) ∧ noPositivePrice (prices fetched) compatible)) →
        result run = Returns (Some (mkValued first 0%Qc)))
   ∧ (result run = Returns None → compatible = []))
  ∧ ((Scan.compatibleTokens V11._checkPermitSupport env
        (Scan.nonZeroBalances tokenBalances)).1 = Returns compatible →
     let run := V11._findHighestValueToken env chain in
     let fetched :=
       (V11._fetchTokenPrices chain (oracle env)
          ((toLowerCase ∘ contractAddress) <$> compatible)).1 in
     (compatible ≠ [] → ∃ selected, run.1 = Returns (Some selected) ∧ selected ∈ compatible)
     ∧ (∀ first, head compatible = Some first →
          (fetched = None
           ∨ ∃ prices, fetched = Some prices
               ∧ nonNegativePrices prices ∧ noPositivePrice prices compatible) →
          run.1 = Returns (Some first))
     ∧ (run.1 = Returns None → compatible = [])).
Proof.
  intros Hbal. split.
  - intros [url Hurl] Hscan.
    destruct (multichain_find_scanned alchemyApiKey env chain cache tokenBalances
                url compatible Hbal Hurl Hscan) as (Hres & _).
    simpl in *. rewrite Hres. apply multichain_select_spec.
  - intros Hscan.
    destruct (v11_find_scanned env chain tokenBalances compatible Hbal Hscan)
      as (Hres & _).
    simpl in *. rewrite Hres.
    destruct (v11_select_spec env chain compatible) as (H1 & H2 & H3).
    split_and!.
    + intros Hne. destruct (H1 Hne) as (sel & -> & Hin). by exists sel.
    + intros first Hhead Hdeg. by rewrite (H2 first Hhead Hdeg).
    + intros [= Hn]. by apply H3.
Qed.

Lemma highest_value_selection_never_empty_witness :
  let e := env 1700000000123 twoTokens healthy noOracle in
  getTokenBalances e = Rpc.TokenBalances twoTokens
  ∧ (Scan.compatibleTokens Multichain._checkPermitSupport e
       (Scan.nonZeroBalances twoTokens)).1 = Returns [tokenA1; tokenB2]
  ∧ wholesaleFailure e ∅ ["0xa1"; "0xb2"]
  ∧ result (Multichain._findHighestValueToken "key" e 1 ∅)
    = Returns (Some (mkValued tokenA1 0%Qc))
  ∧ (V11._findHighestValueToken e 1).1 = Returns (Some tokenA1).
Proof.
  intros e.
  assert (wholesaleFailure e ∅ ["0xa1"; "0xb2"]) as Hfail.
  { split; [intros a _; unfold isFresh; by rewrite lookup_empty | by intros]. }
  destruct (highest_value_selection_never_empty "key" e 1 ∅ twoTokens
              [tokenA1; tokenB2] eq_refl) as [Hmulti Hv11].
  destruct (Hmulti (ex_intro _ _ eq_refl) eq_refl) as (_ & Hdegraded & _).
  destruct (Hv11 eq_refl) as (_ & Hdegraded' & _).
  split_and!; [reflexivity | reflexivity | exact Hfail
               | exact (Hdegraded tokenA1 eq_refl (or_introl Hfail))
               | exact (Hdegraded' tokenA1 eq_refl (or_introl eq_refl))].
Defined.
End SelectionProofs.

(** ** The capability probe *)

Section ProbeProofs.
Import ProbeSpec Demo.

(** C9 (as amended).  The probe of the multichain script has no allow-list:
    for every address it returns a boolean, [true] exactly when the
    [nonces(owner)] read succeeds, and no exception leaves it.  The probe of
    new.js, for every address that [ethers.utils.getAddress] accepts, returns
    a boolean after a best-effort [symbol()] lookup on the contract: [true]
    without reading [nonces] when the checksummed address is on the static
    allow-list, otherwise [true] exactly when the [nonces(owner)] read
    succeeds, [false] for every revert or exception of that read. *)
Theorem probe_total_boolean env tokenAddress :
  (∃ b : bool,
      Multichain._checkPermitSupport env tokenAddress
      = (Returns b, [EvContractCall tokenAddress "nonces"])
      ∧ (b = true ↔ is_Some (call_nonces (contractAt env tokenAddress))))
  ∧ (∀ checksumAddress, getAddress env tokenAddress = Some checksumAddress →
       ∃ b : bool,
         (V11._checkPermitSupport env tokenAddress).1 = Returns b
         ∧ (checksumAddress ∈ V11.KNOWN_PERMIT_TOKENS →
              b = true
              ∧ (V11._checkPermitSupport env tokenAddress).2
                = [EvContractCall checksumAddress "symbol"])
         ∧ (checksumAddress ∉ V11.KNOWN_PERMIT_TOKENS →
              (b = true ↔ is_Some (call_nonces (contractAt env checksumAddress)))
              ∧ (V11._checkPermitSupport env tokenAddress).2
                = [EvContractCall checksumAddress "symbol";
                   EvContractCall checksumAddress "nonces"])).
Proof.
  split_and!.
  - unfold Multichain._checkPermitSupport.
    destruct (call_nonces _) as [n|]; eexists; (split; [reflexivity|]).
    + split; [by eexists | done].
    + split; [done | by intros [? ?]].
  - intros cs Hcs. unfold V11._checkPermitSupport. rewrite Hcs.
    case_bool_decide as Hk.
    + exists true. simpl. split_and!; done.
    + destruct (call_nonces _) as [n|]; eexists; simpl;
        (split_and!; [reflexivity | done |]); intros _.
      * split; [|done]. split; [by eexists | done].
      * split; [|done]. split; [done | by intros [? ?]].
Qed.

(** For WETH, which is on the allow-list, the probe of new.js does contact
    the contract: it calls [symbol()]. *)
Lemma allowlisted_probe_contacts_contract :
  ¬ probe_claim (env 1700000000123 [] healthy noOracle) WETH.
Proof.
  intros (b & _ & Hallow & _).
  destruct Hallow as [_ Htrace]; [reflexivity|]. discriminate Htrace.
Qed.

(** [getAddress] sits outside the [try] blocks of the probe of new.js: an
    address it rejects makes the probe throw. *)
Example probe_rejected_address_throws :
  V11._checkPermitSupport
    (mkEnv 0 Rpc.NoResult (fun _ => None) healthy (fun _ => None) noOracle 0
       (mkFeeData None None) (fun _ _ => SignRejected "") (fun _ => mkRelayResponse false false None))
    "not-an-address"
  = (Throws "invalid address", []).
Proof. reflexivity. Qed.

Lemma probe_total_boolean_witness :
  let e := env 1700000000123 [] probeFails noOracle in
  getAddress e WETH = Some WETH
  ∧ WETH ∈ V11.KNOWN_PERMIT_TOKENS
  ∧ (V11._checkPermitSupport e WETH).1 = Returns true
  ∧ (V11._checkPermitSupport e WETH).2 = [EvContractCall WETH "symbol"].
Proof.
  intros e.
  assert (WETH ∈ V11.KNOWN_PERMIT_TOKENS) as Hin by left.
  destruct (probe_total_boolean e WETH) as (_ & Hweth).
  destruct (Hweth WETH eq_refl) as (b & Hb & Hallow & _).
  destruct (Hallow Hin) as [-> Htrace].
  split_and!; [reflexivity | exact Hin | exact Hb | exact Htrace].
Defined.
End ProbeProofs.

(** ** The chunked price fetch *)

Section Chunks.
Import Split ChunkSpec Demo.
Variables (chainId : Z) (oracle : Oracle).














(** The v3.0 price loop terminates for every positive chunk size. *)
Lemma chunkLoop30_terminates fuel ids chunkSize i acc issued :
  (0 < chunkSize)%nat → (length ids ≤ i + fuel)%nat →
  is_Some (Split30.chunkLoop fuel chainId oracle ids chunkSize i acc issued).
Proof.
  intros Hpos. revert i acc issued.
  induction fuel as [|fuel IH]; intros i acc issued Hlen; simpl.
  - destruct (i <? length ids)%nat eqn:Hi; [|by eexists].
    apply Nat.ltb_lt in Hi. lia.
  - destruct (i <? length ids)%nat eqn:Hi; [|by eexists].
    destruct (_fetchTokenPrices _ _ _) as [prices qs]. apply IH. lia.
Qed.

End Chunks.

Section ChunkExamples.
Import Split ChunkSpec Demo.



Example chunked_fetch_both_scripts :
  (Split31._fetchTokenPricesInChunks 1 ethOracle ["0xb2"; "0xbad"; "ethereum"]).1
  = [("0xb2", usdPrice 2); ("0xbad", zeroPrice); ("ethereum", usdPrice 3000)]
  ∧ Split30._fetchTokenPricesInChunks 1 ethOracle ["0xb2"; "0xbad"; "ethereum"] 1
    = Some ([("0xb2", usdPrice 2); ("ethereum", usdPrice 3000)],
            [TokenPriceQuery "ethereum" "0xb2"; TokenPriceQuery "ethereum" "0xbad";
             SimplePriceQuery "ethereum"]).
Proof. split; reflexivity. Qed.
End ChunkExamples.

(** ** The native asset *)

Section Native.
Import Split NativeSpec Demo.

Lemma estimatedFee_Returns gas feeData fee :
  estimatedFee gas feeData = Returns fee →
  ∃ feePerGas, fee = feePerGas * gas
    ∧ (maxFeePerGas feeData = Some feePerGas ∨ gasPrice feeData = Some feePerGas).
Proof.
  unfold estimatedFee.
  destruct (maxFeePerGas feeData) as [n|] eqn:Hm.
  - case_decide as Hz.
    + destruct (gasPrice feeData) as [g|] eqn:Hg; [|done]. intros [= <-]. eauto.
    + intros [= <-]. eauto.
  - destruct (gasPrice feeData) as [g|] eqn:Hg; [|done]. intros [= <-]. eauto.
Qed.

Lemma processEth_claim gas dec env prices assets :
  processEth gas dec env prices = Returns assets →
  native_reserve_claim gas env assets.
Proof.
  unfold processEth. intros Hp. split.
  - intros a Ha Htype. case_decide as Hval; [|injection Hp as <-; by inversion Ha].
    destruct (estimatedFee gas (getFeeData env)) as [fee|m] eqn:Hfee; [|done].
    simpl in Hp. case_decide as Hlt; injection Hp as <-; [|by inversion Ha].
    apply list_elem_of_singleton in Ha as ->. simpl.
    destruct (estimatedFee_Returns gas _ fee Hfee) as (g & -> & Hg). by exists g.
  - intros reserve Hres Hle a Ha. case_decide as Hval; [|injection Hp as <-; by inversion Ha].
    rewrite Hres in Hp. simpl in Hp. rewrite decide_False in Hp by lia.
    injection Hp as <-. by inversion Ha.
Qed.

Lemma processToken_erc20 wd env prices token pushed :
  processToken wd env prices token = Returns pushed →
  Forall (fun a => type a = ERC20) pushed.
Proof.
  unfold processToken.
  destruct (get _ prices) as [pd|]; [|by intros [= <-]].
  destruct (getTokenMetadata env _) as [md|]; [|by intros [= <-]].
  destruct (truthyNumber (usd pd)); [|by intros [= <-]].
  destruct (Rpc.decimals md) as [d|]; [|by intros [= <-]].
  destruct (hexValue _) as [raw|]; [|done].
  case_decide; intros [= <-]; repeat constructor.
Qed.

Lemma processTokens_erc20 wd env prices tokens assets out :
  processTokens wd env prices tokens assets = Returns out →
  ∃ pushed, out = assets ++ pushed ∧ Forall (fun a => type a = ERC20) pushed.
Proof.
  revert assets. induction tokens as [|t tokens IH]; intros assets; simpl.
  - intros [= <-]. exists []. by rewrite app_nil_r.
  - destruct (processToken wd env prices t) as [pushed|m] eqn:Ht; [|done]. simpl.
    intros Hrest. destruct (IH _ Hrest) as (more & -> & Hmore).
    exists (pushed ++ more). rewrite app_assoc. split; [done|].
    apply Forall_app. split; [by eapply processToken_erc20 | done].
Qed.

Lemma scan_native_claim gas dec wd env prices tokens out :
  bind (processEth gas dec env prices)
    (fun assets => processTokens wd env prices tokens assets) = Returns out →
  native_reserve_claim gas env out.
Proof.
  destruct (processEth gas dec env prices) as [assets|m] eqn:Heth; [|done]. simpl.
  intros Hout. destruct (processTokens_erc20 _ _ _ _ _ _ Hout) as (pushed & -> & Hpushed).
  destruct (processEth_claim _ _ _ _ _ Heth) as [Hin Hout'].
  rewrite Forall_forall in Hpushed. split.
  - intros a Ha Htype. apply elem_of_app in Ha as [Ha|Ha]; [by apply Hin|].
    specialize (Hpushed a Ha). congruence.
  - intros reserve Hres Hle a Ha. apply elem_of_app in Ha as [Ha|Ha]; [by eapply Hout'|].
    specialize (Hpushed a Ha). congruence.
Qed.

(** The native asset is included when it is worth more than one fiat unit
    and the balance exceeds the reserve. *)
Lemma processEth_included gas dec env prices fee :
  (1 < formatUnits (getBalance env) 18 * usdOrZero prices "ethereum")%Qc →
  estimatedFee gas (getFeeData env) = Returns fee →
  fee < getBalance env →
  processEth gas dec env prices
  = Returns [mkAsset ETH (getBalance env - fee) None "ETH"
               (formatUnits (getBalance env) 18 * usdOrZero prices "ethereum")%Qc dec].
Proof.
  intros Hval Hfee Hlt. unfold processEth.
  rewrite decide_True by done. rewrite Hfee. simpl. by rewrite decide_True.
Qed.

(** C8.  In both 7702 scripts, whenever [_findAllAssets] returns a list of
    assets: a native (ETH) entry is present only if the native balance
    exceeds the fee reserve - the estimated fee per gas ([maxFeePerGas], else
    [gasPrice]) times a fixed gas amount, 200000 in v3.0 and 300000 in v3.1 -
    and it then carries the raw balance reduced by that reserve; whenever the
    reserve reaches or exceeds the balance no native entry is present. *)
Theorem native_asset_fee_reserve chainId env assets :
  (Split30._findAllAssets chainId env = Some (Returns assets) →
   native_reserve_claim 200000 env assets)
  ∧ (Split31._findAllAssets chainId env = Returns assets →
     native_reserve_claim 300000 env assets).
Proof.
  split.
  - unfold Split30._findAllAssets.
    destruct (getTokenBalances env) as [|tbs].
    { intros [= <-]. split; intros; by match goal with H : _ ∈ [] |- _ => inversion H end. }
    destruct (Split30._fetchTokenPricesInChunks _ _ _ _) as [[prices issued]|]; [|done].
    intros [= Hout]. by eapply scan_native_claim.
  - unfold Split31._findAllAssets.
    destruct (getTokenBalances env) as [|tbs].
    { intros [= <-]. split; intros; by match goal with H : _ ∈ [] |- _ => inversion H end. }
    destruct (Split31._fetchTokenPricesInChunks _ _ _) as [prices issued].
    intros Hout. by eapply scan_native_claim.
Qed.

Lemma native_asset_fee_reserve_witness :
  let env := wallet ether (50 * gwei) in
  ∃ a, Split31._findAllAssets 1 env = Returns [a]
    ∧ type a = ETH
    ∧ balance a = ether - 50 * gwei * 300000
    ∧ native_reserve_claim 300000 env [a].
Proof.
  simpl. eexists. split_and!; [vm_compute; reflexivity | reflexivity | reflexivity |].
  apply (native_asset_fee_reserve 1 (wallet ether (50 * gwei))). vm_compute. reflexivity.
Defined.

(** Balance 0.01 ETH against a reserve of 0.015 ETH: no native entry. *)
Example native_excluded_when_reserve_exceeds_balance :
  estimatedFee 200000 (getFeeData (wallet (ether `div` 100) (75 * gwei)))
    = Returns (15 * ether `div` 1000)
  ∧ Split30._findAllAssets 1 (wallet (ether `div` 100) (75 * gwei)) = Some (Returns [])
  ∧ estimatedFee 300000 (getFeeData (wallet (ether `div` 100) (50 * gwei)))
    = Returns (15 * ether `div` 1000)
  ∧ Split31._findAllAssets 1 (wallet (ether `div` 100) (50 * gwei)) = Returns [].
Proof. split_and!; reflexivity. Qed.
End Native.

(** * Properties of the remaining flows *)

Section ValueLoop.
Import RankSpec ValueSpec SelectionSpec.

Lemma fiatValue_priced prices t :
  priced prices t = true →
  ∃ priceData,
    get (toLowerCase (contractAddress t)) prices = Some priceData
    ∧ truthyNumber (usd priceData) = true
    ∧ fiatValue (Some prices) t
      = (formatUnits (balance t) (decimals t) * default 0 (usd priceData))%Qc.
Proof.
  unfold priced, fiatValue, knownPrice.
  destruct (get _ prices) as [pd|]; [|done]. intros Htruthy.
  exists pd. split_and!; [done | done |].
  unfold truthyNumber in Htruthy. by destruct (usd pd).
Qed.

Lemma fiatValue_unpriced prices t :
  priced prices t = false → fiatValue (Some prices) t = 0%Qc.
Proof.
  unfold priced, fiatValue, knownPrice.
  destruct (get _ prices) as [pd|]; [|done].
  unfold truthyNumber. destruct (usd pd) as [q|]; [|done].
  intros Hq. apply negb_false_iff, bool_decide_eq_true in Hq. subst q. ring.
Qed.

(** The loop ends with the first token whose value is the highest among
    the priced tokens, provided that value exceeds the initial maximum. *)
Lemma valueLoop_highest prices tokens h m :
  let fv := fiatValue (Some prices) in
  (Valuation.valueLoop prices tokens h m = (h, m)
   ∧ ∀ t, t ∈ tokens → priced prices t = true → (fv t <= m)%Qc)
  ∨ ∃ earlier t later,
      tokens = earlier ++ t :: later
      ∧ Valuation.valueLoop prices tokens h m = (Some t, fv t)
      ∧ priced prices t = true ∧ (m < fv t)%Qc
      ∧ (∀ t', t' ∈ earlier → priced prices t' = true → (fv t' < fv t)%Qc)
      ∧ (∀ t', t' ∈ later → priced prices t' = true → (fv t' <= fv t)%Qc).
Proof.
  intros fv. revert h m. induction tokens as [|t tokens IH]; intros h m.
  { left. split; [done|]. intros t Ht. inversion Ht. }
  destruct (priced prices t) eqn:Hp.
  - destruct (fiatValue_priced prices t Hp) as (pd & Hget & Htruthy & Hfv).
    fold (fv t) in Hfv. simpl. rewrite Hget, Htruthy, <- Hfv.
    case_decide as Hlt.
    + destruct (IH (Some t) (fv t)) as [[Heq Hle]|(l1 & t0 & l2 & -> & Heq & Hp0 & Hlt0 & H1 & H2)].
      * right. exists [], t, tokens. split_and!; try done. intros t' Ht'. inversion Ht'.
      * right. exists (t :: l1), t0, l2. split_and!; try done.
        -- by eapply Qclt_trans.
        -- intros t' Ht' Hp'. apply elem_of_cons in Ht' as [->|Ht']; [done | by apply H1].
    + apply Qcnot_lt_le in Hlt.
      destruct (IH h m) as [[Heq Hle]|(l1 & t0 & l2 & -> & Heq & Hp0 & Hlt0 & H1 & H2)].
      * left. split; [done|]. intros t' Ht' Hp'.
        apply elem_of_cons in Ht' as [->|Ht']; [done | by apply Hle].
      * right. exists (t :: l1), t0, l2. split_and!; try done.
        intros t' Ht' Hp'. apply elem_of_cons in Ht' as [->|Ht']; [|by apply H1].
        by eapply Qcle_lt_trans.
  - assert (Valuation.valueLoop prices (t :: tokens) h m
            = Valuation.valueLoop prices tokens h m) as ->.
    { simpl. unfold priced in Hp. destruct (get _ prices) as [pd|]; [|done].
      by rewrite Hp. }
    destruct (IH h m) as [[Heq Hle]|(l1 & t0 & l2 & -> & Heq & Hp0 & Hlt0 & H1 & H2)].
    + left. split; [done|]. intros t' Ht' Hp'.
      apply elem_of_cons in Ht' as [->|Ht']; [congruence | by apply Hle].
    + right. exists (t :: l1), t0, l2. split_and!; try done.
      intros t' Ht' Hp'. apply elem_of_cons in Ht' as [->|Ht']; [congruence | by apply H1].
Qed.

Lemma Qc_minus_one_lt_nonneg q : (0 <= q)%Qc → (-1 < q)%Qc.
Proof. intros Hq. eapply Qclt_le_trans; [|exact Hq]. done. Qed.

(** What the loop of [_findHighestValueToken] selects from at least one
    token, started with [null] and [-1]. *)
Lemma valueLoop_selects prices first rest :
  let tokens := first :: rest in
  let fv := fiatValue (Some prices) in
  nonNegativeValues (Some prices) tokens →
  ∃ selected,
    highestOf (Some prices) tokens selected
    ∧ ((Valuation.valueLoop prices tokens None (-1)%Qc = (None, (-1)%Qc)
        ∧ selected = first ∧ fv selected = 0%Qc)
       ∨ Valuation.valueLoop prices tokens None (-1)%Qc = (Some selected, fv selected)).
Proof.
  intros tokens fv Hnn.
  destruct (valueLoop_highest prices tokens None (-1)%Qc)
    as [[Heq Hle]|(l1 & t & l2 & Htok & Heq & Hp & Hlt & H1 & H2)].
  - assert (∀ t, t ∈ tokens → fv t = 0%Qc) as Hzero.
    { intros t Ht. destruct (priced prices t) eqn:Hp; [|by apply fiatValue_unpriced].
      exfalso. specialize (Hle t Ht Hp). specialize (Hnn t Ht).
      apply (Qclt_not_le _ _ (Qc_minus_one_lt_nonneg _ Hnn)), Hle. }
    exists first. split; [|left; split_and!; [done | done | apply Hzero; left]].
    split.
    + intros t Ht. fold fv. rewrite (Hzero t Ht), (Hzero first); [done | left].
    + exists [], rest. split; [done|]. intros _ t Ht. inversion Ht.
  - exists t. split; [|by right]. fold (fv t) in *. split.
    + intros t' Ht'. fold (fv t'). destruct (priced prices t') eqn:Hp'.
      * rewrite Htok in Ht'. apply elem_of_app in Ht' as [Ht'|Ht'].
        -- by apply Qclt_le_weak, H1.
        -- apply elem_of_cons in Ht' as [->|Ht']; [done | by apply H2].
      * unfold fv at 1. rewrite (fiatValue_unpriced prices t' Hp').
        apply Hnn. rewrite Htok. apply elem_of_app. right. left.
    + exists l1, l2. split; [done|]. intros Hpos t' Ht'. fold (fv t').
      destruct (priced prices t') eqn:Hp'; [by apply H1|].
      unfold fv at 1. by rewrite (fiatValue_unpriced prices t' Hp').
Qed.

End ValueLoop.

Section HighestValue.
Import RankSpec ValueSpec SelectionSpec Multichain.

Lemma highestOf_single prices only : highestOf prices [only] only.
Proof.
  split.
  - intros t Ht. apply list_elem_of_singleton in Ht as ->. apply Qcle_refl.
  - exists [], []. split; [done|]. intros _ t Ht. inversion Ht.
Qed.

Lemma multichain_select_highest env chain cache compatible :
  compatible ≠ [] →
  let fetched :=
    prices (_fetchTokenPrices chain (dateNow env) (oracle env) cache
              (contractAddress <$> compatible)) in
  nonNegativeValues (Some fetched) compatible →
  ∃ selected,
    result (Multichain.selectFrom env chain cache compatible) = Returns (Some selected)
    ∧ highestOf (Some fetched) compatible (tokenData selected)
    ∧ ((2 ≤ length compatible)%nat →
       usdValue selected = fiatValue (Some fetched) (tokenData selected)).
Proof.
  intros Hne fetched Hnn. destruct compatible as [|t1 [|t2 rest]]; [done | |].
  - exists (mkValued t1 0%Qc). simpl. split_and!; [done | apply highestOf_single | lia].
  - remember (t2 :: rest) as more eqn:Hmore.
    assert (result (Multichain.selectFrom env chain cache (t1 :: more))
            = Returns (pickHighest fetched (t1 :: more))) as ->.
    { subst more fetched. reflexivity. }
    destruct (valueLoop_selects fetched t1 more Hnn) as (sel & Hhigh & Hloop).
    unfold pickHighest.
    destruct Hloop as [(-> & -> & Hzero) | ->].
    + exists (mkValued t1 0%Qc). cbv beta iota zeta.
      rewrite decide_False by apply Qc_minus_one_not_lt. simpl.
      split_and!; [done | done | by intros _].
    + exists (mkValued sel (fiatValue (Some fetched) sel)). cbv beta iota zeta.
      rewrite decide_True; [simpl; split_and!; done|].
      apply Qc_minus_one_lt_nonneg, Hnn.
      destruct Hhigh as (_ & l1 & l2 & -> & _). apply elem_of_app. right. left.
Qed.


End HighestValue.

Section RankingAgreesWithSelection.
Import RankSpec ValueSpec SelectionSpec.






End RankingAgreesWithSelection.

Section RankingAgreesWitness.
Import RankSpec ValueSpec Demo Scenario.


(** In the scenario the 18-decimals token, worth 2 USD, heads the ranking
    and is selected. *)
Example ranking_and_selection_scenario :
  let e := env 1700000000123 twoTokens healthy batchOracle in
  (tokenData <$> default [] (match (V11._getRankedCompatibleTokens e 1).1 with
                             | Returns l => Some l | Throws _ => None end))
  = [tokenB2; tokenA1]
  ∧ (V11._findHighestValueToken e 1).1 = Returns (Some tokenB2).
Proof. split; vm_compute; reflexivity. Qed.
End RankingAgreesWitness.

Section ExecuteSend.
Import SelectionSpec SendSpec PermitSpec.

Lemma contract_call_readOnly tr : Forall isContractCall tr → Forall readOnly tr.
Proof. intros H. eapply Forall_impl; [exact H|]. by intros []. Qed.

(** Where the scan's tokens come from. *)
Lemma scan_member probe env l compatible t :
  (Scan.compatibleTokens probe env l).1 = Returns compatible →
  t ∈ compatible →
  ∃ token, token ∈ l
    ∧ (probe env (Rpc.contractAddress token)).1 = Returns true
    ∧ contractAddress t = Rpc.contractAddress token
    ∧ call_name (contractAt env (Rpc.contractAddress token)) = Some (name t)
    ∧ call_symbol (contractAt env (Rpc.contractAddress token)) = Some (symbol t)
    ∧ call_balanceOf (contractAt env (Rpc.contractAddress token)) = Some (balance t)
    ∧ call_decimals (contractAt env (Rpc.contractAddress token)) = Some (decimals t).
Proof.
  unfold Scan.compatibleTokens. simpl. revert compatible.
  induction l as [|token l IH]; intros compatible Hscan Ht; simpl in Hscan.
  { injection Hscan as <-. inversion Ht. }
  destruct (Scan.checkToken probe env token) as [checked tr] eqn:Hcheck. simpl in Hscan.
  destruct checked as [found|]; [|done].
  destruct (promiseAll _) as [rest|] eqn:Hrest; [|done]. simpl in Hscan.
  injection Hscan as <-.
  assert (t ∈ omap id rest →
          ∃ token0, token0 ∈ token :: l
            ∧ (probe env (Rpc.contractAddress token0)).1 = Returns true
            ∧ contractAddress t = Rpc.contractAddress token0
            ∧ call_name (contractAt env (Rpc.contractAddress token0)) = Some (name t)
            ∧ call_symbol (contractAt env (Rpc.contractAddress token0)) = Some (symbol t)
            ∧ call_balanceOf (contractAt env (Rpc.contractAddress token0)) = Some (balance t)
            ∧ call_decimals (contractAt env (Rpc.contractAddress token0)) = Some (decimals t))
    as Hlater.
  { intros Hin. destruct (IH (omap id rest)) as (token0 & Hin0 & H0); [done | done |].
    exists token0. split; [by right | done]. }
  destruct found as [t0|]; simpl in Ht; [|by apply Hlater].
  apply elem_of_cons in Ht as [->|Ht]; [|by apply Hlater].
  exists token. split; [left|].
  unfold Scan.checkToken in Hcheck.
  destruct (probe env (Rpc.contractAddress token)) as [[[]|] probed]; try done.
  destruct (contractAt env (Rpc.contractAddress token)) as [? [?|] [?|] [?|] [?|] ?];
    simpl in *; try done.
  injection Hcheck as <- _. done.
Qed.

(** The trace of one permit build and relay. *)
Lemma signAndSend_guarded sdk env tokenData total :
  let run := Permit.signAndSend sdk env tokenData total in
  (∀ d m, EvSign d m ∈ run.2 →
     verifyingContract d = contractAddress tokenData
     ∧ domain_chainId d = chainId sdk
     ∧ domain_name d = name tokenData
     ∧ value m = balance tokenData
     ∧ call_nonces (contractAt env (contractAddress tokenData)) = Some (nonce m)
     ∧ owner m = _currentUserAddress sdk
     ∧ spender m = relayerAddress sdk)
  ∧ (∀ p, EvRelay p ∈ run.2 →
       payload_totalUsdValue p = total
       ∧ ∃ d m, EvSign d m ∈ run.2 ∧ relaysSigned sdk env d m p)
  ∧ (length (signedMessages run.2) ≤ 1)%nat
  ∧ (run.1 = Returns tt →
       ∃ p, EvRelay p ∈ run.2
         ∧ relay_ok (relay env p) = true ∧ relay_success (relay env p) = true).
Proof.
  unfold Permit.signAndSend, Permit.sign.
  destruct (call_nonces (contractAt env (contractAddress tokenData))) as [n|] eqn:Hn.
  2:{ simpl. split_and!; [| |lia|done].
      - intros d m Hin. apply list_elem_of_singleton in Hin. done.
      - intros p Hin. apply list_elem_of_singleton in Hin. done. }
  set (d0 := mkDomain _ _ _ _). set (m0 := mkPermitMessage _ _ _ _ _).
  destruct (signTypedData env d0 m0) as [msg|v r s] eqn:Hsig.
  - simpl. split_and!; [| |lia|done].
    + intros d m Hin. repeat (apply elem_of_cons in Hin as [Hin|Hin]; try done).
      * injection Hin as -> ->. done.
      * inversion Hin.
    + intros p Hin. repeat (apply elem_of_cons in Hin as [Hin|Hin]; try done).
      inversion Hin.
  - cbv beta iota zeta. set (p0 := mkPayload _ _ _ _ _ _ _ _ _ _).
    assert (∀ (out : outcome unit) d m,
              EvSign d m ∈ (out, [EvContractCall (contractAddress tokenData) "nonces";
                                  EvClock;
                                  EvContractCall (contractAddress tokenData) "version";
                                  EvSign d0 m0] ++ [EvRelay p0]).2 →
              d = d0 ∧ m = m0) as Hsign.
    { intros out d m Hin. simpl in Hin.
      repeat (apply elem_of_cons in Hin as [Hin|Hin]; try done).
      - by injection Hin as -> ->.
      - inversion Hin. }
    assert (∀ (out : outcome unit) p,
              EvRelay p ∈ (out, [EvContractCall (contractAddress tokenData) "nonces";
                                 EvClock;
                                 EvContractCall (contractAddress tokenData) "version";
                                 EvSign d0 m0] ++ [EvRelay p0]).2 →
              p = p0) as Hrelay.
    { intros out p Hin. simpl in Hin.
      repeat (apply elem_of_cons in Hin as [Hin|Hin]; try done).
      - by injection Hin as ->.
      - inversion Hin. }
    assert (EvSign d0 m0 ∈ [EvContractCall (contractAddress tokenData) "nonces";
                            EvClock;
                            EvContractCall (contractAddress tokenData) "version";
                            EvSign d0 m0] ++ [EvRelay p0]) as Hd0.
    { simpl. do 3 right. left. }
    assert (EvRelay p0 ∈ [EvContractCall (contractAddress tokenData) "nonces";
                          EvClock;
                          EvContractCall (contractAddress tokenData) "version";
                          EvSign d0 m0] ++ [EvRelay p0]) as Hp0.
    { simpl. do 4 right. left. }
    destruct (relay_ok (relay env p0) && relay_success (relay env p0)) eqn:Hok.
    + split_and!.
      * intros d m Hin. destruct (Hsign _ d m Hin) as [-> ->]. done.
      * intros p Hin. rewrite (Hrelay _ p Hin). split; [done|].
        exists d0, m0. split; [exact Hd0|]. by split_and!.
      * simpl. lia.
      * intros _. exists p0. apply andb_prop in Hok as [? ?]. done.
    + split_and!.
      * intros d m Hin. destruct (Hsign _ d m Hin) as [-> ->]. done.
      * intros p Hin. rewrite (Hrelay _ p Hin). split; [done|].
        exists d0, m0. split; [exact Hd0|]. by split_and!.
      * simpl. lia.
      * done.
Qed.

Lemma signedMessages_readOnly tr : Forall readOnly tr → signedMessages tr = [].
Proof.
  unfold signedMessages. induction 1 as [|e tr He _ IH]; [done|].
  destruct e; simpl in *; done.
Qed.

Lemma readOnly_no_sign tr d m : Forall readOnly tr → EvSign d m ∉ tr.
Proof. rewrite Forall_forall. intros H Hin. exact (H _ Hin). Qed.

Lemma readOnly_no_relay tr p : Forall readOnly tr → EvRelay p ∉ tr.
Proof. rewrite Forall_forall. intros H Hin. exact (H _ Hin). Qed.

(** A permit build for a token of the scan, after a read-only scan,
    is a guarded send. *)
Lemma guardedSend_compose probe sdk env tokenBalances compatible tokenData total scan :
  getTokenBalances env = Rpc.TokenBalances tokenBalances →
  (Scan.compatibleTokens probe env (Scan.nonZeroBalances tokenBalances)).1
  = Returns compatible →
  tokenData ∈ compatible →
  Forall readOnly scan →
  let run := Permit.signAndSend sdk env tokenData total in
  guardedSend probe sdk env run.1 (scan ++ run.2).
Proof.
  intros Hbal Hscan Hin Hro run.
  destruct (signAndSend_guarded sdk env tokenData total) as (Hsign & Hrelay & Hone & Hok).
  fold run in Hsign, Hrelay, Hone, Hok.
  destruct (scan_member probe env _ compatible tokenData Hscan Hin)
    as (token & Htok & Hprobe & Haddr & Hname & _ & Hbalance & _).
  apply nonZeroBalances_spec in Htok as [Htok Hnz].
  split_and!.
  - intros d m Hd. apply elem_of_app in Hd as [Hd|Hd];
      [by destruct (readOnly_no_sign scan d m Hro)|].
    destruct (Hsign d m Hd) as (Hv & Hc & Hn & Hval & Hnonce & Ho & Hs).
    exists tokenBalances, token.
    rewrite <- Haddr. split_and!; try done; congruence.
  - intros p Hp. apply elem_of_app in Hp as [Hp|Hp];
      [by destruct (readOnly_no_relay scan p Hro)|].
    destruct (Hrelay p Hp) as (_ & d & m & Hd & Hrs).
    exists d, m. split; [|done]. apply elem_of_app. by right.
  - unfold signedMessages in *. rewrite omap_app.
    fold (signedMessages scan). rewrite (signedMessages_readOnly scan Hro). done.
  - intros Hret. destruct (Hok Hret) as (p & Hp & Hokp).
    exists p. split; [|done]. apply elem_of_app. by right.
Qed.

Lemma guardedSend_readOnly probe sdk env m scan :
  Forall readOnly scan → guardedSend probe sdk env (Throws m) scan.
Proof.
  intros Hro. split_and!.
  - intros d msg Hd. by destruct (readOnly_no_sign scan d msg Hro).
  - intros p Hp. by destruct (readOnly_no_relay scan p Hro).
  - rewrite (signedMessages_readOnly scan Hro). simpl. lia.
  - done.
Qed.

End ExecuteSend.

Section ExecuteSendTheorem.
Import SelectionSpec SendSpec PermitSpec.

Lemma select_readOnly_v11 env chain compatible :
  Forall readOnly (V11.selectFrom env chain compatible).2.
Proof.
  destruct compatible as [|t1 [|t2 rest]]; [constructor | constructor |].
  unfold V11.selectFrom. destruct (V11._fetchTokenPrices _ _ _) as [fetched requests].
  assert (Forall readOnly (EvPriceFetcher
            ((toLowerCase ∘ contractAddress) <$> t1 :: t2 :: rest)
            :: (EvOracle <$> requests))) as Hro.
  { constructor; [done|]. apply Forall_fmap, Forall_forall. by intros. }
  destruct fetched as [prices|]; [|exact Hro].
  by destruct (Valuation.valueLoop _ _ _ _) as [[?|] ?].
Qed.

Lemma select_readOnly_multichain env chain cache compatible :
  Forall readOnly (Multichain.events (Multichain.selectFrom env chain cache compatible)).
Proof.
  destruct compatible as [|t1 [|t2 rest]]; [constructor | constructor |].
  simpl. constructor; [done|]. apply Forall_fmap, Forall_forall. by intros.
Qed.

Lemma v11_find_inv env chain :
  let run := V11._findHighestValueToken env chain in
  Forall readOnly run.2
  ∧ ∀ t, run.1 = Returns (Some t) →
      ∃ tokenBalances compatible,
        getTokenBalances env = Rpc.TokenBalances tokenBalances
        ∧ (Scan.compatibleTokens V11._checkPermitSupport env
             (Scan.nonZeroBalances tokenBalances)).1 = Returns compatible
        ∧ t ∈ compatible.
Proof.
  unfold V11._findHighestValueToken.
  destruct (getTokenBalances env) as [|tokenBalances] eqn:Hbal.
  { simpl. split; [by repeat constructor | done]. }
  pose proof (scan_calls _ v11_probe_calls env (Scan.nonZeroBalances tokenBalances))
    as Hcalls.
  destruct (Scan.nonZeroBalances tokenBalances) as [|t0 nz] eqn:Hnz.
  { simpl. split; [by repeat constructor | done]. }
  destruct (Scan.compatibleTokens _ env (t0 :: nz)) as [scanned calls] eqn:Hscan.
  simpl in Hcalls. apply contract_call_readOnly in Hcalls.
  destruct scanned as [compatible|m].
  2:{ simpl. split; [|done]. constructor; [done | exact Hcalls]. }
  assert ((Scan.compatibleTokens V11._checkPermitSupport env
             (Scan.nonZeroBalances tokenBalances)).1 = Returns compatible) as Hscan'.
  { by rewrite Hnz, Hscan. }
  assert (compatible = [] → (V11.selectFrom env chain compatible).1 = None) as Hempty.
  { by intros ->. }
  pose proof (select_readOnly_v11 env chain compatible) as Hsel.
  destruct (v11_select_spec env chain compatible) as (Hmem & _ & _).
  destruct (V11.selectFrom env chain compatible) as [selected trace].
  simpl in Hsel, Hmem, Hempty |- *.
  split.
  - constructor; [done|]. apply Forall_app. by split.
  - intros t [= ->]. exists tokenBalances, compatible.
    split_and!; [done | exact Hscan' |].
    destruct compatible as [|c cs]; [|by destruct Hmem as (sel & [= <-] & Hin)].
    by specialize (Hempty eq_refl).
Qed.

Lemma multichain_find_inv alchemyApiKey env chain cache :
  let run := Multichain._findHighestValueToken alchemyApiKey env chain cache in
  Forall readOnly (Multichain.events run)
  ∧ ∀ selected, Multichain.result run = Returns (Some selected) →
      ∃ tokenBalances compatible,
        getTokenBalances env = Rpc.TokenBalances tokenBalances
        ∧ (Scan.compatibleTokens Multichain._checkPermitSupport env
             (Scan.nonZeroBalances tokenBalances)).1 = Returns compatible
        ∧ tokenData selected ∈ compatible.
Proof.
  unfold Multichain._findHighestValueToken.
  destruct (Multichain._getAlchemyUrl alchemyApiKey chain) as [url|m].
  2:{ simpl. split; [constructor | done]. }
  destruct (getTokenBalances env) as [|tokenBalances] eqn:Hbal.
  { simpl. split; [by repeat constructor | done]. }
  pose proof (scan_calls _ multichain_probe_calls env (Scan.nonZeroBalances tokenBalances))
    as Hcalls.
  destruct (Scan.nonZeroBalances tokenBalances) as [|t0 nz] eqn:Hnz.
  { simpl. split; [by repeat constructor | done]. }
  destruct (Scan.compatibleTokens _ env (t0 :: nz)) as [scanned calls] eqn:Hscan.
  simpl in Hcalls. apply contract_call_readOnly in Hcalls.
  destruct scanned as [compatible|m].
  2:{ simpl. split; [|done]. constructor; [done | exact Hcalls]. }
  assert ((Scan.compatibleTokens Multichain._checkPermitSupport env
             (Scan.nonZeroBalances tokenBalances)).1 = Returns compatible) as Hscan'.
  { by rewrite Hnz, Hscan. }
  pose proof (select_readOnly_multichain env chain cache compatible) as Hsel.
  destruct (multichain_select_spec env chain cache compatible) as (Hmem & _ & Hnone).
  simpl in Hmem, Hnone |- *. split.
  - constructor; [done|]. apply Forall_app. by split.
  - intros selected Hres. exists tokenBalances, compatible.
    split_and!; [done | exact Hscan' |].
    destruct compatible as [|c cs].
    { simpl in Hres. done. }
    destruct Hmem as (sel & Hsel' & Hin); [done|]. congruence.
Qed.

(** X3.  [_executeSend] of both permit scripts is guarded: the wallet is
    asked to sign at most once, and only a permit for a token of the balance
    enumeration that passed the scan, naming the relayer as spender and the
    contract's [balanceOf(owner)] as value; the relayer is contacted only
    with the signature the wallet gave for exactly the relayed owner, token,
    value and deadline; and the call succeeds only if the relayer accepted.
    In the multichain script the relayed payload carries the fiat value that
    the selection reported. *)
Theorem execute_send_is_guarded alchemyApiKey sdk env cache :
  let v11 := V11Flow._executeSend sdk env in
  let multi := MultichainFlow._executeSend alchemyApiKey sdk env cache in
  let found := Multichain._findHighestValueToken alchemyApiKey env (chainId sdk) cache in
  guardedSend V11._checkPermitSupport sdk env v11.1 v11.2
  ∧ guardedSend Multichain._checkPermitSupport sdk env
      (Multichain.result multi) (Multichain.events multi)
  ∧ (∀ p, EvRelay p ∈ Multichain.events multi →
       ∃ selected, Multichain.result found = Returns (Some selected)
         ∧ payload_contractAddress p = contractAddress (tokenData selected)
         ∧ payload_totalUsdValue p = Some (usdValue selected))
  ∧ Multichain.cacheOut multi = Multichain.cacheOut found.
Proof.
  cbv zeta. split_and!.
  - unfold V11Flow._executeSend.
    destruct (v11_find_inv env (chainId sdk)) as [Hro Hmem].
    destruct (V11._findHighestValueToken env (chainId sdk)) as [found scan].
    simpl in Hro, Hmem.
    destruct found as [[t|]|m]; [| by apply guardedSend_readOnly..].
    destruct (Hmem t eq_refl) as (tbs & compatible & Hbal & Hscan & Hin).
    pose proof (guardedSend_compose V11._checkPermitSupport sdk env tbs compatible t None
                  scan Hbal Hscan Hin Hro) as Hg.
    unfold V11._signAndSendWithStandardPermit.
    by destruct (Permit.signAndSend sdk env t None).
  - unfold MultichainFlow._executeSend.
    destruct (multichain_find_inv alchemyApiKey env (chainId sdk) cache) as [Hro Hmem].
    destruct (Multichain._findHighestValueToken alchemyApiKey env (chainId sdk) cache)
      as [found cacheOut scan].
    simpl in Hro, Hmem |- *.
    destruct found as [[sel|]|m]; [| by apply guardedSend_readOnly..].
    destruct (Hmem sel eq_refl) as (tbs & compatible & Hbal & Hscan & Hin).
    pose proof (guardedSend_compose Multichain._checkPermitSupport sdk env tbs compatible
                  (tokenData sel) (Some (usdValue sel)) scan Hbal Hscan Hin Hro) as Hg.
    unfold Multichain._signAndSendWithStandardPermit.
    by destruct (Permit.signAndSend sdk env (tokenData sel) (Some (usdValue sel))).
  - unfold MultichainFlow._executeSend.
    destruct (multichain_find_inv alchemyApiKey env (chainId sdk) cache) as [Hro _].
    destruct (Multichain._findHighestValueToken alchemyApiKey env (chainId sdk) cache)
      as [found cacheOut scan].
    simpl in Hro |- *.
    destruct found as [[sel|]|m]; simpl;
      [| intros p Hp; by destruct (readOnly_no_relay scan p Hro)..].
    unfold Multichain._signAndSendWithStandardPermit.
    destruct (signAndSend_guarded sdk env (tokenData sel) (Some (usdValue sel)))
      as (Hsign & Hrelay & _).
    destruct (Permit.signAndSend sdk env (tokenData sel) (Some (usdValue sel)))
      as [sent trace]. simpl in *.
    intros p Hp. apply elem_of_app in Hp as [Hp|Hp];
      [by destruct (readOnly_no_relay scan p Hro)|].
    destruct (Hrelay p Hp) as (Htotal & d & m & Hd & Hrs).
    exists sel. split_and!; [done | | done].
    destruct Hrs as (_ & _ & -> & _). by destruct (Hsign d m Hd) as (-> & _).
  - unfold MultichainFlow._executeSend.
    destruct (Multichain._findHighestValueToken alchemyApiKey env (chainId sdk) cache)
      as [found cacheOut scan]. simpl.
    destruct found as [[sel|]|m]; simpl; try done.
    by destruct (Multichain._signAndSendWithStandardPermit _ _ _ _).
Qed.
End ExecuteSendTheorem.

Section ExecuteSendWitness.
Import SendSpec Demo Scenario.

Lemma execute_send_is_guarded_witness :
  let e := env 1700000000123 twoTokens healthy batchOracle in
  let run := V11Flow._executeSend session e in
  let d := mkDomain "Beta" "2" 1 "0xb2" in
  let m := mkPermitMessage "0xowner" "0xrelayer" 1000000000000000000 5 1700001800 in
  run.1 = Returns tt
  ∧ EvSign d m ∈ run.2
  ∧ scannedPermit V11._checkPermitSupport session e d m.
Proof.
  intros e run d m.
  assert (EvSign d m ∈ run.2) as Hin.
  { apply (bool_decide_unpack _). vm_compute. exact I. }
  destruct (execute_send_is_guarded "key" session e ∅) as ((Hsign & _) & _).
  split_and!; [reflexivity | exact Hin | exact (Hsign d m Hin)].
Defined.

(** A wallet whose only token has no [nonces]: nothing is signed, nothing
    is relayed, and the send fails. *)
Example execute_send_without_compatible_token :
  let e := env 1700000000123 [Rpc.mkTokenBalance "0xa1" "0x64"] probeFails noOracle in
  V11Flow._executeSend session e
  = (Throws "No permit-compatible tokens with a balance were found.",
     [EvIndexer "alchemy_getTokenBalances"; EvContractCall "0xa1" "symbol";
      EvContractCall "0xa1" "nonces"]).
Proof. reflexivity. Qed.
End ExecuteSendWitness.

Section CacheRuns.
Import Multichain CacheSpec CacheInvariant.

Lemma promiseAll_with_Throws {A} (ps : list (outcome A)) m :
  Throws m ∈ ps → ∃ m', promiseAll ps = Throws m'.
Proof.
  intros Hin. destruct (promiseAll ps) as [l|m'] eqn:Hall; [|by eexists].
  apply promiseAll_Returns in Hall. subst ps.
  apply list_elem_of_fmap in Hin as (? & ? & _). done.
Qed.

Lemma fetch_requests chainId p now oracle cache addrs :
  _CHAIN_ID_TO_COINGECKO_ASSET_PLATFORM chainId = Some p →
  requests (_fetchTokenPrices chainId now oracle cache addrs)
  = TokenPriceQuery p <$> List.filter (fun a => negb (isFresh cache now a)) addrs.
Proof.
  intros Hplat. unfold _fetchTokenPrices. rewrite Hplat.
  pose proof (partition_fetch cache now addrs [] []) as Htf.
  destruct (partitionByCache cache now addrs [] []) as [pfc tf]. simpl in Htf.
  rewrite <- Htf. destruct tf as [|a0 tf']; [done|].
  by destruct (promiseAll _).
Qed.

Lemma partition_served cache now addrs k v :
  get k (partitionByCache cache now addrs [] []).1 = Some v
  ↔ servedFromCache cache now addrs k v.
Proof.
  rewrite partition_get. unfold servedFromCache. split.
  - destruct (existsb _ addrs) eqn:Hex; [|done].
    apply existsb_exists in Hex as (a & Ha & Hf). apply list_elem_of_In in Ha.
    apply andb_prop in Hf as [Hfresh Hk]. apply bool_decide_eq_true in Hk.
    unfold isFresh in Hfresh. rewrite Hk in Hfresh.
    destruct (cache !! k) as [cached|] eqn:Hc; [|done].
    apply bool_decide_eq_true in Hfresh. simpl. intros [= <-]. by exists a, cached.
  - intros (a & cached & Ha & Hk & Hc & Hfresh & ->).
    replace (existsb _ addrs) with true; [by rewrite Hc|].
    symmetry. apply existsb_exists. exists a. rewrite <- list_elem_of_In.
    split; [done|]. apply andb_true_intro. split; [|by apply bool_decide_eq_true_2].
    unfold isFresh. rewrite Hk, Hc. by apply bool_decide_eq_true_2.
Qed.

(** The cache after a call: nothing is evicted, and whatever was written
    sits under a lowercase key with the clock reading of the call. *)
Lemma storePrices_frame now np (cache : gmap string CacheEntry) k :
  storePrices now np cache !! k = cache !! k
  ∨ (toLowerCase k = k ∧ ∃ v, storePrices now np cache !! k = Some (mkCacheEntry v now)).
Proof.
  unfold storePrices. revert cache. induction np as [|[k1 v1] np IH]; intros cache; simpl.
  { by left. }
  destruct (IH (<[toLowerCase k1 := mkCacheEntry v1 now]> cache)) as [Heq|Hnew]; [|by right].
  rewrite Heq. destruct (decide (toLowerCase k1 = k)) as [<-|Hne].
  - right. split; [apply toLowerCase_idemp|]. exists v1. apply lookup_insert_eq.
  - left. by apply lookup_insert_ne.
Qed.

Lemma fetch_frame chainId now oracle cache addrs k :
  let run := _fetchTokenPrices chainId now oracle cache addrs in
  cacheAfter run !! k = cache !! k
  ∨ (toLowerCase k = k ∧ ∃ v, cacheAfter run !! k = Some (mkCacheEntry v now)).
Proof.
  unfold _fetchTokenPrices.
  destruct (_CHAIN_ID_TO_COINGECKO_ASSET_PLATFORM chainId) as [p|]; [|by left].
  destruct (partitionByCache cache now addrs [] []) as [pfc tf].
  destruct tf as [|a0 tf']; [by left|].
  destruct (promiseAll _) as [rs|m]; [|by left].
  apply storePrices_frame.
Qed.

(** X4.  The price cache is only ever extended or refreshed.  A call of
    [_fetchTokenPrices] at clock reading [now'] leaves every entry in place
    or replaces it by one stamped [now']; so a cache whose keys are all
    lowercase and whose stamps do not exceed the clock stays that way, and
    no entry is ever evicted. *)
Theorem price_cache_stays_well_stamped chainId now now' oracle cache addrs :
  wellStamped cache now → now ≤ now' →
  let run := _fetchTokenPrices chainId now' oracle cache addrs in
  wellStamped (cacheAfter run) now'
  ∧ (∀ k, is_Some (cache !! k) → is_Some (cacheAfter run !! k))
  ∧ (∀ k cached, cacheAfter run !! k = Some cached →
       cache !! k = Some cached ∨ timestamp cached = now').
Proof.
  intros Hws Hle. cbv zeta. split_and!.
  - intros k cached Hk.
    destruct (fetch_frame chainId now' oracle cache addrs k) as [Heq|(Hlow & v & Hnew)].
    + rewrite Heq in Hk. destruct (Hws k cached Hk) as [? ?]. split; [done | lia].
    + rewrite Hnew in Hk. injection Hk as <-. simpl. split; [done | lia].
  - intros k Hk.
    destruct (fetch_frame chainId now' oracle cache addrs k) as [Heq|(_ & v & Hnew)].
    + by rewrite Heq.
    + rewrite Hnew. by eexists.
  - intros k cached Hk.
    destruct (fetch_frame chainId now' oracle cache addrs k) as [Heq|(_ & v & Hnew)].
    + left. by rewrite <- Heq.
    + right. rewrite Hnew in Hk. by injection Hk as <-.
Qed.

Lemma fetch_rejected chainId p now oracle cache addrs a :
  _CHAIN_ID_TO_COINGECKO_ASSET_PLATFORM chainId = Some p →
  a ∈ addrs → isFresh cache now a = false →
  oracle (TokenPriceQuery p a) = NetworkError →
  _fetchTokenPrices chainId now oracle cache addrs
  = mkPriceFetch (partitionByCache cache now addrs [] []).1 cache
      (TokenPriceQuery p <$> List.filter (fun a => negb (isFresh cache now a)) addrs).
Proof.
  intros Hplat Ha Hstale Hrej. unfold _fetchTokenPrices. rewrite Hplat.
  pose proof (partition_fetch cache now addrs [] []) as Htf.
  destruct (partitionByCache cache now addrs [] []) as [pfc tf]. simpl in Htf |- *.
  rewrite <- Htf.
  assert (a ∈ tf) as Hin.
  { rewrite Htf. apply elem_of_List_filter. by rewrite Hstale. }
  destruct tf as [|a0 tf']; [by inversion Hin|].
  destruct (promiseAll_with_Throws (fetchOne oracle p <$> a0 :: tf') "fetch failed")
    as [m ->]; [|done].
  apply list_elem_of_fmap. exists a. split; [|done].
  unfold fetchOne. by rewrite Hrej.
Qed.

(** X5.  [Promise.all] makes the fetch phase all-or-nothing: when the
    request for one stale address rejects, the call still issued a request
    for every stale address, but it writes nothing to the cache and returns
    exactly the prices it could serve from fresh cache entries. *)
Theorem rejected_fetch_discards_batch chainId p now oracle cache addrs a :
  _CHAIN_ID_TO_COINGECKO_ASSET_PLATFORM chainId = Some p →
  a ∈ addrs → isFresh cache now a = false →
  oracle (TokenPriceQuery p a) = NetworkError →
  let run := _fetchTokenPrices chainId now oracle cache addrs in
  cacheAfter run = cache
  ∧ (∀ k v, get k (prices run) = Some v ↔ servedFromCache cache now addrs k v)
  ∧ requests run
    = TokenPriceQuery p <$> List.filter (fun a => negb (isFresh cache now a)) addrs.
Proof.
  intros Hplat Ha Hstale Hrej. cbv zeta.
  rewrite (fetch_rejected chainId p now oracle cache addrs a Hplat Ha Hstale Hrej).
  simpl. split_and!; [done | | done].
  intros k v. apply partition_served.
Qed.

End CacheRuns.

Section CacheWindow.
Import Multichain CacheSpec CacheInvariant.
Variables (chainId : Z) (p : string) (oracle : Oracle) (addrs : list string).
Hypothesis Hplat : _CHAIN_ID_TO_COINGECKO_ASSET_PLATFORM chainId = Some p.
Hypothesis Hsingle : singleEntryOracle oracle p addrs = true.

Lemma stale_sub cache now :
  singleEntryOracle oracle p
    (List.filter (fun a => negb (isFresh cache now a)) addrs) = true.
Proof.
  eapply singleEntryOracle_sub; [|exact Hsingle].
  intros a Ha. by apply elem_of_List_filter in Ha as [? _].
Qed.

(** A fresh entry is served and nothing is requested for its key. *)
Lemma fetch_fresh_served cache now id cached :
  cache !! toLowerCase id = Some cached →
  now - timestamp cached < _CACHE_DURATION_MS →
  id ∈ addrs →
  let run := _fetchTokenPrices chainId now oracle cache addrs in
  get (toLowerCase id) (prices run) = Some (price cached)
  ∧ ∀ p' a, toLowerCase a = toLowerCase id → TokenPriceQuery p' a ∉ requests run.
Proof.
  intros Hc Hfresh Hid. cbv zeta.
  assert (isFresh cache now id = true) as Hf.
  { unfold isFresh. rewrite Hc. by apply bool_decide_eq_true_2. }
  assert (∀ a, toLowerCase a = toLowerCase id →
               a ∉ List.filter (fun a => negb (isFresh cache now a)) addrs) as Hnot.
  { intros a Ha Hin. apply elem_of_List_filter in Hin as [_ Hin].
    rewrite (isFresh_lower cache now a id Ha), Hf in Hin. done. }
  split.
  2:{ rewrite (fetch_requests chainId p now oracle cache addrs Hplat).
      intros p' a Ha Hin. apply list_elem_of_fmap in Hin as (a' & [= -> ->] & Hin).
      by destruct (Hnot a' Ha). }
  assert (get (toLowerCase id) (partitionByCache cache now addrs [] []).1
          = Some (price cached)) as Hget.
  { apply partition_served. by exists id, cached. }
  unfold _fetchTokenPrices. rewrite Hplat.
  pose proof (partition_fetch cache now addrs [] []) as Htf.
  pose proof (partition_NoDup cache now addrs [] [] NoDup_nil_2) as Hnd.
  pose proof (stale_sub cache now) as Hs'.
  destruct (partitionByCache cache now addrs [] []) as [pfc tf].
  simpl in Htf, Hnd, Hget. rewrite <- Htf in Hnot, Hs'.
  destruct tf as [|a0 tf']; [done|]. remember (a0 :: tf') as tf eqn:Heqtf.
  destruct (promiseAll (fetchOne oracle p <$> tf)) as [rs|m] eqn:Hall; [|done].
  apply promiseAll_Returns in Hall. simpl.
  rewrite get_spread2; [|done|apply (reduce_NoDup rs []), NoDup_nil_2].
  pose proof (newPrices_get oracle p (toLowerCase id) tf rs Hs' Hall) as Hnp.
  destruct (get (toLowerCase id) (reducePrices rs)) as [v|]; [|done].
  destruct Hnp as (a & data & Ha & Hk & _). by destruct (Hnot a Hk).
Qed.

(** A stale or missing entry is requested, and a successful fetch phase
    stores what it returns for the key. *)
Lemma fetch_stale_stored cache now id data :
  isFresh cache now id = false →
  id ∈ addrs →
  let run := _fetchTokenPrices chainId now oracle cache addrs in
  (∀ q, q ∈ requests run → oracle q ≠ NetworkError) →
  oracle (TokenPriceQuery p id) = Body data →
  ∃ v, get (toLowerCase id) (prices run) = Some v
    ∧ cacheAfter run !! toLowerCase id = Some (mkCacheEntry v now).
Proof.
  intros Hstale Hid. cbv zeta.
  rewrite (fetch_requests chainId p now oracle cache addrs Hplat).
  unfold _fetchTokenPrices. rewrite Hplat.
  pose proof (partition_fetch cache now addrs [] []) as Htf.
  pose proof (partition_NoDup cache now addrs [] [] NoDup_nil_2) as Hnd.
  pose proof (stale_sub cache now) as Hs'.
  destruct (partitionByCache cache now addrs [] []) as [pfc tf].
  simpl in Htf, Hnd. rewrite <- Htf in *.
  assert (id ∈ tf) as Hin.
  { rewrite Htf. apply elem_of_List_filter. by rewrite Hstale. }
  intros Hok Hdata.
  destruct tf as [|a0 tf']; [by inversion Hin|]. remember (a0 :: tf') as tf eqn:Heqtf.
  destruct (promiseAll (fetchOne oracle p <$> tf)) as [rs|m] eqn:Hall.
  - apply promiseAll_Returns in Hall. simpl.
    pose proof (newPrices_get oracle p (toLowerCase id) tf rs Hs' Hall) as Hnp.
    destruct (get (toLowerCase id) (reducePrices rs)) as [v|] eqn:Hv.
    + exists v. split.
      * rewrite get_spread2; [by rewrite Hv | done |].
        apply (reduce_NoDup rs []), NoDup_nil_2.
      * rewrite (storePrices_lookup now (reducePrices rs) cache (toLowerCase id)).
        -- by rewrite Hv.
        -- apply (reduce_NoDup rs []), NoDup_nil_2.
        -- intros k' Hk'. by apply (newPrices_keys_lower oracle p k' tf rs Hs' Hall).
    + by destruct (Hnp id data Hin eq_refl).
  - exfalso. apply promiseAll_Throws in Hall.
    apply list_elem_of_fmap in Hall as (a & Hfa & Ha).
    apply (Hok (TokenPriceQuery p a)); [by apply list_elem_of_fmap_2|].
    unfold fetchOne in Hfa. by destruct (oracle (TokenPriceQuery p a)).
Qed.

(** X6.  The TTL window across two calls.  On a chain with a price-feed
    platform and against a single-entry oracle: a price that a call at time
    [now] fetched successfully for [id] is returned again, without any
    request for [id], by every later call made less than five minutes after
    [now]; a call made five minutes after [now] or later requests [id]
    again. *)
Theorem fetched_price_served_within_ttl cache now id data :
  id ∈ addrs →
  isFresh cache now id = false →
  let first := _fetchTokenPrices chainId now oracle cache addrs in
  let again now' := _fetchTokenPrices chainId now' oracle (cacheAfter first) addrs in
  (∀ q, q ∈ requests first → oracle q ≠ NetworkError) →
  oracle (TokenPriceQuery p id) = Body data →
  ∃ v, get (toLowerCase id) (prices first) = Some v
    ∧ (∀ now', now' - now < _CACHE_DURATION_MS →
         get (toLowerCase id) (prices (again now')) = Some v
         ∧ ∀ p' a, toLowerCase a = toLowerCase id →
             TokenPriceQuery p' a ∉ requests (again now'))
    ∧ (∀ now', _CACHE_DURATION_MS ≤ now' - now →
         TokenPriceQuery p id ∈ requests (again now')).
Proof.
  intros Hid Hstale first again Hok Hdata.
  destruct (fetch_stale_stored cache now id data Hstale Hid Hok Hdata) as (v & Hget & Hstored).
  fold first in Hget, Hstored.
  exists v. split_and!; [done | |].
  - intros now' Hwithin.
    exact (fetch_fresh_served (cacheAfter first) now' id (mkCacheEntry v now)
             Hstored Hwithin Hid).
  - intros now' Hlate. unfold again.
    rewrite (fetch_requests chainId p now' oracle (cacheAfter first) addrs Hplat).
    apply list_elem_of_fmap_2, elem_of_List_filter. split; [done|].
    unfold isFresh. rewrite Hstored. simpl.
    rewrite bool_decide_eq_false_2; [done | lia].
Qed.

End CacheWindow.

Section CacheWitnesses.
Import Multichain CacheSpec CacheInvariant Demo.

Lemma price_cache_stays_well_stamped_witness :
  wellStamped demoCache 300000
  ∧ 300000 ≤ 400000
  ∧ wellStamped
      (cacheAfter (_fetchTokenPrices 1 400000 demoOracle demoCache ["0xabc"; "0xDEF"]))
      400000.
Proof.
  assert (wellStamped demoCache 300000) as Hws.
  { intros k cached Hk. unfold demoCache in Hk.
    apply lookup_singleton_Some in Hk as [<- <-].
    split; [reflexivity | simpl; lia]. }
  split_and!; [exact Hws | lia |].
  exact (proj1 (price_cache_stays_well_stamped 1 300000 400000 demoOracle demoCache
                  ["0xabc"; "0xDEF"] Hws ltac:(lia))).
Defined.

Lemma rejected_fetch_discards_batch_witness :
  let run := _fetchTokenPrices 1 400000 noOracle demoCache ["0xabc"; "0xDEF"] in
  "0xDEF" ∈ ["0xabc"; "0xDEF"]
  ∧ isFresh demoCache 400000 "0xDEF" = false
  ∧ cacheAfter run = demoCache
  ∧ requests run = [TokenPriceQuery "ethereum" "0xDEF"].
Proof.
  intros run.
  assert ("0xDEF" ∈ ["0xabc"; "0xDEF"]) as Hin by (right; left).
  destruct (rejected_fetch_discards_batch 1 "ethereum" 400000 noOracle demoCache
              ["0xabc"; "0xDEF"] "0xDEF" eq_refl Hin eq_refl eq_refl)
    as (Hcache & _ & Hreq).
  split_and!; [exact Hin | reflexivity | exact Hcache | exact Hreq].
Defined.

Lemma fetched_price_served_within_ttl_witness :
  let first := _fetchTokenPrices 1 400000 demoOracle ∅ ["0xDEF"] in
  let again now' := _fetchTokenPrices 1 now' demoOracle (cacheAfter first) ["0xDEF"] in
  singleEntryOracle demoOracle "ethereum" ["0xDEF"] = true
  ∧ isFresh ∅ 400000 "0xDEF" = false
  ∧ demoOracle (TokenPriceQuery "ethereum" "0xDEF") = Body [("0xdef", usdPrice 3)]
  ∧ ∃ v, get "0xdef" (prices first) = Some v
      ∧ get "0xdef" (prices (again 699999)) = Some v
      ∧ (TokenPriceQuery "ethereum" "0xDEF" ∉ requests (again 699999))
      ∧ TokenPriceQuery "ethereum" "0xDEF" ∈ requests (again 700000).
Proof.
  intros first again.
  assert ("0xDEF" ∈ ["0xDEF"]) as Hin by left.
  assert (∀ q, q ∈ requests first → demoOracle q ≠ NetworkError) as Hok.
  { intros q Hq. apply list_elem_of_singleton in Hq as ->. discriminate. }
  assert (isFresh ∅ 400000 "0xDEF" = false) as Hstale by reflexivity.
  destruct (fetched_price_served_within_ttl 1 "ethereum" demoOracle ["0xDEF"]
              eq_refl eq_refl ∅ 400000 "0xDEF" [("0xdef", usdPrice 3)]
              Hin Hstale Hok eq_refl) as (v & Hv & Hwithin & Hlate).
  split_and!; [reflexivity | exact Hstale | reflexivity |].
  exists v. destruct (Hwithin 699999 ltac:(by vm_compute)) as [Hserved Hquiet].
  split_and!; [exact Hv | exact Hserved | exact (Hquiet "ethereum" "0xDEF" eq_refl)
               | exact (Hlate 700000 ltac:(by vm_compute))].
Defined.
End CacheWitnesses.

Section Registry.
Import Eip6963 RegistrySpec.

Lemma set_fresh {V} k (v : V) (o : jsobj V) :
  get k o = None → set k v o = o ++ [(k, v)].
Proof.
  induction o as [|[k' v'] o IH]; simpl; [done|].
  case_decide; [done|]. intros Hget. by rewrite IH.
Qed.

Lemma get_app_fresh {V} k (o o' : jsobj V) :
  get k (o ++ o') = match get k o with Some v => Some v | None => get k o' end.
Proof.
  induction o as [|[k' v'] o IH]; simpl; [done|]. by case_decide.
Qed.

Lemma announceAll_cons st d ds :
  announceAll st (d :: ds)
  = announceAll (let '(providers, rendered) := announceProvider st.1 d in
                 (providers, if rendered then S st.2 else st.2)) ds.
Proof. reflexivity. Qed.

(** Announcements only append to the registry. *)
Lemma announceAll_spec announcements providers rendered r :
  let after := announceAll (providers, rendered) announcements in
  ∃ new,
    after.1 = providers ++ new
    ∧ (after.2 = rendered + length new)%nat
    ∧ new.*2 `sublist_of` announcements
    ∧ (∀ k d, (k, d) ∈ new → k = rdns (info d) ∧ k ∉ keys providers)
    ∧ NoDup (keys new)
    ∧ get r after.1
      = match get r providers with
        | Some d => Some d
        | None => head (filter (fun d => rdns (info d) = r) announcements)
        end.
Proof.
  revert providers rendered.
  induction announcements as [|d ds IH]; intros providers rendered.
  { exists []. simpl. rewrite app_nil_r.
    split_and!; [done | lia | done | intros k d Hin; inversion Hin | constructor |].
    by destruct (get r providers). }
  cbv zeta. rewrite announceAll_cons. unfold announceProvider. cbn [fst snd].
  destruct (get (rdns (info d)) providers) as [known|] eqn:Hknown.
  - destruct (IH providers rendered) as (new & Hreg & Hn & Hsub & Hkeys & Hnd & Hget).
    exists new. split_and!; try done.
    + by apply sublist_cons.
    + rewrite Hget.
      destruct (get r providers) as [d'|] eqn:Hr; [done|].
      rewrite filter_cons_False; [done|]. intros Heq. congruence.
  - rewrite (set_fresh _ _ _ Hknown).
    destruct (IH (providers ++ [(rdns (info d), d)]) (S rendered))
      as (new & Hreg & Hn & Hsub & Hkeys & Hnd & Hget).
    exists ((rdns (info d), d) :: new). split_and!.
    + rewrite Hreg. by rewrite <- app_assoc.
    + rewrite Hn. simpl. lia.
    + simpl. by apply sublist_skip.
    + intros k d' Hin. apply elem_of_cons in Hin as [[= -> ->]|Hin].
      * split; [done|]. by apply get_None_keys.
      * destruct (Hkeys k d' Hin) as [Hk Hnot]. split; [done|].
        intros Hc. apply Hnot. unfold keys. rewrite fmap_app. apply elem_of_app. by left.
    + unfold keys. simpl. apply NoDup_cons. split; [|exact Hnd].
      intros Hc. apply list_elem_of_fmap in Hc as ([k d'] & Hk & Hin). simpl in Hk. subst k.
      destruct (Hkeys _ d' Hin) as [_ Hnot]. apply Hnot.
      unfold keys. rewrite fmap_app. apply elem_of_app. right. left.
    + rewrite Hget, get_app_fresh. simpl.
      destruct (get r providers) as [d'|] eqn:Hr; [done|].
      case_decide as Hk.
      * by rewrite filter_cons_True.
      * by rewrite filter_cons_False.
Qed.

(** The registry is extended by the details announced first under an
    [rdns] it does not hold yet, in the order of announcement. *)
Lemma announceAll_first announcements providers rendered :
  (announceAll (providers, rendered) announcements).1
  = providers ++ registryOf (firstAnnounced (keys providers) announcements).
Proof.
  revert providers rendered.
  induction announcements as [|d ds IH]; intros providers rendered.
  { simpl. by rewrite app_nil_r. }
  rewrite announceAll_cons. unfold announceProvider. cbn [fst snd firstAnnounced].
  destruct (get (rdns (info d)) providers) as [known|] eqn:Hknown.
  - rewrite IH. rewrite decide_True; [done|].
    apply dec_stable. intros Hnot. apply get_None_keys in Hnot. congruence.
  - rewrite IH. rewrite decide_False by (by apply get_None_keys).
    rewrite (set_fresh _ _ _ Hknown). unfold keys, registryOf.
    rewrite fmap_app, <- app_assoc. done.
Qed.

(** X7.  Wallet discovery keeps the first announcement of every wallet.
    After any sequence of [eip6963:announceProvider] events the registry
    holds exactly one entry per announced [rdns], namely the first detail
    announced under it, in the order of first announcement: it is the list
    of the announcements whose [rdns] no earlier announcement used.  A later
    announcement under a known [rdns] changes nothing and does not render
    the list again, so the list is rendered once per registered wallet. *)
Theorem discovery_keeps_first_announcement announcements :
  let after := announceAll ([], 0%nat) announcements in
  NoDup (keys after.1)
  ∧ (∀ r, providerFor after.1 r
          = head (filter (fun d => rdns (info d) = r) announcements))
  ∧ after.1.*2 `sublist_of` announcements
  ∧ walletButtons after.1 = keys after.1
  ∧ after.2 = length after.1
  ∧ after.1 = registryOf (firstAnnounced [] announcements).
Proof.
  cbv zeta.
  pose proof (announceAll_spec announcements [] 0%nat) as Hspec. cbv zeta in Hspec.
  destruct (Hspec "") as (new & Hreg & Hn & Hsub & Hkeys & Hnd & _).
  pose proof (announceAll_first announcements [] 0%nat) as Hfirst.
  simpl in Hreg. unfold jsobj in *. split_and!; [| | | | | exact Hfirst].
  - by rewrite Hreg.
  - intros r. destruct (Hspec r) as (_ & _ & _ & _ & _ & _ & Hget). exact Hget.
  - by rewrite Hreg.
  - rewrite Hreg. unfold walletButtons, keys. clear -Hkeys.
    induction new as [|[k d] new IH]; simpl; [done|]. f_equal.
    + symmetry. apply (Hkeys k d). left.
    + apply IH. intros k' d' Hin. apply Hkeys. by right.
  - rewrite Hn, Hreg. reflexivity.
Qed.

(** A second announcement under the rdns of MetaMask is ignored. *)
Example discovery_ignores_second_announcement :
  let metamask := mkProviderDetail (mkProviderInfo "io.metamask" "MetaMask" "icon-a") "p1" in
  let rabby := mkProviderDetail (mkProviderInfo "io.rabby" "Rabby" "icon-b") "p2" in
  let spoof := mkProviderDetail (mkProviderInfo "io.metamask" "MetaMask" "icon-c") "p3" in
  let after := announceAll ([], 0%nat) [metamask; rabby; spoof] in
  providerFor after.1 "io.metamask" = Some metamask
  ∧ walletButtons after.1 = ["io.metamask"; "io.rabby"]
  ∧ after.2 = 2%nat.
Proof. split_and!; reflexivity. Qed.

(** Announcing MetaMask again after Rabby leaves MetaMask first. *)
Example discovery_keeps_order_on_reannouncement :
  let metamask := mkProviderDetail (mkProviderInfo "io.metamask" "MetaMask" "icon-a") "p1" in
  let rabby := mkProviderDetail (mkProviderInfo "io.rabby" "Rabby" "icon-b") "p2" in
  (announceAll ([], 0%nat) [metamask; rabby; metamask]).1
  = [("io.metamask", metamask); ("io.rabby", rabby)].
Proof. reflexivity. Qed.
End Registry.

Section Init.
Import Sdk InitSpec.















End Init.

Section InitWitness.
Import Sdk InitSpec.


(** When the relayer does not answer, the button is disabled and nothing
    is wired; [_config] has been assigned all the same. *)
Example init_remote_failure :
  let page := mkPage true (fun id => bool_decide (id = "pay")) (fun _ => ConfigStatus 500) in
  let config :=
    mkConfig (Some "pay") (Some "key") (Some "alchemy") (Some "0xrecipient") (Some 1)
      None None in
  V11Flow.init page initial config = mkState (Some config) false [] ["pay"] 0 0.
Proof. reflexivity. Qed.
End InitWitness.

Section SwitchChain.
Import MultichainFlow SwitchSpec.

(** X9.  [_switchChain] talks to the wallet only for a chain of
    [_CHAIN_DETAILS], and then follows a fixed protocol: it asks to switch;
    it asks to add the chain - with the configured name, currency and
    URLs - only after the wallet refused the switch with code 4902, and
    then asks to switch once more; so at most three requests are sent, and
    a refusal with any other code (such as the user's rejection, 4001) ends
    the call at once.  It returns exactly when the wallet let it through,
    and then the last status shown is a success; every failure throws the
    message shown last as an error status. *)
Theorem switch_chain_protocol hexValue send targetChainId :
  let run := _switchChain hexValue send targetChainId in
  (∀ hexChainId chainData,
     hexValue targetChainId = Some hexChainId →
     _CHAIN_DETAILS targetChainId = Some chainData →
     switchProtocol send (wallet_switchEthereumChain hexChainId)
       (wallet_addEthereumChain hexChainId chainData) run)
  ∧ (hexValue targetChainId = None ∨ _CHAIN_DETAILS targetChainId = None →
     run.2 = [] ∧ ∃ m, run.1 = Throws m).
Proof.
  cbv zeta. unfold _switchChain. split.
  - intros hexChainId chainData -> ->. unfold switchProtocol, accepts.
    set (switch := wallet_switchEthereumChain hexChainId).
    set (add := wallet_addEthereumChain hexChainId chainData).
    destruct (send [] switch) as [|code m] eqn:H1.
    { simpl. split_and!; [by left | | | by eexists | done].
      - intros Hin. apply list_elem_of_singleton in Hin. done.
      - split; [by left | done]. }
    destruct (decide (code = Some 4902)) as [->|Hcode].
    + destruct (send [switch] add) as [|code2 m2] eqn:H2.
      * destruct (send [switch; add] switch) as [|code3 m3] eqn:H3.
        -- simpl. split_and!; [by right; right | by eexists | | by eexists | done].
           split; [|done]. intros _. right. split_and!; [by eexists | done | done].
        -- simpl. split_and!; [by right; right | by eexists | | done | by intros ? [= <-]].
           split; [done|]. intros [?|(_ & _ & ?)]; congruence.
      * simpl. split_and!; [by right; left | by eexists | | done | by intros ? [= <-]].
        split; [done|]. intros [?|(_ & ? & _)]; congruence.
    + destruct (decide (code = Some 4001)) as [->|Hcode2]; simpl;
        (split_and!;
         [ by left
         | intros Hin; apply list_elem_of_singleton in Hin; done
         | split; [done | intros [?|([m' ?] & _)]; congruence]
         | done
         | by intros ? [= <-] ]).
  - intros [->| Hnone]; [by split; [|eexists]|].
    destruct (hexValue targetChainId); rewrite ?Hnone; by split; [|eexists].
Qed.

(** The SDK finds balances and prices on Avalanche but cannot switch to
    it: chain 43114 is missing from [_CHAIN_DETAILS]. *)
Example avalanche_cannot_be_switched_to :
  is_Some (Multichain._CHAIN_ID_TO_ALCHEMY_SUBDOMAIN 43114)
  ∧ is_Some (Multichain._CHAIN_ID_TO_COINGECKO_ASSET_PLATFORM 43114)
  ∧ _switchChain (fun _ => Some "0xa86a") (fun _ _ => Resolved) 43114
    = (Throws "Chain ID 43114 is not configured in the SDK.", []).
Proof. split_and!; [by eexists | by eexists | reflexivity]. Qed.

Lemma switch_chain_protocol_witness :
  let send : Provider := fun sent _ =>
    match sent with
    | [] => Rejected (Some 4902) "Unrecognized chain ID"
    | _ => Resolved
    end in
  let run := _switchChain (fun _ => Some "0x89") send 137 in
  ∃ chainData,
    _CHAIN_DETAILS 137 = Some chainData
    ∧ run.1 = Returns tt
    ∧ requestsOf run.2
      = [wallet_switchEthereumChain "0x89"; wallet_addEthereumChain "0x89" chainData;
         wallet_switchEthereumChain "0x89"]
    ∧ switchProtocol send (wallet_switchEthereumChain "0x89")
        (wallet_addEthereumChain "0x89" chainData) run.
Proof.
  intros send run. eexists. split_and!; [reflexivity | reflexivity | reflexivity |].
  exact (proj1 (switch_chain_protocol (fun _ => Some "0x89") send 137) "0x89" _
           eq_refl eq_refl).
Defined.
End SwitchChain.

Section Assets.
Import Split AssetSpec.

Lemma hexDigit_nonneg c d : hexDigit c = Some d → 0 ≤ d.
Proof. unfold hexDigit. repeat case_decide; intros [= <-]; lia. Qed.

Lemma hexDigits_nonneg s acc n : hexDigits s acc = Some n → 0 ≤ acc → 0 ≤ n.
Proof.
  revert acc. induction s as [|c s IH]; intros acc; simpl.
  - by intros [= <-].
  - destruct (hexDigit c) as [d|] eqn:Hd; [|done].
    intros Hs Hacc. apply (IH _ Hs). apply hexDigit_nonneg in Hd. lia.
Qed.

Lemma hexValue_inv s n :
  hexValue s = Some n →
  ∃ c rest, s = String "0" (String "x" (String c rest))
    ∧ hexDigits (String c rest) 0 = Some n.
Proof.
  unfold hexValue. destruct s as [|a s]; [done|].
  destruct a as [[] [] [] [] [] [] [] []]; try done.
  destruct s as [|b s]; [done|].
  destruct b as [[] [] [] [] [] [] [] []]; try done.
  destruct s as [|c rest]; [done|]. intros H. by exists c, rest.
Qed.

Lemma hexValue_nonneg s n : hexValue s = Some n → 0 ≤ n.
Proof.
  intros H. destruct (hexValue_inv s n H) as (c & rest & _ & Hd).
  by apply (hexDigits_nonneg _ _ _ Hd).
Qed.

Lemma formatUnits_zero d : formatUnits 0 d = 0%Qc.
Proof.
  unfold formatUnits, Qcdiv.
  assert (Qc_of_Z 0 = 0%Qc) as -> by (by apply Qc_is_canon).
  ring.
Qed.

Lemma worth_positive raw d (price : Qc) :
  0 ≤ raw → (1 < formatUnits raw d * price)%Qc → 0 < raw.
Proof.
  intros Hnn Hworth. destruct (decide (raw = 0)) as [->|Hne]; [|lia].
  rewrite formatUnits_zero in Hworth.
  replace (0 * price)%Qc with 0%Qc in Hworth by ring. done.
Qed.

Lemma processToken_spec wd env prices token pushed :
  processToken wd env prices token = Returns pushed →
  pushed = [] ∨ ∃ a, pushed = [a] ∧ tokenAsset env token a ∧ worthSending a.
Proof.
  unfold processToken.
  destruct (get _ prices) as [pd|]; [|intros [= <-]; by left].
  destruct (getTokenMetadata env _) as [md|] eqn:Hmd; [|intros [= <-]; by left].
  destruct (truthyNumber (usd pd)); [|intros [= <-]; by left].
  destruct (Rpc.decimals md) as [d|] eqn:Hd; [|intros [= <-]; by left].
  destruct (hexValue _) as [raw|] eqn:Hraw; [|done].
  case_decide as Hworth; intros [= <-]; [|by left].
  right. eexists. split; [done|]. split.
  - split_and!; [done | done | done |]. by exists md, d.
  - split; [done|]. simpl. eapply worth_positive; [|exact Hworth].
    by eapply hexValue_nonneg.
Qed.

Lemma processTokens_spec wd env prices tokens assets out :
  processTokens wd env prices tokens assets = Returns out →
  ∃ scanned pushed,
    out = assets ++ pushed
    ∧ scanned `sublist_of` tokens
    ∧ Forall2 (tokenAsset env) scanned pushed
    ∧ Forall worthSending pushed.
Proof.
  revert assets. induction tokens as [|t tokens IH]; intros assets; simpl.
  - intros [= <-]. exists [], []. rewrite app_nil_r. by split_and!.
  - destruct (processToken wd env prices t) as [pushed|m] eqn:Ht; [|done]. simpl.
    intros Hrest. destruct (IH _ Hrest) as (scanned & more & -> & Hsub & Hall & Hworth).
    destruct (processToken_spec _ _ _ _ _ Ht) as [->|(a & -> & Ha & Hw)].
    + exists scanned, more. rewrite app_nil_r. split_and!; try done.
      by apply sublist_cons.
    + exists (t :: scanned), (a :: more). rewrite <- app_assoc. split_and!; try done.
      * by apply sublist_skip.
      * by constructor.
      * by constructor.
Qed.

Lemma processEth_spec gas dec env prices native :
  processEth gas dec env prices = Returns native →
  (length native ≤ 1)%nat
  ∧ Forall (fun a => type a = ETH ∧ address a = None) native
  ∧ Forall worthSending native.
Proof.
  assert ((length ([] : list Asset) ≤ 1)%nat
          ∧ Forall (fun a => type a = ETH ∧ address a = None) []
          ∧ Forall worthSending []) as Hnone.
  { split_and!; [simpl; lia | constructor | constructor]. }
  unfold processEth. case_decide as Hval; [|by intros [= <-]].
  destruct (estimatedFee gas (getFeeData env)) as [fee|m]; [|done]. simpl.
  case_decide as Hfee; intros [= <-]; [|done].
  split_and!; [simpl; lia | by repeat constructor |].
  repeat constructor; simpl; [done | lia].
Qed.

Lemma scan_result gas dec wd env prices tokens out :
  bind (processEth gas dec env prices)
    (fun assets => processTokens wd env prices tokens assets) = Returns out →
  scanResult env tokens out.
Proof.
  destruct (processEth gas dec env prices) as [native|m] eqn:Heth; [|done]. simpl.
  intros Hout.
  destruct (processEth_spec _ _ _ _ _ Heth) as (Hlen & Hnative & Hworth).
  destruct (processTokens_spec _ _ _ _ _ _ Hout) as (scanned & pushed & -> & Hsub & Hall & Hw).
  split; [by apply Forall_app|]. by exists native, pushed, scanned.
Qed.

(** X10.  What [_findAllAssets] returns, in both 7702 scripts: every asset
    is valued above one fiat unit and has a positive amount; a native entry,
    if any, comes first and is the only one; the other entries are ERC-20
    entries of tokens of the balance enumeration whose balance text is not
    ['0x0'], in enumeration order, each with the token's address, the whole
    raw balance the indexer reported and the symbol of its metadata. *)
Theorem find_all_assets_result chainId env tokenBalances assets :
  getTokenBalances env = Rpc.TokenBalances tokenBalances →
  (Split30._findAllAssets chainId env = Some (Returns assets) →
   scanResult env (Scan.nonZeroBalances tokenBalances) assets)
  ∧ (Split31._findAllAssets chainId env = Returns assets →
     scanResult env (Scan.nonZeroBalances tokenBalances) assets).
Proof.
  intros Hbal. split.
  - unfold Split30._findAllAssets. rewrite Hbal.
    destruct (Split30._fetchTokenPricesInChunks _ _ _ _) as [[prices issued]|]; [|done].
    intros [= Hout]. by eapply scan_result.
  - unfold Split31._findAllAssets. rewrite Hbal.
    destruct (Split31._fetchTokenPricesInChunks _ _ _) as [prices issued].
    intros Hout. by eapply scan_result.
Qed.

End Assets.

Section AssetsWitness.
Import Split AssetSpec Demo Holdings.

Lemma find_all_assets_result_witness :
  ∃ assets,
    Split31._findAllAssets 1 holder = Returns assets
    ∧ length assets = 2%nat
    ∧ scanResult holder (Scan.nonZeroBalances twoTokens) assets.
Proof.
  destruct (Split31._findAllAssets 1 holder) as [assets|m] eqn:Hscan;
    [|vm_compute in Hscan; discriminate].
  exists assets. split_and!.
  - reflexivity.
  - vm_compute in Hscan. injection Hscan as <-. reflexivity.
  - exact (proj2 (find_all_assets_result 1 holder twoTokens assets eq_refl) Hscan).
Defined.

End AssetsWitness.

Section Deposit.
Import Split SplitFlow AssetSpec DepositSpec.






End Deposit.

Section DepositWitness.
Import Split SplitFlow AssetSpec DepositSpec Demo Holdings.


End DepositWitness.

Section HexChainId.
Import SplitFlow.

Lemma hexDigits_of_pos p rest :
  hexDigits (HexString.Raw.of_pos p rest) 0 = hexDigits rest (Z.pos p)
  ∧ ∃ c s, HexString.Raw.of_pos p rest = String c s.
Proof.
  revert rest.
  induction p as [p IH] using (well_founded_ind (Nat.lt_wf_0_projected Pos.to_nat)).
  intros rest.
  destruct p as [[[[p|p|]|[p|p|]|]|[[p|p|]|[p|p|]|]|]|[[[p|p|]|[p|p|]|]|[[p|p|]|[p|p|]|]|]|];
    simpl;
    try (split; [reflexivity | by do 2 eexists]);
    match goal with
    | |- context [HexString.Raw.of_pos p (String ?c rest)] =>
        destruct (IH p ltac:(lia) (String c rest)) as [Hd Hne];
        split; [rewrite Hd; simpl; f_equal; lia | exact Hne]
    end.
Qed.

(** X12.  The chain id written into the [wallet_sendCalls] payload,
    [0x] followed by [BigInt(chainId).toString(16)], reads back as the
    configured chain id: no two chain ids are sent as the same text. *)
Theorem hex_chain_id_round_trip chainId :
  0 ≤ chainId → hexValue (hexChainId chainId) = Some chainId.
Proof.
  intros Hnn. destruct chainId as [|p|p]; [reflexivity | | lia].
  destruct (hexDigits_of_pos p "") as [Hdigits (c & s & Hs)].
  change (hexChainId (Z.pos p))
    with (String "0" (String "x" (HexString.Raw.of_pos p ""))).
  rewrite Hs. unfold hexValue. rewrite <- Hs. exact Hdigits.
Qed.

Lemma hex_chain_id_round_trip_witness :
  0 ≤ 42161 ∧ hexChainId 42161 = "0xa4b1" ∧ hexValue (hexChainId 42161) = Some 42161.
Proof.
  split_and!; [lia | reflexivity | apply hex_chain_id_round_trip; lia].
Defined.
End HexChainId.

Section ConnectionLogging.
Import ConnectionLog LogSpec.






End ConnectionLogging.

Section ConnectionLoggingWitness.
Import ConnectionLog LogSpec Demo Holdings.


End ConnectionLoggingWitness.

Section ChunkedFetch30.
Import Split OracleSpec.
Variables (chainId : Z) (oracle : Oracle).

Lemma sentByOracle_mono issued more k p :
  sentByOracle oracle issued k p → sentByOracle oracle (issued ++ more) k p.
Proof.
  intros (q & data & Hq & Hbody & Hin). exists q, data.
  split_and!; [|done|done]. apply elem_of_app. by left.
Qed.

Lemma request_sent xs q acc acc' qs k p :
  request oracle xs q acc = (Some acc', qs) →
  get k acc' = Some p →
  get k acc = Some p ∨ sentByOracle oracle qs k p.
Proof.
  unfold request. destruct xs as [|x xs].
  { intros [= <- <-] Hget. by left. }
  destruct (oracle q) as [| status | data] eqn:Hbody; [done | |].
  - intros [= <- <-] Hget. by left.
  - intros [= <- <-] Hget. apply get_assign_elem in Hget as [Hget|Hin]; [by left|].
    right. exists q, data. split_and!; [apply list_elem_of_singleton| |]; done.
Qed.

Lemma request_length xs q acc : (length (request oracle xs q acc).2 ≤ 1)%nat.
Proof.
  unfold request. destruct xs; simpl; [lia|]. destruct (oracle q); simpl; lia.
Qed.

Lemma fetch_length ids : (length (_fetchTokenPrices chainId oracle ids).2 ≤ 2)%nat.
Proof.
  unfold _fetchTokenPrices.
  destruct (_CHAIN_ID_TO_COINGECKO_ASSET_PLATFORM chainId) as [platform|]; [|simpl; lia].
  cbv zeta.
  pose proof (request_length (List.filter (startsWith "0x") ids)
                (TokenPriceQuery platform (join "," (List.filter (startsWith "0x") ids)))
                []) as H1.
  destruct (request oracle (List.filter (startsWith "0x") ids) _ []) as [first q1].
  simpl in H1. destruct first as [allPrices|]; [|simpl; lia].
  pose proof (request_length (List.filter (fun id => negb (startsWith "0x" id)) ids)
                (SimplePriceQuery
                   (join "," (List.filter (fun id => negb (startsWith "0x" id)) ids)))
                allPrices) as H2.
  destruct (request oracle (List.filter (fun id => negb (startsWith "0x" id)) ids) _ allPrices)
    as [second q2].
  simpl in H2. destruct second as [allPrices'|]; [|simpl; rewrite length_app; lia].
  destruct (keys allPrices'); simpl; rewrite length_app; lia.
Qed.

Lemma fetch_sent ids prices qs k p :
  _fetchTokenPrices chainId oracle ids = (Some prices, qs) →
  get k prices = Some p →
  sentByOracle oracle qs k p.
Proof.
  unfold _fetchTokenPrices.
  destruct (_CHAIN_ID_TO_COINGECKO_ASSET_PLATFORM chainId) as [platform|]; [|done].
  cbv zeta.
  destruct (request oracle (List.filter (startsWith "0x") ids) _ []) as [first q1] eqn:H1.
  destruct first as [allPrices|]; [|done].
  destruct (request oracle (List.filter (fun id => negb (startsWith "0x" id)) ids) _ allPrices)
    as [second q2] eqn:H2.
  destruct second as [allPrices'|]; [|done].
  destruct (keys allPrices') eqn:Hkeys; [done|].
  intros [= <- <-] Hget.
  destruct (request_sent _ _ _ _ _ _ _ H2 Hget) as [Hget1|Hsent].
  - destruct (request_sent _ _ _ _ _ _ _ H1 Hget1) as [Hnil|Hsent]; [done|].
    by apply sentByOracle_mono.
  - destruct Hsent as (q & data & Hq & Hbody & Hin). exists q, data.
    split_and!; [|done|done]. apply elem_of_app. by right.
Qed.

Lemma request_NoDup xs q acc acc' qs :
  request oracle xs q acc = (Some acc', qs) → NoDup (keys acc) → NoDup (keys acc').
Proof.
  unfold request. destruct xs as [|x xs]; [by intros [= <- <-]|].
  destruct (oracle q) as [| status | data]; [done | by intros [= <- <-] |].
  intros [= <- <-] Hnd. by apply NoDup_keys_assign.
Qed.

Lemma fetch_NoDup ids prices qs :
  _fetchTokenPrices chainId oracle ids = (Some prices, qs) → NoDup (keys prices).
Proof.
  unfold _fetchTokenPrices.
  destruct (_CHAIN_ID_TO_COINGECKO_ASSET_PLATFORM chainId) as [platform|]; [|done].
  cbv zeta.
  destruct (request oracle (List.filter (startsWith "0x") ids) _ []) as [first q1] eqn:H1.
  destruct first as [allPrices|]; [|done].
  destruct (request oracle (List.filter (fun id => negb (startsWith "0x" id)) ids) _ allPrices)
    as [second q2] eqn:H2.
  destruct second as [allPrices'|]; [|done].
  destruct (keys allPrices') eqn:Hkeys; [done|].
  intros [= <- <-].
  eapply request_NoDup; [exact H2|]. eapply request_NoDup; [exact H1|]. apply NoDup_nil_2.
Qed.

(** The loop keeps: every recorded price was sent by the oracle, and each
    iteration issues at most two requests. *)
Lemma chunkLoop30_sent fuel ids chunkSize i acc issued prices issued' :
  (0 < chunkSize)%nat →
  (∀ k p, get k acc = Some p → sentByOracle oracle issued k p) →
  Split30.chunkLoop fuel chainId oracle ids chunkSize i acc issued = Some (prices, issued') →
  (∀ k p, get k prices = Some p → sentByOracle oracle issued' k p)
  ∧ (length issued' + 2 * i ≤ length issued + 2 * (i `max` length ids))%nat.
Proof.
  intros Hpos. revert i acc issued.
  induction fuel as [|fuel IH]; intros i acc issued Hacc; simpl.
  - destruct (i <? length ids)%nat eqn:Hi; [done|]. intros [= <- <-].
    split; [done|]. lia.
  - destruct (i <? length ids)%nat eqn:Hi.
    2:{ intros [= <- <-]. split; [done|]. lia. }
    apply Nat.ltb_lt in Hi.
    pose proof (fetch_length (take chunkSize (drop i ids))) as Hlen.
    destruct (_fetchTokenPrices chainId oracle (take chunkSize (drop i ids)))
      as [fetched qs] eqn:Hfetch.
    simpl in Hlen. intros Hloop. apply IH in Hloop.
    + destruct Hloop as [Hsent Hcount]. split; [done|].
      rewrite length_app in Hcount. lia.
    + intros k p Hget. destruct fetched as [fetched|].
      * apply get_assign_elem in Hget as [Hget|Hin].
        { by apply sentByOracle_mono, Hacc. }
        apply get_of_elem in Hin; [|by eapply fetch_NoDup].
        destruct (fetch_sent _ _ _ k p Hfetch Hin) as (q & data & Hq & Hbody & Hdata).
        exists q, data. split_and!; [|done|done]. apply elem_of_app. by right.
      * by apply sentByOracle_mono, Hacc.
Qed.

(** With a chunk size of zero [i] never advances. *)
Lemma chunkLoop30_stuck fuel ids i acc issued :
  (i < length ids)%nat →
  Split30.chunkLoop fuel chainId oracle ids 0 i acc issued = None.
Proof.
  intros Hi. revert acc issued.
  induction fuel as [|fuel IH]; intros acc issued; simpl.
  - apply Nat.ltb_lt in Hi. by rewrite Hi.
  - pose proof Hi as Hi'. apply Nat.ltb_lt in Hi'. rewrite Hi'.
    destruct (_fetchTokenPrices _ _ _) as [fetched qs].
    rewrite Nat.add_0_r. apply IH.
Qed.

(** X15.  The chunked price fetch of v3.0.  For every positive chunk size
    the loop ends; it issues at most two requests per identifier, and every
    price of the mapping it returns was sent by the oracle in the body that
    answered one of those requests: no price is invented and, unlike v3.1,
    none is replaced by zero.  With a chunk size of zero and at least one
    identifier the loop never ends, whatever the number of iterations
    allowed. *)
Theorem chunked_fetch_returns_oracle_prices ids chunkSize :
  ((0 < chunkSize)%nat →
   ∃ prices issued,
     Split30._fetchTokenPricesInChunks chainId oracle ids chunkSize = Some (prices, issued)
     ∧ (length issued ≤ 2 * length ids)%nat
     ∧ ∀ k p, get k prices = Some p → sentByOracle oracle issued k p)
  ∧ (chunkSize = 0%nat → ids ≠ [] →
     ∀ fuel, Split30.chunkLoop fuel chainId oracle ids chunkSize 0 [] [] = None).
Proof.
  split.
  - intros Hpos. unfold Split30._fetchTokenPricesInChunks.
    destruct (chunkLoop30_terminates chainId oracle (length ids) ids chunkSize 0 [] [] Hpos)
      as [[prices issued] Hrun];
      [lia|].
    exists prices, issued. split; [done|].
    apply chunkLoop30_sent in Hrun as [Hsent Hcount]; [|done|done].
    split; [simpl in Hcount; lia | done].
  - intros -> Hne fuel. apply chunkLoop30_stuck. destruct ids; [done | simpl; lia].
Qed.

End ChunkedFetch30.

Section ChunkedFetch30Witness.
Import Split OracleSpec Demo.

Lemma chunked_fetch_returns_oracle_prices_witness :
  ∃ prices issued,
    Split30._fetchTokenPricesInChunks 1 ethOracle ["0xb2"; "0xbad"; "ethereum"] 2
    = Some (prices, issued)
    ∧ issued = [TokenPriceQuery "ethereum" "0xb2,0xbad"; SimplePriceQuery "ethereum"]
    ∧ get "ethereum" prices = Some (usdPrice 3000)
    ∧ sentByOracle ethOracle issued "ethereum" (usdPrice 3000).
Proof.
  destruct (chunked_fetch_returns_oracle_prices 1 ethOracle ["0xb2"; "0xbad"; "ethereum"] 2)
    as [Hrun _].
  destruct Hrun as (prices & issued & Hrun & _ & Hsent); [lia|].
  exists prices, issued.
  assert (issued = [TokenPriceQuery "ethereum" "0xb2,0xbad"; SimplePriceQuery "ethereum"]
          ∧ get "ethereum" prices = Some (usdPrice 3000)) as [Hissued Hget].
  { vm_compute in Hrun. injection Hrun as <- <-. split; reflexivity. }
  split_and!; [exact Hrun | exact Hissued | exact Hget | exact (Hsent _ _ Hget)].
Defined.

End ChunkedFetch30Witness.

Section ServerLog.
Import Split Split31Flow AssetSpec RowSpec.

Lemma scanResult_length env tokens assets :
  scanResult env tokens assets → (length assets ≤ S (length tokens))%nat.
Proof.
  intros (_ & native & pushed & scanned & -> & Hnative & _ & Hsub & Hall).
  rewrite length_app. apply Forall2_length in Hall. apply sublist_length in Hsub. lia.
Qed.

(** X16.  The connection log of v3.1.  [_logConnectionToServer] never
    rejects and posts at most once: nothing without a connected wallet or
    when the asset scan throws; otherwise one body for the connected wallet
    with one row per asset the scan returned, in the scan's order - also
    when the scan found nothing - and so at most one row more than there
    are tokens with a balance. *)
Theorem server_log_rows toFixed sdk env :
  let run := _logConnectionToServer toFixed sdk env in
  run.1 = Returns tt
  ∧ (length run.2 ≤ 1)%nat
  ∧ (_currentUserAddress sdk = "" → run.2 = [])
  ∧ (∀ m, Split31._findAllAssets (chainId sdk) env = Throws m → run.2 = [])
  ∧ (∀ assets,
       _currentUserAddress sdk ≠ "" →
       Split31._findAllAssets (chainId sdk) env = Returns assets →
       ∃ rows,
         run.2 = [(_currentUserAddress sdk, rows)]
         ∧ Forall2 (rowOf toFixed) assets rows
         ∧ ∀ tokenBalances,
             getTokenBalances env = Rpc.TokenBalances tokenBalances →
             (length rows ≤ S (length (Scan.nonZeroBalances tokenBalances)))%nat).
Proof.
  cbv zeta. unfold _logConnectionToServer. split_and!.
  - case_decide; [done|]. by destruct (Split31._findAllAssets _ _).
  - case_decide; [simpl; lia|]. destruct (Split31._findAllAssets _ _); simpl; lia.
  - intros ->. done.
  - intros m ->. by case_decide.
  - intros assets Hwallet Hscan. rewrite decide_False by done. rewrite Hscan.
    eexists. split; [done|]. split.
    + apply Forall2_fmap_r, Forall_Forall2_diag, Forall_forall. intros a _.
      split_and!; [done | done |].
      destruct (decimals a) as [d|] eqn:Hd.
      * exists d. split; [by left | done].
      * exists 18. split; [by right | done].
    + intros tokenBalances Hbal. rewrite length_fmap.
      apply scanResult_length with (env := env).
      revert Hscan. unfold Split31._findAllAssets. rewrite Hbal.
      destruct (Split31._fetchTokenPricesInChunks _ _ _) as [prices issued].
      apply scan_result.
Qed.

End ServerLog.

Section ServerLogWitness.
Import Split Split31Flow AssetSpec RowSpec Demo Holdings.

Lemma server_log_rows_witness :
  ∃ rows,
    (_logConnectionToServer (fun _ _ => "n") session holder).2 = [("0xowner", rows)]
    ∧ row_symbol <$> rows = ["ETH"; "BET"].
Proof.
  destruct (Split31._findAllAssets 1 holder) as [assets|m] eqn:Hscan;
    [|vm_compute in Hscan; discriminate].
  destruct (server_log_rows (fun _ _ => "n") session holder) as (_ & _ & _ & _ & Hrows).
  destruct (Hrows assets) as (rows & Hrun & Hall & _);
    [vm_compute; discriminate | exact Hscan |].
  exists rows. split; [exact Hrun|].
  vm_compute in Hrun. injection Hrun as <-. reflexivity.
Defined.

End ServerLogWitness.
